(** * The scanning and file-selection pipeline of the agent

    A shallow embedding of [repo/scan.ts], [repo/dependency.ts],
    [agent/reader.ts] and [agent/bugAnalyzer.ts].

    Conventions of the embedding.
    - A JavaScript string is a [string]; its characters are the code units
      U+0000..U+00FF, so [toLowerCase], [trim] and the class [\s] are the
      restrictions of the JavaScript ones to that range.
    - [await] is sequential in the source, so asynchronous functions are
      plain functions; [console.log] output is not modelled.
    - A call that may throw returns an [option]; [None] is the exception, and
      each [try]/[catch] of the source is the [match] on it.
    - An array that is filled with [push] is threaded as an accumulator. *)

From Stdlib Require Import List String Ascii Bool Arith ZArith Lia.
From Stdlib Require Import Permutation Sorted.
Import ListNotations.
Local Open Scope string_scope.
Local Open Scope list_scope.
Local Open Scope nat_scope.

Set Implicit Arguments.

(** ** JavaScript strings *)

Module JsString.

Definition LF : ascii := "010"%char.
Definition CR : ascii := "013"%char.
Definition DQUOTE : ascii := "034"%char.
Definition QUOTE : ascii := "039"%char.
Definition BACKSLASH : ascii := "092"%char.
Definition SLASH : ascii := "/"%char.
Definition DOT : ascii := "."%char.

Definition code (c : ascii) : nat := nat_of_ascii c.

Definition in_range (lo hi c : ascii) : bool :=
  (code lo <=? code c) && (code c <=? code hi).

(** White space and line terminators below U+0100: TAB, LF, VT, FF, CR,
    SPACE and NBSP.  This is the class [\s] and what [trim] removes. *)
Definition is_space (c : ascii) : bool :=
  ((9 <=? code c) && (code c <=? 13)) || (code c =? 32) || (code c =? 160).

Definition is_digit (c : ascii) : bool := in_range "0" "9" c.

Definition is_alpha (c : ascii) : bool :=
  in_range "a" "z" c || in_range "A" "Z" c.

(** The character class of [.]: anything but a line terminator. *)
Definition is_dot (c : ascii) : bool :=
  negb (Ascii.eqb c LF || Ascii.eqb c CR).

Definition lower_char (c : ascii) : ascii :=
  let n := code c in
  if ((65 <=? n) && (n <=? 90))
     || ((192 <=? n) && (n <=? 222) && negb (n =? 215))
  then ascii_of_nat (n + 32) else c.

Fixpoint toLowerCase (s : string) : string :=
  match s with
  | EmptyString => EmptyString
  | String c s' => String (lower_char c) (toLowerCase s')
  end.

(** [s.startsWith(p)] *)
Definition startsWith (s p : string) : bool := prefix p s.

(** [s.includes(sub)] *)
Fixpoint includes (s sub : string) : bool :=
  if prefix sub s then true
  else match s with
       | EmptyString => false
       | String _ s' => includes s' sub
       end.

Fixpoint trimStart (s : string) : string :=
  match s with
  | EmptyString => EmptyString
  | String c s' => if is_space c then trimStart s' else s
  end.

Fixpoint trimEnd (s : string) : string :=
  match s with
  | EmptyString => EmptyString
  | String c s' =>
      match trimEnd s' with
      | EmptyString => if is_space c then EmptyString else String c EmptyString
      | t => String c t
      end
  end.

(** [s.trim()] *)
Definition trim (s : string) : string := trimEnd (trimStart s).

(** [s.split(sep)] for a separator [sep] of one character. *)
Fixpoint split (sep : ascii) (s : string) : list string :=
  match s with
  | EmptyString => [EmptyString]
  | String c s' =>
      if Ascii.eqb c sep then EmptyString :: split sep s'
      else match split sep s' with
           | w :: ws => String c w :: ws
           | [] => [String c EmptyString]
           end
  end.

(** [s.split(/\s+/)]: the separators are the maximal runs of white space,
    so a leading or a trailing run leaves an empty first or last piece. *)
Fixpoint split_spaces (s : string) : list string :=
  match s with
  | EmptyString => [EmptyString]
  | String c s' =>
      if is_space c then
        match s' with
        | String c' _ =>
            if is_space c' then split_spaces s'
            else EmptyString :: split_spaces s'
        | EmptyString => EmptyString :: split_spaces s'
        end
      else match split_spaces s' with
           | w :: ws => String c w :: ws
           | [] => [String c EmptyString]
           end
  end.

(** [sep.join]-style concatenation, [parts.join(sep)]. *)
Fixpoint join (sep : string) (parts : list string) : string :=
  match parts with
  | [] => EmptyString
  | [p] => p
  | p :: ps => (p ++ sep ++ join sep ps)%string
  end.

(** [xs.includes(x)] on an array of strings, and [set.has(x)]. *)
Definition mem (x : string) (xs : list string) : bool :=
  existsb (String.eqb x) xs.

(** [[...new Set(xs)]]: the first occurrence of each element, in order. *)
Fixpoint unique_from (seen : list string) (xs : list string) : list string :=
  match xs with
  | [] => []
  | x :: xs' =>
      if mem x seen then unique_from seen xs'
      else x :: unique_from (x :: seen) xs'
  end.

Definition unique (xs : list string) : list string := unique_from [] xs.


(** [xs.indexOf(x)] on an array of strings; [None] is [-1]. *)
Fixpoint indexOf (x : string) (xs : list string) : option nat :=
  match xs with
  | [] => None
  | y :: ys =>
      if String.eqb y x then Some 0
      else match indexOf x ys with
           | Some i => Some (S i)
           | None => None
           end
  end.

End JsString.

(** ** Regular expressions

    A backtracking matcher in continuation-passing style, with the priorities
    of the JavaScript one: the left alternative first, a greedy quantifier
    tries one more iteration first and a lazy one tries to stop first, and an
    iteration of a quantifier that consumes nothing is rejected. *)

Module Regex.
Import JsString.

Inductive regex : Type :=
| Eps
| Char (p : ascii -> bool)
| Bol
| Seq (r1 r2 : regex)
| Alt (r1 r2 : regex)
| Star (greedy : bool) (r : regex)
| Group (i : nat) (r : regex).

Definition Plus (greedy : bool) (r : regex) : regex :=
  Seq r (Star greedy r).

Definition Lit (c : ascii) : regex := Char (Ascii.eqb c).

Fixpoint Str (s : string) : regex :=
  match s with
  | EmptyString => Eps
  | String c s' => Seq (Lit c) (Str s')
  end.

Fixpoint Seqs (rs : list regex) : regex :=
  match rs with
  | [] => Eps
  | [r] => r
  | r :: rs' => Seq r (Seqs rs')
  end.

Fixpoint Alts (rs : list regex) : regex :=
  match rs with
  | [] => Eps
  | [r] => r
  | r :: rs' => Alt r (Alts rs')
  end.

(** The state of a match: the index reached, the input that is left, and
    the captures made so far (the most recent first). *)
Record mstate : Type := MState {
  pos : nat;
  rest : string;
  caps : list (nat * string)
}.

Definition or_else {A} (a : option A) (b : unit -> option A) : option A :=
  match a with
  | Some x => Some x
  | None => b tt
  end.

(** The iterations of a quantifier [r*] or [r*?], [body] being the matcher
    of [r].  An iteration must consume a character, so the length of the
    input that is left bounds their number. *)
Fixpoint iterate (greedy : bool)
  (body : mstate -> (mstate -> option mstate) -> option mstate)
  (k : mstate -> option mstate) (fuel : nat) (st : mstate) {struct fuel}
  : option mstate :=
  match fuel with
  | 0 => k st
  | S fuel' =>
      let once := fun _ : unit =>
        body st (fun st1 =>
          if pos st <? pos st1 then iterate greedy body k fuel' st1
          else None) in
      if greedy then or_else (once tt) (fun _ => k st)
      else or_else (k st) once
  end.

Fixpoint run (r : regex) (st : mstate) (k : mstate -> option mstate)
  {struct r} : option mstate :=
  match r with
  | Eps => k st
  | Char p =>
      match rest st with
      | String c s' =>
          if p c then k (MState (S (pos st)) s' (caps st)) else None
      | EmptyString => None
      end
  | Bol => if pos st =? 0 then k st else None
  | Seq r1 r2 => run r1 st (fun st1 => run r2 st1 k)
  | Alt r1 r2 => or_else (run r1 st k) (fun _ => run r2 st k)
  | Star greedy r1 =>
      iterate greedy (run r1) k (String.length (rest st)) st
  | Group i r1 =>
      run r1 st (fun st1 =>
        k (MState (pos st1) (rest st1)
             ((i, substring 0 (pos st1 - pos st) (rest st)) :: caps st1)))
  end.

(** The result of a successful match. *)
Record found : Type := Found {
  m_start : nat;
  m_text : string;
  m_end : mstate
}.

(** Capture group [i] of a match; [None] is [undefined]. *)
Definition capture (i : nat) (m : found) : option string :=
  match find (fun c => fst c =? i) (caps (m_end m)) with
  | Some c => Some (snd c)
  | None => None
  end.

(** The leftmost match that starts at index [i] or later, [s] being the
    input from index [i] on. *)
Fixpoint search (r : regex) (i : nat) (s : string) : option found :=
  match run r (MState i s []) Some with
  | Some st => Some (Found i (substring 0 (pos st - i) s) st)
  | None =>
      match s with
      | EmptyString => None
      | String _ s' => search r (S i) s'
      end
  end.

(** [s.match(r)] for [r] without the [g] flag. *)
Definition match_first (r : regex) (s : string) : option found :=
  search r 0 s.

(** The matches of a [g] regular expression, from left to right: the loop
    [while ((m = r.exec(s)) !== null)] and [s.match(r)].  Each search
    resumes where the last match ended.  The patterns of the source consume
    at least one character per match, so the loop ends and a fuel above the
    length of the input is never used up (see [match_all_fuel]). *)
Fixpoint matches_from (fuel : nat) (r : regex) (i : nat) (s : string)
  : list found :=
  match fuel with
  | 0 => []
  | S fuel' =>
      match search r i s with
      | None => []
      | Some m =>
          m :: matches_from fuel' r (pos (m_end m)) (rest (m_end m))
      end
  end.

Definition match_all (r : regex) (s : string) : list found :=
  matches_from (S (String.length s)) r 0 s.

(** What the matcher computes, as a relation: [Matches r st st'] when [r]
    can take the state [st] to the state [st']. *)
Inductive Matches : regex -> mstate -> mstate -> Prop :=
| MatchesEps : forall st, Matches Eps st st
| MatchesChar : forall p c s' st,
    rest st = String c s' -> p c = true ->
    Matches (Char p) st (MState (S (pos st)) s' (caps st))
| MatchesBol : forall st, pos st = 0 -> Matches Bol st st
| MatchesSeq : forall r1 r2 st st1 st2,
    Matches r1 st st1 -> Matches r2 st1 st2 -> Matches (Seq r1 r2) st st2
| MatchesAltL : forall r1 r2 st st1,
    Matches r1 st st1 -> Matches (Alt r1 r2) st st1
| MatchesAltR : forall r1 r2 st st1,
    Matches r2 st st1 -> Matches (Alt r1 r2) st st1
| MatchesStarStop : forall greedy r st, Matches (Star greedy r) st st
| MatchesStarStep : forall greedy r st st1 st2,
    Matches r st st1 -> pos st < pos st1 ->
    Matches (Star greedy r) st1 st2 -> Matches (Star greedy r) st st2
| MatchesGroup : forall i r st st1,
    Matches r st st1 ->
    Matches (Group i r) st
      (MState (pos st1) (rest st1)
         ((i, substring 0 (pos st1 - pos st) (rest st)) :: caps st1)).

(** The least number of characters that a match of [r] consumes. *)
Fixpoint minLength (r : regex) : nat :=
  match r with
  | Eps => 0
  | Char _ => 1
  | Bol => 0
  | Seq r1 r2 => minLength r1 + minLength r2
  | Alt r1 r2 => Nat.min (minLength r1) (minLength r2)
  | Star _ _ => 0
  | Group _ r1 => minLength r1
  end.

(** Every match of [r] sets capture group [i]. *)
Fixpoint defines (i : nat) (r : regex) : bool :=
  match r with
  | Seq r1 r2 => defines i r1 || defines i r2
  | Alt r1 r2 => defines i r1 && defines i r2
  | Group j r1 => (j =? i) || defines i r1
  | _ => false
  end.

(** Every capture group of [r] consumes at least one character. *)
Fixpoint capturesText (r : regex) : bool :=
  match r with
  | Seq r1 r2 => capturesText r1 && capturesText r2
  | Alt r1 r2 => capturesText r1 && capturesText r2
  | Star _ r1 => capturesText r1
  | Group _ r1 => (0 <? minLength r1) && capturesText r1
  | _ => true
  end.


(** The strings that a pattern matches, positions set aside. *)
Inductive Lang : regex -> string -> Prop :=
| LangEps : Lang Eps ""
| LangChar : forall p c, p c = true -> Lang (Char p) (String c "")
| LangBol : Lang Bol ""
| LangSeq : forall r1 r2 w1 w2,
    Lang r1 w1 -> Lang r2 w2 -> Lang (Seq r1 r2) (w1 ++ w2)
| LangAltL : forall r1 r2 w, Lang r1 w -> Lang (Alt r1 r2) w
| LangAltR : forall r1 r2 w, Lang r2 w -> Lang (Alt r1 r2) w
| LangStarStop : forall greedy r, Lang (Star greedy r) ""
| LangStarStep : forall greedy r w1 w2,
    Lang r w1 -> Lang (Star greedy r) w2 -> Lang (Star greedy r) (w1 ++ w2)
| LangGroup : forall i r w, Lang r w -> Lang (Group i r) w.

(** The patterns inside the capture groups numbered [i]. *)
Fixpoint groupBodies (i : nat) (r : regex) : list regex :=
  match r with
  | Seq r1 r2 => groupBodies i r1 ++ groupBodies i r2
  | Alt r1 r2 => groupBodies i r1 ++ groupBodies i r2
  | Star _ r1 => groupBodies i r1
  | Group j r1 => (if j =? i then [r1] else []) ++ groupBodies i r1
  | _ => []
  end.

End Regex.

(** ** The [path] module of Node.js, POSIX flavour *)

Module NodePath.
Import JsString.

(** [path.isAbsolute(p)] *)
Definition isAbsolute (p : string) : bool := startsWith p "/".

Definition endsWithSlash (p : string) : bool :=
  match rev (split SLASH p) with
  | last :: _ :: _ => String.eqb last ""
  | _ => false
  end.

(** Resolution of [.] and [..] segments; the segments kept so far are held
    in reverse.  Above the root of an absolute path [..] is dropped, at the
    front of a relative path it is kept. *)
Fixpoint normalizeSegments (allowAboveRoot : bool) (acc : list string)
  (segs : list string) : list string :=
  match segs with
  | [] => rev acc
  | seg :: segs' =>
      if String.eqb seg "" || String.eqb seg "." then
        normalizeSegments allowAboveRoot acc segs'
      else if String.eqb seg ".." then
        match acc with
        | prev :: acc' =>
            if String.eqb prev ".." then
              normalizeSegments allowAboveRoot (seg :: acc) segs'
            else normalizeSegments allowAboveRoot acc' segs'
        | [] =>
            if allowAboveRoot then
              normalizeSegments allowAboveRoot [seg] segs'
            else normalizeSegments allowAboveRoot [] segs'
        end
      else normalizeSegments allowAboveRoot (seg :: acc) segs'
  end.

(** [path.normalize(p)] *)
Definition normalize (p : string) : string :=
  if String.eqb p "" then "."
  else
    let abs := isAbsolute p in
    let body := join "/" (normalizeSegments (negb abs) [] (split SLASH p)) in
    if String.eqb body "" then
      if abs then "/" else if endsWithSlash p then "./" else "."
    else
      let body := if endsWithSlash p then (body ++ "/")%string else body in
      if abs then ("/" ++ body)%string else body.

(** [path.join(a, b)] *)
Definition join2 (a b : string) : string :=
  if String.eqb a "" then normalize b
  else if String.eqb b "" then normalize a
  else normalize (a ++ "/" ++ b)%string.

(** The segments of the absolute path that [p] denotes in a process whose
    working directory is [cwd]. *)
Definition resolveSegments (cwd p : string) : list string :=
  if isAbsolute p then normalizeSegments false [] (split SLASH p)
  else normalizeSegments false [] (split SLASH cwd ++ split SLASH p).

(** [path.resolve(p)] *)
Definition resolve (cwd p : string) : string :=
  ("/" ++ join "/" (resolveSegments cwd p))%string.

Fixpoint dropTrailingSlashes (rsegs : list string) : list string :=
  match rsegs with
  | seg :: rsegs' =>
      if String.eqb seg "" then dropTrailingSlashes rsegs' else rsegs
  | [] => []
  end.

(** [path.basename(p)]: the last segment, trailing slashes set aside. *)
Definition basename (p : string) : string :=
  match dropTrailingSlashes (rev (split SLASH p)) with
  | seg :: _ => seg
  | [] => ""
  end.

(** The suffix that starts at the last dot, and whether some character
    comes before that dot. *)
Fixpoint lastDot (s : string) : option (bool * string) :=
  match s with
  | EmptyString => None
  | String c s' =>
      match lastDot s' with
      | Some (_, ext) => Some (true, ext)
      | None => if Ascii.eqb c DOT then Some (false, s) else None
      end
  end.

(** [path.extname(p)]: from the last dot of the last segment on; empty
    when there is no dot, when the dot opens the segment, and for [..]. *)
Definition extname (p : string) : string :=
  let base := basename p in
  if String.eqb base ".." then ""
  else match lastDot base with
       | Some (true, ext) => ext
       | _ => ""
       end.

End NodePath.

(** ** The file system

    A tree of directory entries below the root directory, and the working
    directory of the process.  A regular file whose content is [None] cannot
    be read.  A directory holds its entries and whether it can be listed:
    one that cannot be listed makes [readdir] fail, yet what lies beneath
    it is still reached by path.  A symbolic link holds the path it points
    to: [readdir] reports it as neither a file nor a directory, while a
    look-up by path follows it. *)

Module Fs.
Import JsString NodePath.

#[local] Unset Elimination Schemes.

Inductive entry : Type :=
| File (name : string) (content : option string)
| Dir (name : string) (listable : bool) (entries : list entry)
| Link (name : string) (target : string)
| Other (name : string).

#[local] Set Elimination Schemes.

(** Induction on trees of entries. *)
Fixpoint entry_tree_ind (P : entry -> Prop)
  (onFile : forall name content, P (File name content))
  (onDir : forall name listable entries,
     Forall P entries -> P (Dir name listable entries))
  (onLink : forall name target, P (Link name target))
  (onOther : forall name, P (Other name))
  (e : entry) {struct e} : P e :=
  match e with
  | File name content => onFile name content
  | Dir name listable entries =>
      onDir name listable entries
        ((fix all (es : list entry) : Forall P es :=
            match es with
            | [] => Forall_nil P
            | e' :: es' =>
                Forall_cons e'
                  (entry_tree_ind onFile onDir onLink onOther e')
                  (all es')
            end) entries)
  | Link name target => onLink name target
  | Other name => onOther name
  end.

Definition entryName (e : entry) : string :=
  match e with
  | File name _ => name
  | Dir name _ _ => name
  | Link name _ => name
  | Other name => name
  end.

Record FileSystem : Type := {
  cwd : string;
  tree : list entry
}.

Definition findEntry (name : string) (es : list entry) : option entry :=
  find (fun e => String.eqb (entryName e) name) es.

(** The entry that a non-empty list of names leads to through directories;
    no link is followed. *)
Fixpoint lookupIn (es : list entry) (segs : list string) : option entry :=
  match segs with
  | [] => None
  | [seg] => findEntry seg es
  | seg :: segs' =>
      match findEntry seg es with
      | Some (Dir _ _ sub) => lookupIn sub segs'
      | _ => None
      end
  end.

(** What the names of a place lead to: the root directory or an entry of
    the tree. *)
Definition nodeAt (fs : FileSystem) (segs : list string) : option entry :=
  match segs with
  | [] => Some (Dir "" true (tree fs))
  | _ => lookupIn (tree fs) segs
  end.

(** How far the segments of a path lead from the place [here] (held in
    reverse): to a place, nowhere, or to a symbolic link, from whose
    target the look-up goes on. *)
Inductive progress : Type :=
| Arrived (here : list string)
| Lost
| Jump (here : list string) (segs : list string).

(** The segments of a path as the operating system follows them: each
    segment, also an empty one, [.] and [..], is taken from a directory;
    a directory need not be listable to be passed through. *)
Fixpoint walkSegments (fs : FileSystem) (here : list string)
  (segs : list string) : progress :=
  match segs with
  | [] => Arrived here
  | seg :: segs' =>
      match nodeAt fs (rev here) with
      | Some (Dir _ _ entries) =>
          if String.eqb seg "" || String.eqb seg "." then
            walkSegments fs here segs'
          else if String.eqb seg ".." then walkSegments fs (tl here) segs'
          else
            match findEntry seg entries with
            | Some (Link _ target) =>
                Jump (if isAbsolute target then [] else here)
                  (split SLASH target ++ segs')
            | Some _ => walkSegments fs (seg :: here) segs'
            | None => Lost
            end
      | _ => Lost
      end
  end.

(** The place that a path leads to; [links] bounds the number of symbolic
    links that are followed. *)
Fixpoint follow (links : nat) (fs : FileSystem) (here : list string)
  (segs : list string) : option (list string) :=
  match walkSegments fs here segs with
  | Arrived there => Some there
  | Lost => None
  | Jump there segs' =>
      match links with
      | 0 => None
      | S links' => follow links' fs there segs'
      end
  end.

(** The number of symbolic links that the operating system follows in one
    look-up before it gives up. *)
Definition MAXSYMLINKS : nat := 40.

(** What a path names, if anything.  A relative path starts from the
    working directory. *)
Definition lookup (fs : FileSystem) (p : string) : option entry :=
  if String.eqb p "" then None
  else
    let start :=
      if isAbsolute p then [] else rev (resolveSegments (cwd fs) "") in
    match follow MAXSYMLINKS fs start (split SLASH p) with
    | Some here => nodeAt fs (rev here)
    | None => None
    end.

(** [fs.existsSync(p)] *)
Definition existsSync (fs : FileSystem) (p : string) : bool :=
  match lookup fs p with
  | Some _ => true
  | None => false
  end.

(** [fs.readFileSync(p, 'utf-8')]; [None] when the call throws. *)
Definition readFileSync (fs : FileSystem) (p : string) : option string :=
  match lookup fs p with
  | Some (File _ content) => content
  | _ => None
  end.

(** [fs.promises.readdir(p, { withFileTypes: true })]; [None] when the call
    throws. *)
Definition readdir (fs : FileSystem) (p : string) : option (list entry) :=
  match lookup fs p with
  | Some (Dir _ true entries) => Some entries
  | _ => None
  end.

End Fs.

(** ** [repo/scan.ts] *)

Module Scan.
Import JsString NodePath Fs.

Record ScannedFile : Type := {
  file : string;
  path : string;
  content : string;
  extension : string
}.

Definition IGNORED_DIRS : list string :=
  ["node_modules"; ".git"; "dist"; "build"; ".next"; "coverage";
   "__pycache__"].

Definition SUPPORTED_EXTENSIONS : list string :=
  [".ts"; ".js"; ".wgsl"; ".html"; ".css"; ".json"; ".glsl"].

(** The body of the loop of [walkDirectory] for one entry.  The entries of
    a listable directory are what [readdir] returns for its path and the
    content of a file entry is what [readFile] returns for its path, so the
    recursive call on [fullPath] is the walk of the entry's own entries
    (see [walkByPath] below and [walkByPath_scanRepository]).  For a
    symbolic link both [isDirectory()] and [isFile()] are false. *)
Fixpoint walkEntry (dirPath : string) (files : list ScannedFile)
  (e : entry) {struct e} : list ScannedFile :=
  let fullPath := join2 dirPath (entryName e) in
  match e with
  | Dir name listable entries =>
      if negb (mem name IGNORED_DIRS) then
        if listable then
          (fix each (files : list ScannedFile) (es : list entry)
             {struct es} : list ScannedFile :=
             match es with
             | [] => files
             | e' :: es' => each (walkEntry fullPath files e') es'
             end) files entries
        else files
      else files
  | File name data =>
      let ext := toLowerCase (extname name) in
      if mem ext SUPPORTED_EXTENSIONS then
        match data with
        | Some content =>
            files ++ [{| file := name; path := fullPath;
                         content := content; extension := ext |}]
        | None => files
        end
      else files
  | Link _ _ => files
  | Other _ => files
  end.

(** [walkDirectory(dirPath, files)], given the result of [readdir]. *)
Definition walkDirectory (dirPath : string)
  (listing : option (list entry)) (files : list ScannedFile)
  : list ScannedFile :=
  match listing with
  | Some entries => fold_left (walkEntry dirPath) entries files
  | None => files
  end.

(** [scanRepository(rootPath)] *)
Definition scanRepository (fs : FileSystem) (rootPath : string)
  : list ScannedFile :=
  let absolutePath := resolve (cwd fs) rootPath in
  walkDirectory absolutePath (readdir fs absolutePath) [].

(** [getFileList(files)] *)
Definition getFileList (files : list ScannedFile) : list string :=
  map file files.

(** The walk as the source writes it, with every access made by path:
    [readdir(dirPath)] gives the entries, of which only the name and the
    kind are used, and [readFile(fullPath)] gives the content of a file.
    [fuel] bounds the depth of the recursion. *)
Definition stepByPath
  (walk : string -> list ScannedFile -> list ScannedFile)
  (fs : FileSystem) (dirPath : string) (files : list ScannedFile)
  (e : entry) : list ScannedFile :=
  let fullPath := join2 dirPath (entryName e) in
  match e with
  | Dir name _ _ =>
      if negb (mem name IGNORED_DIRS) then walk fullPath files else files
  | File name _ =>
      let ext := toLowerCase (extname name) in
      if mem ext SUPPORTED_EXTENSIONS then
        match readFileSync fs fullPath with
        | Some content =>
            files ++ [{| file := name; path := fullPath;
                         content := content; extension := ext |}]
        | None => files
        end
      else files
  | Link _ _ => files
  | Other _ => files
  end.

Fixpoint walkByPath (fuel : nat) (fs : FileSystem) (dirPath : string)
  (files : list ScannedFile) {struct fuel} : list ScannedFile :=
  match fuel with
  | 0 => files
  | S fuel' =>
      match readdir fs dirPath with
      | Some entries =>
          fold_left (stepByPath (walkByPath fuel' fs) fs dirPath) entries
            files
      | None => files
      end
  end.


(** [acc[ext] = (acc[ext] || 0) + 1] on the object that counts files per
    extension, its properties in the order in which they were first
    assigned. *)
Fixpoint countOneMore (ext : string) (acc : list (string * nat))
  : list (string * nat) :=
  match acc with
  | [] => [(ext, 0 + 1)]
  | (k, n) :: acc' =>
      if String.eqb k ext then (k, n + 1) :: acc'
      else (k, n) :: countOneMore ext acc'
  end.

(** The summary [byExtension] that [scanRepository] prints. *)
Definition byExtension (files : list ScannedFile) : list (string * nat) :=
  fold_left (fun acc f => countOneMore (extension f) acc) files [].

End Scan.

(** ** [repo/dependency.ts] *)

Module Dependency.
Import JsString NodePath Regex Scan.

(** A [DependencyMap] is a JavaScript object used as a map from file names
    to arrays of file names: its properties in the order of
    [Object.entries], which for keys that are not array indices is the
    order in which they were first assigned.  The name of a scanned file
    ends in an extension, so it is neither an array index nor
    [__proto__] (see [ordinaryKey] and [scannable_ordinaryKey] below);
    what is proved of the order of the keys is proved for such names. *)
Definition DependencyMap : Type := list (string * list string).

(** [map[key] = value] *)
Fixpoint setProperty (key : string) (value : list string)
  (map : DependencyMap) : DependencyMap :=
  match map with
  | [] => [(key, value)]
  | (k, v) :: map' =>
      if String.eqb k key then (k, value) :: map'
      else (k, v) :: setProperty key value map'
  end.

(** [map[key]]; [None] is [undefined]. *)
Fixpoint getProperty (key : string) (map : DependencyMap)
  : option (list string) :=
  match map with
  | [] => None
  | (k, v) :: map' =>
      if String.eqb k key then Some v else getProperty key map'
  end.

Record ImportInfo : Type := {
  raw : string;
  module : string;
  isRelative : bool;
  isPackage : bool
}.

Definition quote : regex :=
  Char (fun c => Ascii.eqb c QUOTE || Ascii.eqb c DQUOTE).

(** [/^import\s+.*?from\s+['"](.+?)['"]|^import\s+['"](.+?)['"]/] *)
Definition importPattern : regex :=
  Alt
    (Seqs [Bol; Str "import"; Plus true (Char is_space);
           Star false (Char is_dot); Str "from"; Plus true (Char is_space);
           quote; Group 1 (Plus false (Char is_dot)); quote])
    (Seqs [Bol; Str "import"; Plus true (Char is_space);
           quote; Group 2 (Plus false (Char is_dot)); quote]).

(** [/require\s*\(\s*['"](.+?)['"]\s*\)/] *)
Definition requirePattern : regex :=
  Seqs [Str "require"; Star true (Char is_space); Lit "(";
        Star true (Char is_space); quote;
        Group 1 (Plus false (Char is_dot)); quote;
        Star true (Char is_space); Lit ")"].

(** [a || b] on two captures: [a] unless it is [undefined] or empty. *)
Definition orCapture (a b : option string) : option string :=
  match a with
  | Some s => if String.eqb s "" then b else Some s
  | None => b
  end.

(** The string held by a capture that took part in the match (the
    captures read below always did, see [import_module_defined] and
    [require_module_defined]). *)
Definition text (v : option string) : string :=
  match v with
  | Some s => s
  | None => ""
  end.

(** [createImportInfo(raw, modulePath)] *)
Definition createImportInfo (raw modulePath : string) : ImportInfo :=
  let isRelative :=
    startsWith modulePath "./" || startsWith modulePath "../" in
  {| raw := raw; module := modulePath; isRelative := isRelative;
     isPackage := negb isRelative |}.

(** The body of the loop of [parseImports] for one line. *)
Definition parseLine (imports : list ImportInfo) (line : string)
  : list ImportInfo :=
  let trimmed := trim line in
  if startsWith trimmed "//" || startsWith trimmed "*" then imports
  else
    match match_first importPattern trimmed with
    | Some importMatch =>
        let modulePath :=
          text (orCapture (capture 1 importMatch) (capture 2 importMatch)) in
        imports ++ [createImportInfo trimmed modulePath]
    | None =>
        match match_first requirePattern trimmed with
        | Some requireMatch =>
            imports ++
              [createImportInfo trimmed (text (capture 1 requireMatch))]
        | None => imports
        end
    end.

(** [parseImports(content)] *)
Definition parseImports (content : string) : list ImportInfo :=
  fold_left parseLine (split LF content) [].

Definition extensions : list string :=
  [".ts"; ".js"; ".tsx"; ".jsx"; ".wgsl"].

(** [resolveImport(modulePath, existingFiles)]; [None] is [null]. *)
Definition resolveImport (modulePath : string) (existingFiles : list string)
  : option string :=
  let baseName := basename modulePath in
  if mem baseName existingFiles then Some baseName
  else
    match find (fun ext => mem (baseName ++ ext)%string existingFiles)
            extensions with
    | Some ext => Some (baseName ++ ext)%string
    | None =>
        match find (fun ext => mem ("index" ++ ext)%string existingFiles)
                extensions with
        | Some ext => Some ("index" ++ ext)%string
        | None => None
        end
    end.

(** The inner loop of [buildDependencyMap] for one import; the test
    [if (resolved)] also rejects the empty string. *)
Definition addDependency (fileNames : list string)
  (dependencies : list string) (imp : ImportInfo) : list string :=
  if isRelative imp then
    match resolveImport (module imp) fileNames with
    | Some resolved =>
        if String.eqb resolved "" then dependencies
        else dependencies ++ [resolved]
    | None => dependencies
    end
  else dependencies.

(** [buildDependencyMap(files)] *)
Definition buildDependencyMap (files : list ScannedFile) : DependencyMap :=
  let fileNames := unique (map file files) in
  fold_left
    (fun dependencyMap f =>
       let imports := parseImports (content f) in
       let dependencies := fold_left (addDependency fileNames) imports [] in
       setProperty (file f) dependencies dependencyMap)
    files [].

(** [findDependents(targetFile, map)] *)
Definition findDependents (targetFile : string) (map : DependencyMap)
  : list string :=
  fold_left
    (fun dependents entry =>
       let '(f, deps) := entry in
       if mem targetFile deps then dependents ++ [f] else dependents)
    map [].


Record FileDependency : Type := {
  file : string;
  imports : list ImportInfo;
  dependsOn : list string
}.

(** [xs.filter((f): f is string => f !== null)] *)
Fixpoint nonNull (xs : list (option string)) : list string :=
  match xs with
  | [] => []
  | Some x :: xs' => x :: nonNull xs'
  | None :: xs' => nonNull xs'
  end.

(** [analyzeFileDependencies(file, allFiles)] *)
Definition analyzeFileDependencies (f : ScannedFile)
  (allFiles : list ScannedFile) : FileDependency :=
  let fileNames := unique (map Scan.file allFiles) in
  let imports := parseImports (content f) in
  let dependsOn :=
    nonNull
      (map (fun imp => resolveImport (module imp) fileNames)
         (filter (fun imp => isRelative imp) imports)) in
  {| file := Scan.file f; imports := imports; dependsOn := dependsOn |}.

End Dependency.

(** ** [Array.prototype.sort]

    The sort of an array is stable, and for a comparator that orders its
    arguments consistently the outcome does not depend on the algorithm;
    it is computed here by straight insertion.  [compare a b > 0] places [a]
    after [b]. *)

Module JsArray.

Section Sort.
Variable A : Type.
Variable compare : A -> A -> Z.

Fixpoint insert (x : A) (sorted : list A) : list A :=
  match sorted with
  | [] => [x]
  | y :: ys =>
      if (compare x y <=? 0)%Z then x :: y :: ys else y :: insert x ys
  end.

Fixpoint sort (xs : list A) : list A :=
  match xs with
  | [] => []
  | x :: xs' => insert x (sort xs')
  end.
End Sort.

End JsArray.

(** ** [agent/reader.ts] *)

Module Reader.
Import JsString NodePath Regex Fs.

Record ProblemInput : Type := {
  description : string;
  errorLog : option string;
  filePaths : option (list string);
  basePath : string
}.

Record FileContent : Type := {
  path : string;
  content : string;
  extension : string
}.

(** [(ts|js|tsx|jsx)] as capture group [i] *)
Definition sourceSuffix (i : nat) : regex :=
  Group i (Alts [Str "ts"; Str "js"; Str "tsx"; Str "jsx"]).

Definition colon : regex := Lit ":".
Definition digits : regex := Plus true (Char is_digit).

(** The four patterns of [extractFilesFromError], in the order of the
    source:
    [/at\s+.*?\((.+?\.(ts|js|tsx|jsx)):\d+:\d+\)/g],
    [/at\s+(.+?\.(ts|js|tsx|jsx)):\d+:\d+/g],
    [/([a-zA-Z]:\\[^:]+\.(ts|js|tsx|jsx))/g] and
    [/([\/][^:\s]+\.(ts|js|tsx|jsx))/g]. *)
Definition patterns : list regex :=
  [ Seqs [Str "at"; Plus true (Char is_space); Star false (Char is_dot);
          Lit "(";
          Group 1 (Seqs [Plus false (Char is_dot); Lit "."; sourceSuffix 2]);
          colon; digits; colon; digits; Lit ")"];
    Seqs [Str "at"; Plus true (Char is_space);
          Group 1 (Seqs [Plus false (Char is_dot); Lit "."; sourceSuffix 2]);
          colon; digits; colon; digits];
    Group 1
      (Seqs [Char is_alpha; colon; Lit BACKSLASH;
             Plus true (Char (fun c => negb (Ascii.eqb c ":")));
             Lit "."; sourceSuffix 2]);
    Group 1
      (Seqs [Lit SLASH;
             Plus true
               (Char (fun c => negb (Ascii.eqb c ":" || is_space c)));
             Lit "."; sourceSuffix 2]) ].

(** Capture group 1 of a match, which every pattern above sets (see
    [path_group_defined]). *)
Definition group1 (m : found) : string :=
  match capture 1 m with
  | Some s => s
  | None => ""
  end.

(** [extractFilesFromError(errorLog)] *)
Definition extractFilesFromError (errorLog : string) : list string :=
  let matches :=
    fold_left
      (fun matches pattern =>
         matches ++ map group1 (match_all pattern errorLog))
      patterns [] in
  unique matches.

(** The body of the two loading loops of [findRelatedFiles]: a path that
    does not exist, or whose read throws, leaves [files] as it is. *)
Definition loadInto (fs : FileSystem) (basePath : string)
  (files : list FileContent) (filePath : string) : list FileContent :=
  let absolutePath :=
    if isAbsolute filePath then filePath else join2 basePath filePath in
  if existsSync fs absolutePath then
    match readFileSync fs absolutePath with
    | Some content =>
        files ++ [{| path := absolutePath; content := content;
                     extension := extname absolutePath |}]
    | None => files
    end
  else files.

(** Option 1 of [findRelatedFiles]: the files named by the caller. *)
Definition specifiedFiles (fs : FileSystem) (basePath : string)
  (filePaths : list string) : list FileContent :=
  fold_left (loadInto fs basePath) (firstn 5 filePaths) [].

(** Option 2: the files named in the stack trace. *)
Definition stackTraceFiles (fs : FileSystem) (basePath : string)
  (errorLog : string) : list FileContent :=
  let errorFiles := extractFilesFromError errorLog in
  fold_left (loadInto fs basePath) (firstn 5 errorFiles) [].

(** The key words of the description. *)
Definition keywordsOf (description : string) : list string :=
  filter (fun w => 3 <? String.length w)
    (split_spaces (toLowerCase description)).

Record ScoredFile : Type := {
  file : Scan.ScannedFile;
  score : nat
}.

Definition scoreFile (keywords : list string) (f : Scan.ScannedFile)
  : ScoredFile :=
  let lowerContent := toLowerCase (Scan.content f) in
  let score :=
    fold_left
      (fun score keyword =>
         let score :=
           if includes lowerContent keyword then score + 1 else score in
         if includes (toLowerCase (Scan.file f)) keyword then score + 2
         else score)
      keywords 0 in
  {| file := f; score := score |}.

Definition toFileContent (f : Scan.ScannedFile) : FileContent :=
  {| path := Scan.path f; content := Scan.content f;
     extension := Scan.extension f |}.

(** The comparator [(a, b) => b.score - a.score]. *)
Definition byScore (a b : ScoredFile) : Z :=
  (Z.of_nat (score b) - Z.of_nat (score a))%Z.

(** Option 3: the scanned files that mention a key word, best first. *)
Definition relevantFiles (keywords : list string)
  (allFiles : list Scan.ScannedFile) : list FileContent :=
  let scoredFiles := map (scoreFile keywords) allFiles in
  map (fun sf => toFileContent (file sf))
    (firstn 5
       (JsArray.sort byScore
          (filter (fun sf => 0 <? score sf) scoredFiles))).

Definition nonEmpty (s : option string) : option string :=
  match s with
  | Some t => if String.eqb t "" then None else Some t
  | None => None
  end.

(** [findRelatedFiles(problem)] *)
Definition findRelatedFiles (fs : FileSystem) (problem : ProblemInput)
  : list FileContent :=
  match filePaths problem with
  | Some (filePath :: others) =>
      specifiedFiles fs (basePath problem) (filePath :: others)
  | _ =>
      let files :=
        match nonEmpty (errorLog problem) with
        | Some log => stackTraceFiles fs (basePath problem) log
        | None => []
        end in
      if 0 <? List.length files then files
      else
        let allFiles := Scan.scanRepository fs (basePath problem) in
        let keywords := keywordsOf (description problem) in
        let relevant := relevantFiles keywords allFiles in
        if 0 <? List.length relevant then relevant
        else map toFileContent (firstn 3 allFiles)
  end.

(** [readFiles(targetPath)] *)
Definition readFiles (fs : FileSystem) (targetPath : option string)
  : list FileContent :=
  let target :=
    match nonEmpty targetPath with
    | Some p => p
    | None => cwd fs
    end in
  map toFileContent (Scan.scanRepository fs target).


(** [args[index + 1]] when it is truthy: defined and not empty. *)
Definition argAfter (args : list string) (index : nat) : option string :=
  match nth_error args (S index) with
  | Some value => if String.eqb value "" then None else Some value
  | None => None
  end.

(** The loop that collects the arguments after [--files]: it stops at the
    first argument that starts with [--]. *)
Fixpoint untilFlag (args : list string) : list string :=
  match args with
  | [] => []
  | arg :: args' =>
      if startsWith arg "--" then [] else arg :: untilFlag args'
  end.

(** [readProblemFromArgs()], [args] being [process.argv.slice(2)] and [cwd]
    being [process.cwd()]; [None] is [null]. *)
Definition readProblemFromArgs (args : list string) (cwd : string)
  : option ProblemInput :=
  let errorIndex := indexOf "--error" args in
  let problemIndex := indexOf "--problem" args in
  let descIndex :=
    match errorIndex with
    | Some i => Some i
    | None => problemIndex
    end in
  match descIndex with
  | None => None
  | Some descIndex =>
      match argAfter args descIndex with
      | None => None
      | Some description =>
          let filePaths :=
            match indexOf "--files" args with
            | Some filesIndex => untilFlag (skipn (S filesIndex) args)
            | None => []
            end in
          let basePath :=
            match indexOf "--path" args with
            | Some pathIndex =>
                match argAfter args pathIndex with
                | Some p => p
                | None => cwd
                end
            | None => cwd
            end in
          Some {| description := description;
                  errorLog := Some description;
                  filePaths :=
                    if 0 <? List.length filePaths then Some filePaths
                    else None;
                  basePath := basePath |}
      end
  end.

(** [readProblemInteractive()], given the four answers typed at the
    prompts. *)
Definition readProblemInteractive (description errorLogAnswer filesAnswer
  pathAnswer : string) (cwd : string) : ProblemInput :=
  {| description := description;
     errorLog := nonEmpty (Some (trim errorLogAnswer));
     filePaths :=
       if String.eqb (trim filesAnswer) "" then None
       else Some (map trim (split "," filesAnswer));
     basePath :=
       match nonEmpty (Some (trim pathAnswer)) with
       | Some p => p
       | None => cwd
       end |}.

End Reader.

(** ** [agent/bugAnalyzer.ts] *)

Module BugAnalyzer.
Import JsString NodePath Regex Fs.

Record BugFile : Type := {
  path : string;
  content : string
}.

(** [/([a-zA-Z]:\\[^:]+\.(ts|js|tsx|jsx))|([\/][^:]+\.(ts|js|tsx|jsx))/g] *)
Definition filePattern : regex :=
  Alt
    (Group 1
       (Seqs [Char is_alpha; Lit ":"; Lit BACKSLASH;
              Plus true (Char (fun c => negb (Ascii.eqb c ":")));
              Lit "."; Reader.sourceSuffix 2]))
    (Group 3
       (Seqs [Lit SLASH;
              Plus true (Char (fun c => negb (Ascii.eqb c ":")));
              Lit "."; Reader.sourceSuffix 4])).

Definition loadInto (fs : FileSystem) (absolutePath : string)
  (files : list BugFile) : list BugFile :=
  if existsSync fs absolutePath then
    match readFileSync fs absolutePath with
    | Some content =>
        files ++ [{| path := absolutePath; content := content |}]
    | None => files
    end
  else files.

(** [selectRelevantFiles(errorLog, basePath)]; [basePath] defaults to the
    working directory. *)
Definition selectRelevantFiles (fs : FileSystem) (errorLog : string)
  (basePath : option string) : list BugFile :=
  let basePath :=
    match basePath with
    | Some p => p
    | None => cwd fs
    end in
  let matches := map m_text (match_all filePattern errorLog) in
  let uniquePaths := firstn 5 (unique matches) in
  fold_left
    (fun files filePath =>
       let absolutePath :=
         if isAbsolute filePath then filePath
         else join2 basePath filePath in
       loadInto fs absolutePath files)
    uniquePaths [].

(** [loadFiles(filePaths)] *)
Definition loadFiles (fs : FileSystem) (filePaths : list string)
  : list BugFile :=
  fold_left
    (fun files filePath => loadInto fs (resolve (cwd fs) filePath) files)
    (firstn 5 filePaths) [].

(** How a promise settles: resolved with a value, or rejected with an
    error, of which the message is kept. *)
Inductive settled (A : Type) : Type :=
| Resolved (value : A)
| Rejected (message : string).

Arguments Resolved {A} value.
Arguments Rejected {A} message.

Definition noFilesMessage : string :=
  "No files to analyze. Provide file paths or ensure error contains valid file references.".

(** [runBugAnalysis(errorLog, filePaths)].  [analyzeBug] is the call of
    the model in [llm/ollama.ts], which resolves with the analysis or
    rejects; [runBugAnalysis] awaits it outside any [try], so it settles
    as [analyzeBug] does. *)
Definition runBugAnalysis
  (analyzeBug : string -> list BugFile -> settled string)
  (fs : FileSystem) (errorLog : string) (filePaths : option (list string))
  : settled string :=
  let files :=
    match filePaths with
    | Some (filePath :: others) => loadFiles fs (filePath :: others)
    | _ => selectRelevantFiles fs errorLog None
    end in
  if List.length files =? 0 then Rejected noFilesMessage
  else analyzeBug errorLog files.

End BugAnalyzer.


(** ** Notions used to state the properties *)

Module Spec.
Import JsString NodePath Fs.

(** The elements of [xs] on which [f] succeeds, in the order of [xs]. *)
Definition keep {A B : Type} (f : A -> option B) (xs : list A) : list B :=
  flat_map (fun x => match f x with Some y => [y] | None => [] end) xs.

(** The path that [findRelatedFiles] and [selectRelevantFiles] look up for
    a path as given. *)
Definition absolutePathOf (basePath filePath : string) : string :=
  if isAbsolute filePath then filePath else join2 basePath filePath.

(** A path leads to a file that exists and can be read. *)
Definition loadable (fs : FileSystem) (absolutePath : string) : bool :=
  existsSync fs absolutePath &&
  match readFileSync fs absolutePath with Some _ => true | None => false end.

(** The record that loading one path yields, if any. *)
Definition loadFile (fs : FileSystem) (basePath filePath : string)
  : option Reader.FileContent :=
  let absolutePath := absolutePathOf basePath filePath in
  if existsSync fs absolutePath then
    match readFileSync fs absolutePath with
    | Some content =>
        Some {| Reader.path := absolutePath; Reader.content := content;
                Reader.extension := extname absolutePath |}
    | None => None
    end
  else None.

Definition loadBugFile (fs : FileSystem) (absolutePath : string)
  : option BugAnalyzer.BugFile :=
  if existsSync fs absolutePath then
    match readFileSync fs absolutePath with
    | Some content =>
        Some {| BugAnalyzer.path := absolutePath;
                BugAnalyzer.content := content |}
    | None => None
    end
  else None.

(** The explicit-path stage as the specification words it: keep the paths
    that exist on disk, then cap the result at 5. *)
Definition keepExistingThenCap (fs : FileSystem) (basePath : string)
  (filePaths : list string) : list Reader.FileContent :=
  firstn 5 (keep (loadFile fs basePath) filePaths).

(** The stack-trace stage of [findRelatedFiles] for a problem: nothing when
    there is no error log. *)
Definition traced (fs : FileSystem) (basePath : string)
  (errorLog : option string) : list Reader.FileContent :=
  match Reader.nonEmpty errorLog with
  | Some log => Reader.stackTraceFiles fs basePath log
  | None => []
  end.

(** The number of elements of [xs] that satisfy [p]. *)
Definition countIf {A : Type} (p : A -> bool) (xs : list A) : nat :=
  List.length (filter p xs).

(** The names that [resolveImport] tries for a module path, in order: the
    base name, the base name with each extension, [index] with each
    extension. *)
Definition candidates (modulePath : string) : list string :=
  let baseName := basename modulePath in
  baseName
    :: map (fun ext => (baseName ++ ext)%string) Dependency.extensions
    ++ map (fun ext => ("index" ++ ext)%string) Dependency.extensions.

(** The resolved relative imports of a file content, in order. *)
Definition dependenciesOf (fileNames : list string) (content : string)
  : list string :=
  keep
    (fun imp =>
       if Dependency.isRelative imp then
         Dependency.resolveImport (Dependency.module imp) fileNames
       else None)
    (Dependency.parseImports content).

(** The record that [parseImports] makes of one line, if any. *)
Definition lineImports (line : string) : list Dependency.ImportInfo :=
  Dependency.parseLine [] line.

(** A line is a comment line for [parseImports]. *)
Definition commentLine (line : string) : bool :=
  startsWith (trim line) "//" || startsWith (trim line) "*".

(** A regular file that a scan comes to: the names of the directories
    between the root of the scan and the file, the path of the file, its
    name and its content ([None] when it cannot be read). *)
Record Located : Type := {
  dirs : list string;
  location : string;
  fileName : string;
  fileData : option string
}.

(** The regular files of a tree of entries that are reached through
    directories that can be listed, in the order of the walk; those beneath
    ignored directories are included.  What lies beneath a directory that
    cannot be listed is left out, and so is what a symbolic link points
    to, though a look-up by path may find and read either. *)
Fixpoint filesOfEntry (dirPath : string) (above : list string) (e : entry)
  {struct e} : list Located :=
  match e with
  | File name data =>
      [{| dirs := above; location := join2 dirPath name; fileName := name;
          fileData := data |}]
  | Dir name true entries =>
      (fix each (es : list entry) : list Located :=
         match es with
         | [] => []
         | e' :: es' =>
             filesOfEntry (join2 dirPath name) (above ++ [name]) e'
             ++ each es'
         end) entries
  | Dir _ false _ => []
  | Link _ _ => []
  | Other _ => []
  end.

Definition filesOfListing (dirPath : string) (above : list string)
  (entries : list entry) : list Located :=
  flat_map (filesOfEntry dirPath above) entries.

(** The regular files that are reached from the root of a scan through
    directories that can be listed. *)
Definition filesBelow (fs : FileSystem) (rootPath : string) : list Located :=
  match readdir fs (resolve (cwd fs) rootPath) with
  | Some entries => filesOfListing (resolve (cwd fs) rootPath) [] entries
  | None => []
  end.

(** No directory above the file, up to the root of the scan, has an
    ignored name. *)
Definition notIgnored (l : Located) : bool :=
  forallb (fun name => negb (mem name Scan.IGNORED_DIRS)) (dirs l).

(** The extension of the file is in the allow-list as it is written. *)
Definition allowedAsWritten (l : Located) : bool :=
  mem (extname (fileName l)) Scan.SUPPORTED_EXTENSIONS.

(** The extension of the file is in the allow-list once lower-cased. *)
Definition allowed (l : Located) : bool :=
  mem (toLowerCase (extname (fileName l))) Scan.SUPPORTED_EXTENSIONS.

(** The file is one that the walk reads. *)
Definition matched (l : Located) : bool := allowed l && notIgnored l.

(** The record of a file that can be read. *)
Definition recordOf (l : Located) : option Scan.ScannedFile :=
  match fileData l with
  | Some content =>
      Some {| Scan.file := fileName l; Scan.path := location l;
              Scan.content := content;
              Scan.extension := toLowerCase (extname (fileName l)) |}
  | None => None
  end.

(** A record is the record of a file. *)
Definition recordsFile (r : Scan.ScannedFile) (l : Located) : Prop :=
  Scan.file r = fileName l /\ Scan.path r = location l /\
  Some (Scan.content r) = fileData l /\
  Scan.extension r = toLowerCase (extname (fileName l)).

(** [a] may stand before [b] in the ranking. *)
Definition ranksBefore (a b : Reader.ScoredFile) : Prop :=
  Reader.score b <= Reader.score a.

(** The score of a scored file is [n]. *)
Definition hasScore (n : nat) (sf : Reader.ScoredFile) : bool :=
  Reader.score sf =? n.

(** The state of the loop of [buildDependencyMap]. *)
Definition mapFiles (fileNames : list string)
  (files : list Scan.ScannedFile) (dependencyMap : Dependency.DependencyMap)
  : Dependency.DependencyMap :=
  fold_left
    (fun dependencyMap f =>
       Dependency.setProperty (Scan.file f)
         (dependenciesOf fileNames (Scan.content f)) dependencyMap)
    files dependencyMap.

(** The file system answers by path what the tree holds for an entry of
    the directory [dirPath] and for all that lies beneath it. *)
Fixpoint coherent (fs : FileSystem) (dirPath : string) (e : entry)
  {struct e} : Prop :=
  match e with
  | File name data => readFileSync fs (join2 dirPath name) = data
  | Dir name true entries =>
      readdir fs (join2 dirPath name) = Some entries /\
      (fix all (es : list entry) : Prop :=
         match es with
         | [] => True
         | e' :: es' => coherent fs (join2 dirPath name) e' /\ all es'
         end) entries
  | Dir name false _ => readdir fs (join2 dirPath name) = None
  | Link _ _ => True
  | Other _ => True
  end.

(** The number of directory levels at and below an entry. *)
Fixpoint depth (e : entry) : nat :=
  match e with
  | Dir _ true entries =>
      S ((fix deepest (es : list entry) : nat :=
            match es with
            | [] => 0
            | e' :: es' => Nat.max (depth e') (deepest es')
            end) entries)
  | Dir _ false _ => 1
  | _ => 0
  end.


(** An entry that the walk passes over: a file with an extension outside
    the allow-list or that cannot be read, a directory that is ignored or
    cannot be listed, and anything that is neither, a symbolic link
    included. *)
Definition passedOver (e : entry) : bool :=
  match e with
  | File name data =>
      negb (mem (toLowerCase (extname name)) Scan.SUPPORTED_EXTENSIONS)
      || match data with Some _ => false | None => true end
  | Dir name listable _ => mem name Scan.IGNORED_DIRS || negb listable
  | Link _ _ => true
  | Other _ => true
  end.

(** The count that a summary holds for an extension; [0] when it has
    none. *)
Fixpoint countFor (ext : string) (summary : list (string * nat)) : nat :=
  match summary with
  | [] => 0
  | (k, n) :: summary' =>
      if String.eqb k ext then n else countFor ext summary'
  end.

(** The characters of a string. *)
Definition chars (s : string) : list ascii := list_ascii_of_string s.

(** A property key that a JavaScript object lists in the order of first
    assignment.  A key made of decimal digits only may be an array index,
    which [Object.entries] lists first and in ascending order, and an
    assignment to [__proto__] sets the prototype and makes no entry; every
    other string key is ordinary. *)
Definition ordinaryKey (key : string) : bool :=
  negb (forallb is_digit (chars key)) && negb (String.eqb key "__proto__").

(** The name carries an extension of the allow-list, as the name of every
    scanned file does. *)
Definition scannable (f : Scan.ScannedFile) : Prop :=
  In (toLowerCase (extname (Scan.file f))) Scan.SUPPORTED_EXTENSIONS.

(** The suffixes of the paths that the stack-trace patterns capture. *)
Definition sourceSuffixes : list string := [".ts"; ".js"; ".tsx"; ".jsx"].

(** [s] ends with one of the suffixes. *)
Definition endsWithOneOf (suffixes : list string) (s : string) : Prop :=
  exists front suffix, In suffix suffixes /\ s = (front ++ suffix)%string.

(** The strings of a pattern end with a dot and a source suffix. *)
Definition endsInSource (r : Regex.regex) : Prop :=
  forall w, Regex.Lang r w -> endsWithOneOf sourceSuffixes w.

End Spec.

(** ** Sample projects *)

Module Sample.
Import JsString NodePath Fs.

Definition lines (ls : list string) : string := join (String LF "") ls.

(** The project [/proj] with the two sources [a.ts] and [b.ts]. *)
Definition project : FileSystem :=
  {| cwd := "/proj";
     tree :=
       [Dir "proj" true
          [File "a.ts" (Some "export const a = 1");
           File "b.ts" (Some "export function handler() {}")]] |}.

Definition aFile : Reader.FileContent :=
  {| Reader.path := "/proj/a.ts"; Reader.content := "export const a = 1";
     Reader.extension := ".ts" |}.

Definition bFile : Reader.FileContent :=
  {| Reader.path := "/proj/b.ts";
     Reader.content := "export function handler() {}";
     Reader.extension := ".ts" |}.

(** Six paths that lead nowhere, then one that exists. *)
Definition sixMissingThenOne : list string :=
  ["m1.ts"; "m2.ts"; "m3.ts"; "m4.ts"; "m5.ts"; "m6.ts"; "a.ts"].

(** A stack trace whose sixth frame is the only one in an existing file. *)
Definition deepTrace : string :=
  lines ["Error: boom";
         "    at f1 (/proj/m1.ts:1:1)";
         "    at f2 (/proj/m2.ts:2:1)";
         "    at f3 (/proj/m3.ts:3:1)";
         "    at f4 (/proj/m4.ts:4:1)";
         "    at f5 (/proj/m5.ts:5:1)";
         "    at f6 (/proj/a.ts:6:1)"].

(** A stack trace with one frame, in an existing file. *)
Definition shortTrace : string :=
  lines ["Error: boom"; "    at run (/proj/a.ts:1:14)"].

Definition deepProblem : Reader.ProblemInput :=
  {| Reader.description := "the handler crashes";
     Reader.errorLog := Some deepTrace;
     Reader.filePaths := None;
     Reader.basePath := "/proj" |}.

Definition shortProblem : Reader.ProblemInput :=
  {| Reader.description := "the handler crashes";
     Reader.errorLog := Some shortTrace;
     Reader.filePaths := None;
     Reader.basePath := "/proj" |}.

Definition missingFileProblem : Reader.ProblemInput :=
  {| Reader.description := "the handler crashes";
     Reader.errorLog := Some shortTrace;
     Reader.filePaths := Some ["missing.ts"];
     Reader.basePath := "/proj" |}.

(** An explicit path that exists, with a stack trace that names another
    file. *)
Definition presentFileProblem : Reader.ProblemInput :=
  {| Reader.description := "the handler crashes";
     Reader.errorLog := Some shortTrace;
     Reader.filePaths := Some ["b.ts"];
     Reader.basePath := "/proj" |}.

Definition sevenPathsProblem : Reader.ProblemInput :=
  {| Reader.description := "the handler crashes";
     Reader.errorLog := None;
     Reader.filePaths := Some sixMissingThenOne;
     Reader.basePath := "/proj" |}.

(** The project of the dependency scenario: [utils/helper.ts] imports
    [./shared], and [shared.ts] is in the same scan. *)
Definition helperProject : FileSystem :=
  {| cwd := "/work";
     tree :=
       [Dir "work" true
          [File "shared.ts" (Some "export const x = 1");
           Dir "utils" true
             [File "helper.ts" (Some "import { x } from './shared'")]]] |}.

(** A JSDoc comment that mentions an import and a require. *)
Definition docComment : string :=
  lines ["/**";
         " * import a from './a'";
         " * const c = require('./c')";
         " */";
         "// import d from './d'"].

(** A block comment whose inner line starts with [import]. *)
Definition blockComment : string :=
  lines ["/*"; "import b from './b'"; "*/"].

(** A project whose only source has an upper-case extension. *)
Definition shoutingProject : FileSystem :=
  {| cwd := "/app";
     tree := [Dir "app" true [File "Main.TS" (Some "let main = 0")]] |}.

(** The entries of the directory [/app] of [mixedProject]: ignored
    directories, a file that is not a source, sources whose extensions
    vary in case, a directory that cannot be listed above a readable
    source, a symbolic link to a source, and a socket. *)
Definition mixedEntries : list entry :=
  [File "index.Js" (Some "start()");
   File "notes.md" (Some "notes");
   Dir "node_modules" true [Dir "pkg" true [File "lib.js" (Some "lib")]];
   Dir "src" true
     [File "data.JSON" (Some "{}");
      Dir "dist" true [File "out.js" (Some "out")];
      File "view.html" (Some "<p>")];
   Dir "peek" false [File "c.ts" (Some "let c = 0")];
   Link "link.ts" "src/../index.Js";
   Other "events.sock"].

Definition mixedProject : FileSystem :=
  {| cwd := "/app"; tree := [Dir "app" true mixedEntries] |}.

End Sample.

(** ** Properties *)

Import JsString NodePath Fs Spec.

(** *** Loops that push *)

Lemma keep_app : forall (A B : Type) (f : A -> option B) xs ys,
  keep f (xs ++ ys) = keep f xs ++ keep f ys.
Proof.
  intros. unfold keep. now rewrite flat_map_app.
Qed.

Lemma keep_length : forall (A B : Type) (f : A -> option B) xs,
  List.length (keep f xs) <= List.length xs.
Proof.
  induction xs as [|x xs IH]; simpl; [lia|].
  destruct (f x); simpl; lia.
Qed.

Lemma keep_all_length : forall (A B : Type) (f : A -> option B) xs,
  List.length (keep f xs) = List.length xs <->
  (forall x, In x xs -> f x <> None).
Proof.
  induction xs as [|x xs IH]; simpl.
  - split; [intros _ y []|reflexivity].
  - pose proof (keep_length f xs) as Hle.
    destruct (f x) eqn:Hx; simpl.
    + split.
      * intros Hlen y [<-|Hy]; [congruence|].
        apply IH; [lia|assumption].
      * intros Hall. f_equal. apply IH. intros y Hy. apply Hall. now right.
    + split; [intros Hlen; exfalso; unfold keep in *; lia|].
      intros Hall. exfalso. apply (Hall x); [now left|assumption].
Qed.

Lemma keep_nil : forall (A B : Type) (f : A -> option B) xs,
  keep f xs = [] <-> (forall x, In x xs -> f x = None).
Proof.
  induction xs as [|x xs IH]; simpl.
  - split; [intros _ y []|reflexivity].
  - destruct (f x) eqn:Hx; simpl.
    + split; [discriminate|].
      intros Hall. specialize (Hall x (or_introl eq_refl)). congruence.
    + rewrite IH. split.
      * intros Hall y [<-|Hy]; auto.
      * intros Hall y Hy. apply Hall. now right.
Qed.

Lemma keep_map_filter : forall (A B C : Type) (f : A -> option B)
  (g : B -> C) (h : A -> C) (p : A -> bool) xs,
  (forall x y, f x = Some y -> p x = true /\ g y = h x) ->
  (forall x, f x = None -> p x = false) ->
  map g (keep f xs) = map h (filter p xs).
Proof.
  intros A B C f g h p xs Hsome Hnone.
  induction xs as [|x xs IH]; simpl; [reflexivity|].
  destruct (f x) eqn:Hx.
  - destruct (Hsome _ _ Hx) as [Hp Hg]. rewrite Hp. simpl.
    now rewrite IH, Hg.
  - rewrite (Hnone _ Hx). exact IH.
Qed.

(** A loop whose body pushes at most one element computes [keep]. *)
Lemma fold_left_push : forall (A B : Type) (f : A -> option B)
  (body : list B -> A -> list B),
  (forall acc x,
     body acc x = acc ++ match f x with Some y => [y] | None => [] end) ->
  forall xs acc, fold_left body xs acc = acc ++ keep f xs.
Proof.
  intros A B f body Hbody.
  induction xs as [|x xs IH]; intros acc; simpl.
  - now rewrite app_nil_r.
  - rewrite IH, Hbody, <- app_assoc. reflexivity.
Qed.

Lemma loadInto_push : forall fs basePath files filePath,
  Reader.loadInto fs basePath files filePath =
  files ++ match loadFile fs basePath filePath with
           | Some f => [f]
           | None => []
           end.
Proof.
  intros. unfold Reader.loadInto, loadFile, absolutePathOf.
  destruct (existsSync fs _); [|now rewrite app_nil_r].
  destruct (readFileSync fs _); [reflexivity|now rewrite app_nil_r].
Qed.

Lemma bug_loadInto_push : forall fs absolutePath files,
  BugAnalyzer.loadInto fs absolutePath files =
  files ++ match loadBugFile fs absolutePath with
           | Some f => [f]
           | None => []
           end.
Proof.
  intros. unfold BugAnalyzer.loadInto, loadBugFile.
  destruct (existsSync fs _); [|now rewrite app_nil_r].
  destruct (readFileSync fs _); [reflexivity|now rewrite app_nil_r].
Qed.

Lemma specifiedFiles_keep : forall fs basePath filePaths,
  Reader.specifiedFiles fs basePath filePaths =
  keep (loadFile fs basePath) (firstn 5 filePaths).
Proof.
  intros. unfold Reader.specifiedFiles.
  now rewrite (fold_left_push (loadFile fs basePath)
                 (Reader.loadInto fs basePath) (loadInto_push fs basePath)).
Qed.

Lemma stackTraceFiles_keep : forall fs basePath errorLog,
  Reader.stackTraceFiles fs basePath errorLog =
  keep (loadFile fs basePath)
    (firstn 5 (Reader.extractFilesFromError errorLog)).
Proof.
  intros. unfold Reader.stackTraceFiles.
  now rewrite (fold_left_push (loadFile fs basePath)
                 (Reader.loadInto fs basePath) (loadInto_push fs basePath)).
Qed.

Lemma loadFiles_keep : forall fs filePaths,
  BugAnalyzer.loadFiles fs filePaths =
  keep (fun filePath => loadBugFile fs (resolve (cwd fs) filePath))
    (firstn 5 filePaths).
Proof.
  intros. unfold BugAnalyzer.loadFiles.
  rewrite (fold_left_push
             (fun filePath => loadBugFile fs (resolve (cwd fs) filePath))).
  - reflexivity.
  - intros. apply bug_loadInto_push.
Qed.

Lemma selectRelevantFiles_keep : forall fs errorLog basePath,
  BugAnalyzer.selectRelevantFiles fs errorLog basePath =
  keep (fun filePath =>
          loadBugFile fs
            (absolutePathOf
               (match basePath with Some p => p | None => cwd fs end)
               filePath))
    (firstn 5
       (unique (map Regex.m_text
                  (Regex.match_all BugAnalyzer.filePattern errorLog)))).
Proof.
  intros. unfold BugAnalyzer.selectRelevantFiles.
  rewrite (fold_left_push
             (fun filePath =>
                loadBugFile fs
                  (absolutePathOf
                     (match basePath with Some p => p | None => cwd fs end)
                     filePath))).
  - reflexivity.
  - intros. apply bug_loadInto_push.
Qed.

Lemma firstn_at_most : forall (A : Type) n (xs : list A),
  List.length (firstn n xs) <= n.
Proof.
  intros. rewrite length_firstn. lia.
Qed.

Lemma keep_firstn_at_most : forall (A B : Type) (f : A -> option B) n xs,
  List.length (keep f (firstn n xs)) <= n.
Proof.
  intros. pose proof (keep_length f (firstn n xs)).
  pose proof (firstn_at_most n xs). lia.
Qed.

Lemma relevantFiles_at_most : forall keywords allFiles,
  List.length (Reader.relevantFiles keywords allFiles) <= 5.
Proof.
  intros. unfold Reader.relevantFiles. rewrite length_map.
  apply firstn_at_most.
Qed.

Lemma fallback_at_most : forall allFiles : list Scan.ScannedFile,
  List.length (map Reader.toFileContent (firstn 3 allFiles)) <= 3.
Proof.
  intros. rewrite length_map. apply firstn_at_most.
Qed.

(** *** The cap of 5 *)

(** C2: whatever the problem and the file system, [findRelatedFiles]
    returns at most 5 files, and so does each stage of its cascade: the
    specified files, the files of the stack trace, the files ranked by key
    word, and the fallback, which returns at most 3; [selectRelevantFiles]
    and [loadFiles] of the bug analyzer return at most 5 files too. *)
Theorem selection_is_capped : forall fs problem basePath filePaths errorLog
  keywords allFiles optBase,
  List.length (Reader.findRelatedFiles fs problem) <= 5 /\
  List.length (Reader.specifiedFiles fs basePath filePaths) <= 5 /\
  List.length (Reader.stackTraceFiles fs basePath errorLog) <= 5 /\
  List.length (Reader.relevantFiles keywords allFiles) <= 5 /\
  List.length (map Reader.toFileContent (firstn 3 allFiles)) <= 3 /\
  List.length (BugAnalyzer.selectRelevantFiles fs errorLog optBase) <= 5 /\
  List.length (BugAnalyzer.loadFiles fs filePaths) <= 5.
Proof.
  intros.
  assert (Hspec : forall b ps,
            List.length (Reader.specifiedFiles fs b ps) <= 5).
  { intros. rewrite specifiedFiles_keep. apply keep_firstn_at_most. }
  assert (Htrace : forall b log,
            List.length (Reader.stackTraceFiles fs b log) <= 5).
  { intros. rewrite stackTraceFiles_keep. apply keep_firstn_at_most. }
  repeat split; auto using relevantFiles_at_most.
  - unfold Reader.findRelatedFiles.
    assert (Hrest :
      List.length
        (let files :=
           match Reader.nonEmpty (Reader.errorLog problem) with
           | Some log => Reader.stackTraceFiles fs (Reader.basePath problem) log
           | None => []
           end in
         if 0 <? List.length files then files
         else
           let allFiles :=
             Scan.scanRepository fs (Reader.basePath problem) in
           let keywords := Reader.keywordsOf (Reader.description problem) in
           let relevant := Reader.relevantFiles keywords allFiles in
           if 0 <? List.length relevant then relevant
           else map Reader.toFileContent (firstn 3 allFiles)) <= 5).
    { cbv zeta.
      destruct (0 <? List.length _) eqn:Hfiles.
      - destruct (Reader.nonEmpty _); [apply Htrace|simpl; lia].
      - destruct (0 <? List.length (Reader.relevantFiles _ _)).
        + apply relevantFiles_at_most.
        + pose proof (fallback_at_most
                        (Scan.scanRepository fs (Reader.basePath problem))).
          lia. }
    destruct (Reader.filePaths problem) as [[|p ps]|]; auto.
  - pose proof (fallback_at_most allFiles). lia.
  - rewrite selectRelevantFiles_keep. apply keep_firstn_at_most.
  - rewrite loadFiles_keep. apply keep_firstn_at_most.
Qed.

(** *** Cap first, then keep *)

Lemma loadFile_loadable : forall fs basePath filePath,
  loadable fs (absolutePathOf basePath filePath) = true <->
  loadFile fs basePath filePath <> None.
Proof.
  intros. unfold loadable, loadFile.
  destruct (existsSync fs _); simpl; [|split; [discriminate|congruence]].
  destruct (readFileSync fs _); split; congruence.
Qed.

Lemma loadFile_path : forall fs basePath filePath f,
  loadFile fs basePath filePath = Some f ->
  Reader.path f = absolutePathOf basePath filePath /\
  readFileSync fs (Reader.path f) = Some (Reader.content f) /\
  Reader.extension f = extname (Reader.path f).
Proof.
  intros fs basePath filePath f. unfold loadFile.
  destruct (existsSync fs _); [|discriminate].
  destruct (readFileSync fs _) eqn:Hread; [|discriminate].
  intros [= <-]. simpl. auto.
Qed.

Lemma keep_loadFile_paths : forall fs basePath filePaths,
  map Reader.path (keep (loadFile fs basePath) filePaths) =
  filter (loadable fs) (map (absolutePathOf basePath) filePaths).
Proof.
  intros. induction filePaths as [|p ps IH]; simpl; [reflexivity|].
  destruct (loadFile fs basePath p) eqn:Hload.
  - destruct (loadFile_path _ _ _ Hload) as [Hpath _].
    assert (Hok : loadable fs (absolutePathOf basePath p) = true)
      by (apply loadFile_loadable; congruence).
    rewrite Hok. simpl. now rewrite IH, Hpath.
  - destruct (loadable fs (absolutePathOf basePath p)) eqn:Hok; [|exact IH].
    apply loadFile_loadable in Hok. contradiction.
Qed.

Lemma keep_loadFile_read : forall fs basePath filePaths,
  Forall (fun f => readFileSync fs (Reader.path f) = Some (Reader.content f)
                   /\ Reader.extension f = extname (Reader.path f))
    (keep (loadFile fs basePath) filePaths).
Proof.
  intros. induction filePaths as [|p ps IH]; simpl; [constructor|].
  destruct (loadFile fs basePath p) eqn:Hload; [|exact IH].
  constructor; [|exact IH]. now destruct (loadFile_path _ _ _ Hload).
Qed.

Lemma keep_five : forall (A B : Type) (f : A -> option B) xs,
  List.length (keep f (firstn 5 xs)) = 5 <->
  5 <= List.length xs /\ (forall x, In x (firstn 5 xs) -> f x <> None).
Proof.
  intros. pose proof (keep_length f (firstn 5 xs)) as Hle.
  pose proof (length_firstn 5 xs) as Hlen. split.
  - intros H5. split; [lia|]. apply keep_all_length. lia.
  - intros [Hlong Hall]. apply keep_all_length in Hall. lia.
Qed.

Lemma keep_loadBugFile_paths : forall fs (toAbsolute : string -> string)
  filePaths,
  map BugAnalyzer.path
    (keep (fun filePath => loadBugFile fs (toAbsolute filePath)) filePaths) =
  filter (loadable fs) (map toAbsolute filePaths).
Proof.
  intros. induction filePaths as [|p ps IH]; simpl; [reflexivity|].
  unfold loadBugFile at 1, loadable at 1.
  destruct (existsSync fs (toAbsolute p)); simpl; [|exact IH].
  destruct (readFileSync fs (toAbsolute p)); simpl; [|exact IH].
  now rewrite IH.
Qed.

(** C3, as the code has it: the explicit-path stage and the stack-trace
    stage of [findRelatedFiles], and [loadFiles], first cap the list of
    paths at its first 5 entries and then keep the entries that exist on
    disk and can be read.  The files returned are those of the first 5
    paths that are loadable, in input order, each with the content read
    from its path; a path after the fifth is never looked up; and exactly 5
    files are returned if and only if the list has at least 5 paths and the
    first 5 are all loadable. *)
Theorem selector_caps_then_keeps : forall fs basePath filePaths errorLog,
  let extracted := Reader.extractFilesFromError errorLog in
  (map Reader.path (Reader.specifiedFiles fs basePath filePaths) =
     filter (loadable fs)
       (map (absolutePathOf basePath) (firstn 5 filePaths)) /\
   map Reader.path (Reader.stackTraceFiles fs basePath errorLog) =
     filter (loadable fs)
       (map (absolutePathOf basePath) (firstn 5 extracted)) /\
   map BugAnalyzer.path (BugAnalyzer.loadFiles fs filePaths) =
     filter (loadable fs) (map (resolve (cwd fs)) (firstn 5 filePaths))) /\
  (Forall (fun f => readFileSync fs (Reader.path f) = Some (Reader.content f))
     (Reader.specifiedFiles fs basePath filePaths) /\
   Forall (fun f => readFileSync fs (Reader.path f) = Some (Reader.content f))
     (Reader.stackTraceFiles fs basePath errorLog)) /\
  (Reader.specifiedFiles fs basePath filePaths =
     Reader.specifiedFiles fs basePath (firstn 5 filePaths) /\
   BugAnalyzer.loadFiles fs filePaths =
     BugAnalyzer.loadFiles fs (firstn 5 filePaths)) /\
  (List.length (Reader.specifiedFiles fs basePath filePaths) = 5 <->
     5 <= List.length filePaths /\
     forall p, In p (firstn 5 filePaths) ->
               loadable fs (absolutePathOf basePath p) = true) /\
  (List.length (Reader.stackTraceFiles fs basePath errorLog) = 5 <->
     5 <= List.length extracted /\
     forall p, In p (firstn 5 extracted) ->
               loadable fs (absolutePathOf basePath p) = true).
Proof.
  intros. subst extracted.
  rewrite !specifiedFiles_keep, !stackTraceFiles_keep, !loadFiles_keep.
  assert (Hfive : forall ps,
    List.length (keep (loadFile fs basePath) (firstn 5 ps)) = 5 <->
    5 <= List.length ps /\
    forall p, In p (firstn 5 ps) ->
              loadable fs (absolutePathOf basePath p) = true).
  { intros ps. rewrite keep_five. split; intros [Hlong Hall].
    - split; [assumption|]. intros p Hp. apply loadFile_loadable. auto.
    - split; [assumption|]. intros p Hp. apply loadFile_loadable. auto. }
  split; [|split; [|split; [|split]]].
  - split; [|split].
    + apply keep_loadFile_paths.
    + apply keep_loadFile_paths.
    + apply keep_loadBugFile_paths.
  - split.
    + eapply Forall_impl; [|apply keep_loadFile_read]. now intros f [H _].
    + eapply Forall_impl; [|apply keep_loadFile_read]. now intros f [H _].
  - rewrite !firstn_firstn. split; reflexivity.
  - apply Hfive.
  - apply Hfive.
Qed.

(** C3 fails as stated: of seven explicit paths the seventh exists and no
    existing path precedes it, so keeping the existing paths and then
    capping at 5 would return it; [findRelatedFiles] returns nothing, and
    so does [loadFiles]. *)
Lemma seventh_path_is_dropped :
  existsSync Sample.project "/proj/a.ts" = true /\
  Reader.filePaths Sample.sevenPathsProblem = Some Sample.sixMissingThenOne /\
  keepExistingThenCap Sample.project "/proj" Sample.sixMissingThenOne =
    [Sample.aFile] /\
  Reader.findRelatedFiles Sample.project Sample.sevenPathsProblem = [] /\
  BugAnalyzer.loadFiles Sample.project Sample.sixMissingThenOne = [].
Proof.
  repeat split; vm_compute; reflexivity.
Qed.

(** *** Explicit paths are final *)

(** C4, as the code has it: for every problem whose list of explicit paths
    is not empty, [findRelatedFiles] returns the result of the explicit-path
    stage whatever it is, so the description and the error log have no
    effect on the result; that result is empty exactly when none of the
    first 5 paths is loadable, and then too neither the stack trace nor the
    key words are consulted. *)
Theorem explicit_paths_never_fall_through :
  forall fs description errorLog filePath others basePath,
  let problem :=
    {| Reader.description := description; Reader.errorLog := errorLog;
       Reader.filePaths := Some (filePath :: others);
       Reader.basePath := basePath |} in
  Reader.findRelatedFiles fs problem =
    Reader.specifiedFiles fs basePath (filePath :: others) /\
  (forall description' errorLog',
     Reader.findRelatedFiles fs
       {| Reader.description := description'; Reader.errorLog := errorLog';
          Reader.filePaths := Some (filePath :: others);
          Reader.basePath := basePath |} =
     Reader.findRelatedFiles fs problem) /\
  (Reader.findRelatedFiles fs problem = [] <->
   forall p, In p (firstn 5 (filePath :: others)) ->
             loadable fs (absolutePathOf basePath p) = false).
Proof.
  intros fs description errorLog filePath others basePath problem.
  assert (Hstage : Reader.findRelatedFiles fs problem =
                   Reader.specifiedFiles fs basePath (filePath :: others))
    by reflexivity.
  split; [exact Hstage|]. split; [reflexivity|].
  rewrite Hstage, specifiedFiles_keep, keep_nil.
  split; intros Hnone p Hp; specialize (Hnone p Hp).
  - destruct (loadable fs (absolutePathOf basePath p)) eqn:Hok;
      [|reflexivity].
    apply loadFile_loadable in Hok. contradiction.
  - destruct (loadFile fs basePath p) eqn:Hload; [|reflexivity].
    assert (Hok : loadable fs (absolutePathOf basePath p) = true)
      by (apply loadFile_loadable; congruence).
    congruence.
Qed.

Lemma explicit_paths_never_fall_through_witness :
  Reader.findRelatedFiles Sample.project Sample.presentFileProblem =
    [Sample.bFile] /\
  Reader.stackTraceFiles Sample.project "/proj" Sample.shortTrace =
    [Sample.aFile] /\
  Reader.findRelatedFiles Sample.project Sample.missingFileProblem = [].
Proof.
  split; [|split].
  - etransitivity.
    + exact (proj1 (@explicit_paths_never_fall_through Sample.project
                      "the handler crashes" (Some Sample.shortTrace) "b.ts"
                      [] "/proj")).
    + vm_compute. reflexivity.
  - vm_compute. reflexivity.
  - apply (@explicit_paths_never_fall_through Sample.project
             "the handler crashes" (Some Sample.shortTrace) "missing.ts" []
             "/proj").
    intros p [<-|[]]. vm_compute. reflexivity.
Defined.

(** C4 fails as stated: the only explicit path does not exist and the stack
    trace names an existing file, which the stack-trace stage would load,
    yet [findRelatedFiles] returns the empty result of the explicit-path
    stage. *)
Lemma missing_explicit_path_ends_the_cascade :
  Reader.filePaths Sample.missingFileProblem = Some ["missing.ts"] /\
  Reader.specifiedFiles Sample.project "/proj" ["missing.ts"] = [] /\
  Reader.stackTraceFiles Sample.project "/proj" Sample.shortTrace =
    [Sample.aFile] /\
  Reader.findRelatedFiles Sample.project Sample.missingFileProblem = [].
Proof.
  repeat split; vm_compute; reflexivity.
Qed.

(** [runBugAnalysis] gives explicit paths the same precedence: when some
    are supplied and none can be loaded it throws for want of files, though
    the error log names a file that [selectRelevantFiles] would load and
    that is passed to [analyzeBug] when no path is supplied. *)
Lemma bug_analysis_keeps_to_explicit_paths : forall analyzeBug,
  BugAnalyzer.runBugAnalysis analyzeBug Sample.project Sample.shortTrace
    (Some ["missing.ts"]) =
    BugAnalyzer.Rejected BugAnalyzer.noFilesMessage /\
  BugAnalyzer.runBugAnalysis analyzeBug Sample.project Sample.shortTrace
    None =
    analyzeBug Sample.shortTrace
      [{| BugAnalyzer.path := "/proj/a.ts";
          BugAnalyzer.content := "export const a = 1" |}].
Proof.
  intros analyzeBug. split; vm_compute; reflexivity.
Qed.

(** *** Ranking by key words *)

Lemma insert_perm : forall (A : Type) (compare : A -> A -> Z) x xs,
  Permutation (JsArray.insert compare x xs) (x :: xs).
Proof.
  intros A compare x xs. induction xs as [|y ys IH]; simpl.
  - apply Permutation_refl.
  - destruct (compare x y <=? 0)%Z.
    + apply Permutation_refl.
    + eapply Permutation_trans; [apply perm_skip, IH|apply perm_swap].
Qed.

Lemma sort_perm : forall (A : Type) (compare : A -> A -> Z) xs,
  Permutation (JsArray.sort compare xs) xs.
Proof.
  intros A compare xs. induction xs as [|x xs IH]; simpl.
  - apply perm_nil.
  - eapply Permutation_trans; [apply insert_perm|now apply perm_skip].
Qed.

Lemma sort_length : forall (A : Type) (compare : A -> A -> Z) xs,
  List.length (JsArray.sort compare xs) = List.length xs.
Proof.
  intros. apply Permutation_length, sort_perm.
Qed.

Lemma byScore_le : forall a b,
  (Reader.byScore a b <=? 0)%Z = (Reader.score b <=? Reader.score a).
Proof.
  intros. unfold Reader.byScore.
  destruct (Reader.score b <=? Reader.score a) eqn:H.
  - apply Nat.leb_le in H. apply Z.leb_le. lia.
  - apply Nat.leb_gt in H. apply Z.leb_gt. lia.
Qed.

Lemma insert_ranked : forall x xs,
  StronglySorted ranksBefore xs ->
  StronglySorted ranksBefore (JsArray.insert Reader.byScore x xs).
Proof.
  intros x xs Hs. induction Hs as [|y ys Hys IH Hy]; simpl.
  - repeat constructor.
  - rewrite byScore_le. destruct (Reader.score y <=? Reader.score x) eqn:Hle.
    + apply Nat.leb_le in Hle. constructor; [now constructor|].
      constructor; [exact Hle|].
      eapply Forall_impl; [|exact Hy]. unfold ranksBefore. intros; lia.
    + apply Nat.leb_gt in Hle. constructor; [exact IH|].
      apply (Permutation_Forall (Permutation_sym (insert_perm _ x ys))).
      constructor; [unfold ranksBefore; lia|exact Hy].
Qed.

Lemma sort_ranked : forall xs,
  StronglySorted ranksBefore (JsArray.sort Reader.byScore xs).
Proof.
  induction xs as [|x xs IH]; simpl; [constructor|now apply insert_ranked].
Qed.

Lemma insert_stable : forall n x xs,
  filter (hasScore n) (JsArray.insert Reader.byScore x xs) =
  filter (hasScore n) (x :: xs).
Proof.
  intros n x xs. induction xs as [|y ys IH]; [reflexivity|].
  cbn [JsArray.insert]. rewrite byScore_le.
  destruct (Reader.score y <=? Reader.score x) eqn:Hle; [reflexivity|].
  apply Nat.leb_gt in Hle.
  cbn [filter] in *. rewrite IH. unfold hasScore.
  destruct (Reader.score x =? n) eqn:Hx; [|reflexivity].
  apply Nat.eqb_eq in Hx.
  assert (Hy : (Reader.score y =? n) = false) by (apply Nat.eqb_neq; lia).
  now rewrite Hy.
Qed.

Lemma sort_stable : forall n xs,
  filter (hasScore n) (JsArray.sort Reader.byScore xs) =
  filter (hasScore n) xs.
Proof.
  intros n xs. induction xs as [|x xs IH]; [reflexivity|].
  cbn [JsArray.sort]. rewrite insert_stable. cbn [filter]. now rewrite IH.
Qed.

Lemma filter_positive_score : forall n scored,
  0 < n ->
  filter (hasScore n) (filter (fun sf => 0 <? Reader.score sf) scored) =
  filter (hasScore n) scored.
Proof.
  intros n scored Hn. induction scored as [|sf rest IH]; [reflexivity|].
  cbn [filter]. destruct (0 <? Reader.score sf) eqn:Hpos.
  - cbn [filter]. now rewrite IH.
  - apply Nat.ltb_ge in Hpos.
    assert (Hne : hasScore n sf = false)
      by (apply Nat.eqb_neq; lia).
    now rewrite Hne.
Qed.

Lemma score_counts : forall keywords f,
  Reader.score (Reader.scoreFile keywords f) =
  countIf (includes (toLowerCase (Scan.content f))) keywords +
  2 * countIf (includes (toLowerCase (Scan.file f))) keywords.
Proof.
  intros keywords f. unfold Reader.scoreFile, countIf. cbn [Reader.score].
  set (inContent := includes (toLowerCase (Scan.content f))).
  set (inName := includes (toLowerCase (Scan.file f))).
  assert (Hgen : forall ks start,
    fold_left
      (fun score keyword =>
         let score := if inContent keyword then score + 1 else score in
         if inName keyword then score + 2 else score) ks start =
    start + (List.length (filter inContent ks) +
             2 * List.length (filter inName ks))).
  { induction ks as [|k ks IH]; intros start; cbn [fold_left filter].
    - simpl. lia.
    - rewrite IH. destruct (inContent k), (inName k); simpl; lia. }
  now rewrite Hgen.
Qed.

Lemma relevantFiles_nil : forall keywords allFiles,
  Reader.relevantFiles keywords allFiles = [] <->
  (forall f, In f allFiles ->
             Reader.score (Reader.scoreFile keywords f) = 0).
Proof.
  intros keywords allFiles. unfold Reader.relevantFiles.
  set (kept := filter _ _).
  assert (Hkept : kept = [] <->
                  forall f, In f allFiles ->
                            Reader.score (Reader.scoreFile keywords f) = 0).
  { subst kept. split.
    - intros Hnil f Hf.
      destruct (Reader.score (Reader.scoreFile keywords f)) eqn:Hs;
        [reflexivity|].
      assert (Hin : In (Reader.scoreFile keywords f)
                      (filter (fun sf => 0 <? Reader.score sf)
                         (map (Reader.scoreFile keywords) allFiles))).
      { apply filter_In. split; [now apply in_map|].
        apply Nat.ltb_lt. lia. }
      rewrite Hnil in Hin. destruct Hin.
    - intros Hzero.
      destruct (filter _ _) as [|sf rest] eqn:Hf; [reflexivity|].
      assert (Hin : In sf (filter (fun sf => 0 <? Reader.score sf)
                             (map (Reader.scoreFile keywords) allFiles)))
        by (rewrite Hf; now left).
      apply filter_In in Hin. destruct Hin as [Hin Hpos].
      apply in_map_iff in Hin. destruct Hin as [f [<- Hf']].
      rewrite (Hzero f Hf') in Hpos. discriminate. }
  rewrite <- Hkept. split.
  - intros Hnil. apply (f_equal (@List.length _)) in Hnil.
    rewrite length_map, length_firstn, sort_length in Hnil.
    destruct kept; [reflexivity|simpl in Hnil; lia].
  - intros ->. reflexivity.
Qed.

(** The cascade of [findRelatedFiles] when no path is specified. *)
Lemma findRelatedFiles_cascade :
  forall fs description errorLog filePaths basePath,
  filePaths = None \/ filePaths = Some [] ->
  Reader.findRelatedFiles fs
    {| Reader.description := description; Reader.errorLog := errorLog;
       Reader.filePaths := filePaths; Reader.basePath := basePath |} =
  match traced fs basePath errorLog with
  | [] =>
      match Reader.relevantFiles (Reader.keywordsOf description)
              (Scan.scanRepository fs basePath) with
      | [] =>
          map Reader.toFileContent
            (firstn 3 (Scan.scanRepository fs basePath))
      | r :: rs => r :: rs
      end
  | f :: fs' => f :: fs'
  end.
Proof.
  intros fs description errorLog filePaths basePath Hnone.
  unfold Reader.findRelatedFiles, traced.
  cbn [Reader.filePaths Reader.errorLog Reader.basePath Reader.description].
  assert (Hrest : forall files : list Reader.FileContent,
    (if 0 <? List.length files then files
     else
       if 0 <? List.length
                 (Reader.relevantFiles (Reader.keywordsOf description)
                    (Scan.scanRepository fs basePath))
       then Reader.relevantFiles (Reader.keywordsOf description)
              (Scan.scanRepository fs basePath)
       else map Reader.toFileContent
              (firstn 3 (Scan.scanRepository fs basePath))) =
    match files with
    | [] =>
        match Reader.relevantFiles (Reader.keywordsOf description)
                (Scan.scanRepository fs basePath) with
        | [] =>
            map Reader.toFileContent
              (firstn 3 (Scan.scanRepository fs basePath))
        | r :: rs => r :: rs
        end
    | f :: fs' => f :: fs'
    end).
  { intros [|f files]; [|reflexivity]. cbn [List.length Nat.ltb Nat.leb].
    now destruct (Reader.relevantFiles _ _). }
  destruct Hnone as [-> | ->]; apply Hrest.
Qed.

(** C5: the score of a scanned file is the number of key words of the
    description (its words longer than 3 characters, in lower case) that
    occur in the lower-cased content, plus twice the number of those that
    occur in the lower-cased file name.  The ranking keeps the files of
    positive score and no others, is sorted by score in descending order,
    and lists files of equal score in the order of the scan; the
    key-word stage yields its first 5 files, and these are what
    [findRelatedFiles] returns whenever the stage is reached and finds a
    file. *)
Theorem keyword_ranking : forall fs description errorLog basePath,
  let problem :=
    {| Reader.description := description; Reader.errorLog := errorLog;
       Reader.filePaths := None; Reader.basePath := basePath |} in
  let keywords := Reader.keywordsOf description in
  let allFiles := Scan.scanRepository fs basePath in
  let scored := map (Reader.scoreFile keywords) allFiles in
  let ranking :=
    JsArray.sort Reader.byScore
      (filter (fun sf => 0 <? Reader.score sf) scored) in
  traced fs basePath errorLog = [] ->
  Reader.relevantFiles keywords allFiles <> [] ->
  keywords =
    filter (fun w => 3 <? String.length w)
      (split_spaces (toLowerCase description)) /\
  (forall f,
     Reader.file (Reader.scoreFile keywords f) = f /\
     Reader.score (Reader.scoreFile keywords f) =
       countIf (includes (toLowerCase (Scan.content f))) keywords +
       2 * countIf (includes (toLowerCase (Scan.file f))) keywords) /\
  (forall sf, In sf ranking <-> In sf scored /\ 0 < Reader.score sf) /\
  StronglySorted ranksBefore ranking /\
  (forall n, 0 < n ->
     filter (hasScore n) ranking = filter (hasScore n) scored) /\
  Reader.findRelatedFiles fs problem =
    map (fun sf => Reader.toFileContent (Reader.file sf)) (firstn 5 ranking).
Proof.
  intros fs description errorLog basePath problem keywords allFiles scored
    ranking Htraced Hfound.
  split; [reflexivity|]. split; [|split; [|split; [|split]]].
  - intros f. split; [reflexivity|apply score_counts].
  - intros sf. subst ranking. split.
    + intros Hin.
      apply (Permutation_in _ (sort_perm Reader.byScore _)) in Hin.
      apply filter_In in Hin. destruct Hin as [Hin Hpos].
      apply Nat.ltb_lt in Hpos. auto.
    + intros [Hin Hpos].
      apply (Permutation_in _ (Permutation_sym (sort_perm Reader.byScore _))).
      apply filter_In. split; [assumption|now apply Nat.ltb_lt].
  - apply sort_ranked.
  - intros n Hn. subst ranking. rewrite sort_stable.
    now apply filter_positive_score.
  - subst problem. rewrite findRelatedFiles_cascade by now left.
    rewrite Htraced. fold keywords. fold allFiles.
    destruct (Reader.relevantFiles keywords allFiles) eqn:Hrel;
      [contradiction|].
    rewrite <- Hrel. reflexivity.
Qed.

Lemma keyword_ranking_witness :
  traced Sample.project "/proj" None = [] /\
  Reader.relevantFiles (Reader.keywordsOf "the handler crashes")
    (Scan.scanRepository Sample.project "/proj") = [Sample.bFile] /\
  Reader.findRelatedFiles Sample.project
    {| Reader.description := "the handler crashes";
       Reader.errorLog := None; Reader.filePaths := None;
       Reader.basePath := "/proj" |} = [Sample.bFile].
Proof.
  assert (Htraced : traced Sample.project "/proj" None = [])
    by reflexivity.
  assert (Hrelevant :
    Reader.relevantFiles (Reader.keywordsOf "the handler crashes")
      (Scan.scanRepository Sample.project "/proj") = [Sample.bFile])
    by (vm_compute; reflexivity).
  split; [exact Htraced|]. split; [exact Hrelevant|].
  destruct (@keyword_ranking Sample.project "the handler crashes" None
              "/proj" Htraced) as (_ & _ & _ & _ & _ & ->).
  - rewrite Hrelevant. discriminate.
  - vm_compute. reflexivity.
Defined.

(** *** The order of the cascade *)

Lemma traced_keep : forall fs basePath errorLog,
  traced fs basePath errorLog =
  keep (loadFile fs basePath)
    (firstn 5
       (match Reader.nonEmpty errorLog with
        | Some log => Reader.extractFilesFromError log
        | None => []
        end)).
Proof.
  intros. unfold traced.
  destruct (Reader.nonEmpty errorLog); [apply stackTraceFiles_keep|].
  reflexivity.
Qed.

(** C1, as the code has it: when no explicit path is supplied, the stages
    of [findRelatedFiles] are tried in order.  The stack-trace stage looks
    up the first 5 distinct paths extracted from the error log only; if at
    least one of these exists on disk and can be read, the loadable ones
    among them are returned (at most 5) and neither the description nor the
    scan is consulted.  If none of them is loadable, every scanned file is
    scored by key words and the ranked files are returned; and if scoring
    keeps no file, which is when all scores are 0, the first 3 files of the
    full scan are returned. *)
Theorem cascade_in_order :
  forall fs description errorLog filePaths basePath,
  filePaths = None \/ filePaths = Some [] ->
  let problem :=
    {| Reader.description := description; Reader.errorLog := errorLog;
       Reader.filePaths := filePaths; Reader.basePath := basePath |} in
  let extracted :=
    match Reader.nonEmpty errorLog with
    | Some log => Reader.extractFilesFromError log
    | None => []
    end in
  let files := keep (loadFile fs basePath) (firstn 5 extracted) in
  let allFiles := Scan.scanRepository fs basePath in
  let keywords := Reader.keywordsOf description in
  let relevant := Reader.relevantFiles keywords allFiles in
  (files <> [] <->
     exists p, In p (firstn 5 extracted) /\
               loadable fs (absolutePathOf basePath p) = true) /\
  (files <> [] ->
     List.length files <= 5 /\
     Reader.findRelatedFiles fs problem = files /\
     forall description',
       Reader.findRelatedFiles fs
         {| Reader.description := description'; Reader.errorLog := errorLog;
            Reader.filePaths := filePaths; Reader.basePath := basePath |} =
       files) /\
  (files = [] -> relevant <> [] ->
     Reader.findRelatedFiles fs problem = relevant) /\
  (relevant = [] <->
     forall f, In f allFiles ->
               Reader.score (Reader.scoreFile keywords f) = 0) /\
  (files = [] -> relevant = [] ->
     Reader.findRelatedFiles fs problem =
     map Reader.toFileContent (firstn 3 allFiles)).
Proof.
  intros fs description errorLog filePaths basePath Hnone problem extracted
    files allFiles keywords relevant.
  assert (Hcascade : forall d,
    Reader.findRelatedFiles fs
      {| Reader.description := d; Reader.errorLog := errorLog;
         Reader.filePaths := filePaths; Reader.basePath := basePath |} =
    match files with
    | [] =>
        match Reader.relevantFiles (Reader.keywordsOf d) allFiles with
        | [] => map Reader.toFileContent (firstn 3 allFiles)
        | r :: rs => r :: rs
        end
    | f :: fs' => f :: fs'
    end).
  { intros d. rewrite findRelatedFiles_cascade by exact Hnone.
    now rewrite traced_keep. }
  split; [|split; [|split; [|split]]].
  - split.
    + intros Hfiles.
      destruct (existsb (fun p => loadable fs (absolutePathOf basePath p))
                  (firstn 5 extracted)) eqn:Hex.
      * apply existsb_exists in Hex. exact Hex.
      * exfalso. apply Hfiles. apply keep_nil. intros p Hp.
        destruct (loadFile fs basePath p) eqn:Hload; [|reflexivity].
        assert (Hok : loadable fs (absolutePathOf basePath p) = true)
          by (apply loadFile_loadable; congruence).
        assert (Hin : existsb
                        (fun p => loadable fs (absolutePathOf basePath p))
                        (firstn 5 extracted) = true)
          by (apply existsb_exists; eauto).
        congruence.
    + intros [p [Hp Hok]] Hnil.
      apply loadFile_loadable in Hok. apply Hok.
      exact (proj1 (keep_nil _ _) Hnil p Hp).
  - intros Hfiles. split; [apply keep_firstn_at_most|].
    assert (Hany : forall d,
      Reader.findRelatedFiles fs
        {| Reader.description := d; Reader.errorLog := errorLog;
           Reader.filePaths := filePaths; Reader.basePath := basePath |} =
      files).
    { intros d. rewrite Hcascade. now destruct files. }
    split; [apply Hany|exact Hany].
  - intros Hfiles Hrel. unfold problem. rewrite Hcascade, Hfiles.
    fold keywords. fold relevant. now destruct relevant.
  - apply relevantFiles_nil.
  - intros Hfiles Hrel. unfold problem. rewrite Hcascade, Hfiles.
    fold keywords. fold relevant. now rewrite Hrel.
Qed.

Lemma cascade_in_order_witness :
  Reader.findRelatedFiles Sample.project Sample.shortProblem =
  [Sample.aFile].
Proof.
  destruct (@cascade_in_order Sample.project "the handler crashes"
              (Some Sample.shortTrace) None "/proj" (or_introl eq_refl))
    as (_ & Hfound & _).
  destruct Hfound as (_ & Hfiles & _).
  - vm_compute. discriminate.
  - unfold Sample.shortProblem. rewrite Hfiles. vm_compute. reflexivity.
Defined.

(** C1 fails as stated: the error log yields six paths of which the sixth
    exists on disk and can be read, yet [findRelatedFiles] does not return
    it; it falls through to key-word scoring and returns another file. *)
Lemma sixth_frame_is_not_looked_up :
  Reader.filePaths Sample.deepProblem = None /\
  Reader.errorLog Sample.deepProblem = Some Sample.deepTrace /\
  nth_error (Reader.extractFilesFromError Sample.deepTrace) 5 =
    Some "/proj/a.ts" /\
  existsSync Sample.project "/proj/a.ts" = true /\
  loadFile Sample.project "/proj" "/proj/a.ts" = Some Sample.aFile /\
  Reader.findRelatedFiles Sample.project Sample.deepProblem =
    [Sample.bFile] /\
  Reader.relevantFiles (Reader.keywordsOf "the handler crashes")
    (Scan.scanRepository Sample.project "/proj") = [Sample.bFile].
Proof.
  repeat split; vm_compute; reflexivity.
Qed.

(** *** Import resolution *)

Lemma mem_In : forall x xs, mem x xs = true <-> In x xs.
Proof.
  intros x xs. unfold mem. rewrite existsb_exists. split.
  - intros [y [Hy Heq]]. apply String.eqb_eq in Heq. now subst.
  - intros Hx. exists x. split; [assumption|apply String.eqb_refl].
Qed.

Lemma unique_from_In : forall x xs seen,
  In x (unique_from seen xs) <-> In x xs /\ ~ In x seen.
Proof.
  intros x xs. induction xs as [|y ys IH]; intros seen; simpl.
  - tauto.
  - destruct (mem y seen) eqn:Hmem.
    + apply mem_In in Hmem. rewrite IH. split.
      * intros [Hin Hnot]. auto.
      * intros [[<-|Hin] Hnot]; [contradiction|auto].
    + assert (Hnot : ~ In y seen).
      { intros Hin. apply mem_In in Hin. congruence. }
      simpl. rewrite IH. simpl. split.
      * intros [<-|[Hin Hn]]; [auto|]. split; [auto|]. tauto.
      * intros [[<-|Hin] Hn]; [auto|].
        destruct (string_dec y x) as [->|Hne]; [auto|].
        right. split; [assumption|]. intros [Heq|Hs]; auto.
Qed.

Lemma unique_In : forall x xs, In x (unique xs) <-> In x xs.
Proof.
  intros. unfold unique. rewrite unique_from_In. simpl. tauto.
Qed.

Lemma find_map : forall (A B : Type) (p : B -> bool) (g : A -> B) xs,
  find p (map g xs) = option_map g (find (fun x => p (g x)) xs).
Proof.
  intros. induction xs as [|x xs IH]; simpl; [reflexivity|].
  destruct (p (g x)); [reflexivity|exact IH].
Qed.

Lemma find_app : forall (A : Type) (p : A -> bool) xs ys,
  find p (xs ++ ys) =
  match find p xs with Some x => Some x | None => find p ys end.
Proof.
  intros. induction xs as [|x xs IH]; simpl; [reflexivity|].
  destruct (p x); [reflexivity|exact IH].
Qed.

Lemma resolveImport_first_candidate : forall modulePath existingFiles,
  Dependency.resolveImport modulePath existingFiles =
  find (fun c => mem c existingFiles) (candidates modulePath).
Proof.
  intros. unfold Dependency.resolveImport, candidates.
  cbn [find]. destruct (mem (basename modulePath) existingFiles);
    [reflexivity|].
  rewrite find_app, !find_map.
  destruct (find _ Dependency.extensions); [reflexivity|].
  cbn [option_map].
  destruct (find _ Dependency.extensions); reflexivity.
Qed.

Lemma resolveImport_member : forall modulePath existingFiles resolved,
  Dependency.resolveImport modulePath existingFiles = Some resolved ->
  In resolved (candidates modulePath) /\ In resolved existingFiles.
Proof.
  intros modulePath existingFiles resolved.
  rewrite resolveImport_first_candidate. intros Hfind.
  apply find_some in Hfind. destruct Hfind as [Hin Hmem].
  apply mem_In in Hmem. auto.
Qed.

(** The base name of a relative module path is not empty, so the test
    [if (resolved)] of [buildDependencyMap] never rejects a resolved
    relative import. *)
Lemma split_head : forall sep c s,
  Ascii.eqb c sep = false ->
  exists w ws, split sep (String c s) = String c w :: ws.
Proof.
  intros sep c s Hc. cbn [split]. rewrite Hc.
  destruct (split sep s) as [|w ws]; eauto.
Qed.

Lemma dropTrailingSlashes_app : forall rsegs seg,
  seg <> "" ->
  exists seg' rest,
    dropTrailingSlashes (rsegs ++ [seg]) = seg' :: rest /\ seg' <> "".
Proof.
  intros rsegs seg Hseg. induction rsegs as [|r rs IH]; simpl.
  - destruct (String.eqb_spec seg ""); [contradiction|eauto].
  - destruct (String.eqb_spec r ""); [exact IH|eauto].
Qed.

Lemma basename_of_dot : forall s, basename (String DOT s) <> "".
Proof.
  intros s. unfold basename.
  destruct (@split_head SLASH DOT s eq_refl) as [w [ws Hsplit]].
  rewrite Hsplit. cbn [rev].
  destruct (@dropTrailingSlashes_app (rev ws) (String DOT w))
    as [seg [rest [-> Hseg]]]; [discriminate|exact Hseg].
Qed.

Lemma relative_basename : forall raw modulePath,
  Dependency.isRelative (Dependency.createImportInfo raw modulePath) = true ->
  basename modulePath <> "".
Proof.
  intros raw modulePath. cbn [Dependency.createImportInfo
                                Dependency.isRelative].
  destruct modulePath as [|c s]; [discriminate|].
  unfold startsWith. cbn [prefix].
  destruct (Ascii.ascii_dec "." c) as [<-|Hne].
  - intros _. apply basename_of_dot.
  - destruct (Ascii.ascii_dec "."%char c); [contradiction|].
    discriminate.
Qed.

Lemma candidates_nonempty : forall modulePath c,
  basename modulePath <> "" -> In c (candidates modulePath) -> c <> "".
Proof.
  intros modulePath c Hbase. unfold candidates.
  intros [<-|Hin]; [exact Hbase|].
  apply in_app_or in Hin. destruct Hin as [Hin|Hin];
    apply in_map_iff in Hin; destruct Hin as [ext [<- Hext]].
  - destruct (basename modulePath); [contradiction|discriminate].
  - discriminate.
Qed.

Lemma parseLine_push : forall imports line,
  Dependency.parseLine imports line = imports ++ lineImports line.
Proof.
  intros. unfold lineImports, Dependency.parseLine. cbv zeta.
  destruct (_ || _); [now rewrite app_nil_r|].
  destruct (Regex.match_first Dependency.importPattern _);
    [reflexivity|].
  destruct (Regex.match_first Dependency.requirePattern _);
    [reflexivity|now rewrite app_nil_r].
Qed.

Lemma fold_left_flat_map : forall (A B : Type) (g : A -> list B)
  (body : list B -> A -> list B),
  (forall acc x, body acc x = acc ++ g x) ->
  forall xs acc, fold_left body xs acc = acc ++ flat_map g xs.
Proof.
  intros A B g body Hbody.
  induction xs as [|x xs IH]; intros acc; simpl.
  - now rewrite app_nil_r.
  - rewrite IH, Hbody, <- app_assoc. reflexivity.
Qed.

Lemma parseImports_lines : forall content,
  Dependency.parseImports content =
  flat_map lineImports (split LF content).
Proof.
  intros. unfold Dependency.parseImports.
  now rewrite (fold_left_flat_map lineImports Dependency.parseLine
                 parseLine_push).
Qed.

(** What a line yields: nothing, or one record made by [createImportInfo]
    from the trimmed line. *)
Lemma lineImports_cases : forall line,
  lineImports line = [] \/
  exists modulePath,
    commentLine line = false /\
    lineImports line =
      [Dependency.createImportInfo (trim line) modulePath].
Proof.
  intros line. unfold lineImports, Dependency.parseLine, commentLine.
  cbv zeta. destruct (_ || _); [now left|].
  destruct (Regex.match_first Dependency.importPattern _).
  - right. eexists. split; reflexivity.
  - destruct (Regex.match_first Dependency.requirePattern _).
    + right. eexists. split; reflexivity.
    + now left.
Qed.

Lemma parseImports_created : forall content imp,
  In imp (Dependency.parseImports content) ->
  exists line modulePath,
    In line (split LF content) /\ commentLine line = false /\
    imp = Dependency.createImportInfo (trim line) modulePath.
Proof.
  intros content imp. rewrite parseImports_lines, in_flat_map.
  intros [line [Hline Hin]].
  destruct (lineImports_cases line) as [Hnil|[m [Hc Hone]]].
  - rewrite Hnil in Hin. destruct Hin.
  - rewrite Hone in Hin. destruct Hin as [<-|[]]. eauto.
Qed.

Lemma addDependency_push : forall fileNames content,
  fold_left (Dependency.addDependency fileNames)
    (Dependency.parseImports content) [] =
  dependenciesOf fileNames content.
Proof.
  intros fileNames content. unfold dependenciesOf.
  assert (Hgen : forall imports acc,
    (forall imp, In imp imports ->
       exists raw modulePath,
         imp = Dependency.createImportInfo raw modulePath) ->
    fold_left (Dependency.addDependency fileNames) imports acc =
    acc ++ keep
             (fun imp =>
                if Dependency.isRelative imp then
                  Dependency.resolveImport (Dependency.module imp) fileNames
                else None) imports).
  { induction imports as [|imp imports IH]; intros acc Hmade.
    - simpl. now rewrite app_nil_r.
    - cbn [fold_left]. rewrite IH by (intros; apply Hmade; now right).
      cbn [keep flat_map]. fold (keep
        (fun imp => if Dependency.isRelative imp then
                      Dependency.resolveImport (Dependency.module imp)
                        fileNames
                    else None) imports).
      rewrite app_assoc. f_equal.
      unfold Dependency.addDependency.
      destruct (Dependency.isRelative imp) eqn:Hrel;
        [|now rewrite app_nil_r].
      destruct (Dependency.resolveImport _ _) as [resolved|] eqn:Hres;
        [|now rewrite app_nil_r].
      destruct (String.eqb_spec resolved "") as [->|Hne]; [|reflexivity].
      exfalso.
      destruct (Hmade imp (or_introl eq_refl)) as [raw [m ->]].
      apply resolveImport_member in Hres. destruct Hres as [Hcand _].
      apply (candidates_nonempty (relative_basename _ _ Hrel) Hcand).
      reflexivity. }
  rewrite Hgen; [reflexivity|].
  intros imp Himp. apply parseImports_created in Himp.
  destruct Himp as [line [m [_ [_ ->]]]]. eauto.
Qed.

Lemma setProperty_In : forall key value dm k v,
  In (k, v) (Dependency.setProperty key value dm) ->
  (k = key /\ v = value) \/ In (k, v) dm.
Proof.
  intros key value dm k v. induction dm as [|[k' v'] dm IH]; simpl.
  - intros [[= <- <-]|[]]. now left.
  - destruct (String.eqb_spec k' key) as [->|Hne]; simpl.
    + intros [[= <- <-]|Hin]; [now left|right; now right].
    + intros [Heq|Hin]; [right; now left|].
      destruct (IH Hin); [now left|right; now right].
Qed.

Lemma setProperty_keys : forall key value dm,
  map fst (Dependency.setProperty key value dm) =
  if mem key (map fst dm) then map fst dm else map fst dm ++ [key].
Proof.
  intros key value dm. induction dm as [|[k v] dm IH]; [reflexivity|].
  cbn [Dependency.setProperty map fst]. unfold mem. cbn [existsb].
  rewrite (String.eqb_sym key k).
  destruct (String.eqb k key); [reflexivity|].
  cbn [map fst orb]. rewrite IH. unfold mem.
  now destruct (existsb _ _).
Qed.

Lemma setProperty_NoDup : forall key value dm,
  NoDup (map fst dm) ->
  NoDup (map fst (Dependency.setProperty key value dm)).
Proof.
  intros key value dm Hnd. rewrite setProperty_keys.
  destruct (mem key (map fst dm)) eqn:Hmem; [assumption|].
  apply NoDup_app; [assumption|repeat constructor; intros []|].
  intros k Hk [<-|[]]. apply mem_In in Hk. congruence.
Qed.

Lemma getProperty_set : forall key value dm k,
  Dependency.getProperty k (Dependency.setProperty key value dm) =
  if String.eqb key k then Some value else Dependency.getProperty k dm.
Proof.
  intros key value dm k. induction dm as [|[k' v'] dm IH].
  - cbn. rewrite (String.eqb_sym key k). reflexivity.
  - cbn [Dependency.setProperty Dependency.getProperty].
    destruct (String.eqb_spec k' key) as [->|Hne].
    + cbn [Dependency.getProperty]. now destruct (String.eqb key k).
    + cbn [Dependency.getProperty]. rewrite IH.
      destruct (String.eqb_spec k' k) as [->|Hne']; [|reflexivity].
      destruct (String.eqb_spec key k); [congruence|reflexivity].
Qed.

Lemma getProperty_In : forall dm k v,
  NoDup (map fst dm) ->
  (Dependency.getProperty k dm = Some v <-> In (k, v) dm).
Proof.
  intros dm k v. induction dm as [|[k' v'] dm IH]; intros Hnd.
  - simpl. split; [discriminate|intros []].
  - inversion Hnd as [|? ? Hnot Hnd']. subst. cbn. 
    destruct (String.eqb_spec k' k) as [->|Hne].
    + split.
      * intros [= ->]. now left.
      * intros [[= ->]|Hin]; [reflexivity|].
        exfalso. apply Hnot. apply in_map_iff. now exists (k, v).
    + rewrite (IH Hnd'). split; [now right|].
      intros [[= -> ->]|Hin]; [contradiction|assumption].
Qed.

Lemma buildDependencyMap_mapFiles : forall files,
  Dependency.buildDependencyMap files =
  mapFiles (unique (map Scan.file files)) files [].
Proof.
  intros files. unfold Dependency.buildDependencyMap, mapFiles. cbv zeta.
  generalize (@nil (string * list string)).
  generalize (unique (map Scan.file files)) as fileNames.
  intros fileNames. induction files as [|f files IH]; intros dm;
    [reflexivity|].
  cbn [fold_left]. now rewrite addDependency_push, IH.
Qed.

Lemma mapFiles_In : forall fileNames files dm k v,
  In (k, v) (mapFiles fileNames files dm) ->
  In (k, v) dm \/
  exists f, In f files /\ Scan.file f = k /\
            v = dependenciesOf fileNames (Scan.content f).
Proof.
  intros fileNames files. induction files as [|f files IH];
    intros dm k v Hin.
  - now left.
  - apply IH in Hin. destruct Hin as [Hin|[f' [Hf' Hrest]]].
    + apply setProperty_In in Hin. destruct Hin as [[-> ->]|Hin].
      * right. exists f. split; [now left|auto].
      * now left.
    + right. exists f'. split; [now right|assumption].
Qed.

Lemma mapFiles_NoDup : forall fileNames files dm,
  NoDup (map fst dm) ->
  NoDup (map fst (mapFiles fileNames files dm)).
Proof.
  intros fileNames files. induction files as [|f files IH];
    intros dm Hnd; [assumption|].
  apply IH. now apply setProperty_NoDup.
Qed.

Lemma mapFiles_last : forall fileNames files dm f,
  (forall g, In g files -> Scan.file g <> Scan.file f) ->
  Dependency.getProperty (Scan.file f) (mapFiles fileNames files dm) =
  Dependency.getProperty (Scan.file f) dm.
Proof.
  intros fileNames files. induction files as [|g files IH];
    intros dm f Hother; [reflexivity|].
  cbn [mapFiles fold_left]. 
  change (Dependency.getProperty (Scan.file f)
            (mapFiles fileNames files
               (Dependency.setProperty (Scan.file g)
                  (dependenciesOf fileNames (Scan.content g)) dm)) =
          Dependency.getProperty (Scan.file f) dm).
  rewrite IH by (intros; apply Hother; now right).
  rewrite getProperty_set.
  destruct (String.eqb_spec (Scan.file g) (Scan.file f)) as [Heq|Hne];
    [|reflexivity].
  exfalso. apply (Hother g); [now left|assumption].
Qed.

Lemma buildDependencyMap_NoDup : forall files,
  NoDup (map fst (Dependency.buildDependencyMap files)).
Proof.
  intros. rewrite buildDependencyMap_mapFiles. apply mapFiles_NoDup.
  constructor.
Qed.

(** C6: [resolveImport] returns the first of the candidate names (the base
    name of the module path, then the base name with each of [.ts], [.js],
    [.tsx], [.jsx], [.wgsl], then [index] with each of these) that is a
    file name of the scan batch, and nothing when none is.  The list that
    [buildDependencyMap] records for a file name holds, in order, the
    resolutions of the relative imports of the file of that name: an import
    that resolves to nothing contributes nothing, a package import is never
    recorded, and every recorded target is the file name of a member of the
    batch. *)
Theorem dependency_resolution : forall files : list Scan.ScannedFile,
  let fileNames := unique (map Scan.file files) in
  let dependencyMap := Dependency.buildDependencyMap files in
  Dependency.extensions = [".ts"; ".js"; ".tsx"; ".jsx"; ".wgsl"] /\
  (forall modulePath,
     Dependency.resolveImport modulePath fileNames =
     find (fun c => mem c fileNames) (candidates modulePath)) /\
  (forall before f after,
     files = before ++ f :: after ->
     (forall g, In g after -> Scan.file g <> Scan.file f) ->
     Dependency.getProperty (Scan.file f) dependencyMap =
     Some (keep
             (fun imp =>
                if Dependency.isRelative imp then
                  Dependency.resolveImport (Dependency.module imp) fileNames
                else None)
             (Dependency.parseImports (Scan.content f)))) /\
  (forall name deps target,
     In (name, deps) dependencyMap -> In target deps ->
     (exists member, In member files /\ Scan.file member = target) /\
     (exists f imp,
        In f files /\ Scan.file f = name /\
        In imp (Dependency.parseImports (Scan.content f)) /\
        Dependency.isRelative imp = true /\
        Dependency.isPackage imp = false /\
        Dependency.resolveImport (Dependency.module imp) fileNames =
          Some target)).
Proof.
  intros files fileNames dependencyMap.
  split; [reflexivity|]. split; [|split].
  - intros. apply resolveImport_first_candidate.
  - intros before f after Hfiles Hlast. subst dependencyMap.
    rewrite buildDependencyMap_mapFiles. fold fileNames. rewrite Hfiles.
    unfold mapFiles. rewrite fold_left_app. cbn [fold_left].
    fold (mapFiles fileNames after
            (Dependency.setProperty (Scan.file f)
               (dependenciesOf fileNames (Scan.content f))
               (fold_left
                  (fun dependencyMap f0 =>
                     Dependency.setProperty (Scan.file f0)
                       (dependenciesOf fileNames (Scan.content f0))
                       dependencyMap) before []))).
    rewrite mapFiles_last by exact Hlast.
    rewrite getProperty_set, String.eqb_refl. reflexivity.
  - intros name deps target Hentry Htarget. subst dependencyMap.
    rewrite buildDependencyMap_mapFiles in Hentry. fold fileNames in Hentry.
    apply mapFiles_In in Hentry.
    destruct Hentry as [[]|[f [Hf [Hname ->]]]].
    unfold dependenciesOf, keep in Htarget. apply in_flat_map in Htarget.
    destruct Htarget as [imp [Himp Hres]].
    destruct (Dependency.isRelative imp) eqn:Hrel; [|destruct Hres].
    destruct (Dependency.resolveImport _ _) as [resolved|] eqn:Hresolve;
      [|destruct Hres].
    destruct Hres as [->|[]].
    pose proof (resolveImport_member _ _ Hresolve) as [_ Hmember].
    apply unique_In, in_map_iff in Hmember.
    destruct Hmember as [member [Hfile Hin]].
    split; [now exists member|].
    exists f, imp. repeat split; try assumption.
    apply parseImports_created in Himp.
    destruct Himp as [line [m [_ [_ ->]]]].
    cbn [Dependency.createImportInfo Dependency.isPackage
           Dependency.isRelative] in *.
    now rewrite Hrel.
Qed.

(** *** Reverse dependencies *)

Lemma findDependents_filter : forall targetFile dm,
  Dependency.findDependents targetFile dm =
  map fst (filter (fun entry => mem targetFile (snd entry)) dm).
Proof.
  intros targetFile dm. unfold Dependency.findDependents.
  rewrite (fold_left_flat_map
             (fun entry : string * list string =>
                if mem targetFile (snd entry) then [fst entry] else [])).
  - induction dm as [|[f deps] dm IH]; [reflexivity|].
    cbn [flat_map filter snd fst]. cbn [app] in IH.
    destruct (mem targetFile deps); cbn; now rewrite IH.
  - intros acc [f deps]. cbn [fst snd].
    destruct (mem targetFile deps); [reflexivity|now rewrite app_nil_r].
Qed.

(** C7: for a dependency dm, which as an object has one entry per key,
    [findDependents] inverts the dm: [A] is among the dependents of [B]
    if and only if the entry of the dm for [A] contains [B].  The witness
    is the scenario of the specification: [utils/helper.ts] imports
    [./shared], so the entry of [helper.ts] contains [shared.ts] and
    [findDependents] of [shared.ts] contains [helper.ts]. *)
Theorem findDependents_inverts : forall (dm : Dependency.DependencyMap),
  NoDup (map fst dm) ->
  forall A B,
    In A (Dependency.findDependents B dm) <->
    exists deps, Dependency.getProperty A dm = Some deps /\ In B deps.
Proof.
  intros dm Hnd A B. rewrite findDependents_filter, in_map_iff. split.
  - intros [[f deps] [<- Hin]]. apply filter_In in Hin.
    destruct Hin as [Hin Hmem]. exists deps. split.
    + now apply getProperty_In.
    + now apply mem_In.
  - intros [deps [Hget HB]]. exists (A, deps). split; [reflexivity|].
    apply filter_In. split.
    + now apply getProperty_In.
    + now apply mem_In.
Qed.

Lemma findDependents_inverts_witness :
  let files := Scan.scanRepository Sample.helperProject "/work" in
  let dependencyMap := Dependency.buildDependencyMap files in
  map Scan.path files = ["/work/shared.ts"; "/work/utils/helper.ts"] /\
  Dependency.getProperty "helper.ts" dependencyMap = Some ["shared.ts"] /\
  In "helper.ts" (Dependency.findDependents "shared.ts" dependencyMap).
Proof.
  cbv zeta. split; [vm_compute; reflexivity|].
  split; [vm_compute; reflexivity|].
  apply (@findDependents_inverts
           (Dependency.buildDependencyMap
              (Scan.scanRepository Sample.helperProject "/work"))
           (buildDependencyMap_NoDup _) "helper.ts" "shared.ts").
  exists ["shared.ts"]. split; [vm_compute; reflexivity|now left].
Defined.

(** *** Comment lines *)

Lemma split_nonempty : forall sep s, split sep s <> [].
Proof.
  intros sep s. destruct s as [|c s]; cbn [split]; [discriminate|].
  destruct (Ascii.eqb c sep); [discriminate|].
  destruct (split sep s); discriminate.
Qed.

Lemma split_app : forall sep s t,
  split sep (s ++ String sep t) = split sep s ++ split sep t.
Proof.
  intros sep s t. induction s as [|c s IH]; cbn [append split].
  - now rewrite Ascii.eqb_refl.
  - destruct (Ascii.eqb c sep); [now rewrite IH|].
    rewrite IH. pose proof (split_nonempty sep s) as Hne.
    destruct (split sep s); [contradiction|reflexivity].
Qed.

Lemma split_one : forall sep s,
  (forall c, In c (list_ascii_of_string s) -> c <> sep) ->
  split sep s = [s].
Proof.
  intros sep s. induction s as [|c s IH]; intros Hno; [reflexivity|].
  cbn [split]. destruct (Ascii.eqb_spec c sep) as [->|Hne].
  - exfalso. apply (Hno sep); [now left|reflexivity].
  - rewrite IH; [reflexivity|]. intros c' Hc'. apply Hno. now right.
Qed.

Lemma commentLine_skipped : forall line,
  commentLine line = true -> lineImports line = [].
Proof.
  intros line. unfold commentLine, lineImports, Dependency.parseLine.
  cbv zeta. now intros ->.
Qed.

(** C9: [parseImports] treats each line on its own, and a line whose
    trimmed text begins with [*] or with [//] yields no record, so an
    import or a require on a continuation line of a JSDoc comment is never
    extracted.  Nothing else of a comment is recognised: a line between the
    delimiters of a block comment that begins with neither is parsed like
    any line, wherever it stands in the content, and the import on it is
    extracted. *)
Theorem comment_lines : forall content,
  Dependency.parseImports content =
    flat_map lineImports (split LF content) /\
  (forall line,
     startsWith (trim line) "*" = true \/ startsWith (trim line) "//" = true ->
     lineImports line = []) /\
  (forall imp,
     In imp (Dependency.parseImports content) ->
     exists line,
       In line (split LF content) /\ Dependency.raw imp = trim line /\
       startsWith (Dependency.raw imp) "*" = false /\
       startsWith (Dependency.raw imp) "//" = false) /\
  (forall before line after,
     (forall c, In c (list_ascii_of_string line) -> c <> LF) ->
     Dependency.parseImports
       (before ++ String LF (line ++ String LF after)) =
     Dependency.parseImports before ++ lineImports line ++
     Dependency.parseImports after) /\
  Dependency.parseImports Sample.docComment = [] /\
  Dependency.parseImports Sample.blockComment =
    [Dependency.createImportInfo "import b from './b'" "./b"].
Proof.
  intros content. split; [apply parseImports_lines|].
  split; [|split; [|split; [|split]]].
  - intros line Hstar. apply commentLine_skipped. unfold commentLine.
    destruct Hstar as [-> | ->]; [apply orb_true_r|reflexivity].
  - intros imp Himp. apply parseImports_created in Himp.
    destruct Himp as [line [m [Hline [Hcomment ->]]]].
    exists line. cbn [Dependency.createImportInfo Dependency.raw].
    unfold commentLine in Hcomment. apply orb_false_elim in Hcomment.
    tauto.
  - intros before line after Hline.
    rewrite !parseImports_lines, !split_app, !flat_map_app.
    rewrite (split_one _ Hline). cbn [flat_map].
    now rewrite app_nil_r.
  - vm_compute. reflexivity.
  - vm_compute. reflexivity.
Qed.

(** *** The walk of the tree *)

Lemma filesOfEntry_dir : forall dirPath above name entries,
  filesOfEntry dirPath above (Dir name true entries) =
  filesOfListing (join2 dirPath name) (above ++ [name]) entries.
Proof.
  intros. unfold filesOfListing. cbn [filesOfEntry].
  induction entries as [|e es IH]; [reflexivity|].
  cbn [flat_map]. now rewrite <- IH.
Qed.

Lemma walkEntry_dir : forall dirPath files name entries,
  Scan.walkEntry dirPath files (Dir name true entries) =
  if negb (mem name Scan.IGNORED_DIRS)
  then fold_left (Scan.walkEntry (join2 dirPath name)) entries files
  else files.
Proof.
  intros. cbn [Scan.walkEntry entryName].
  destruct (negb (mem name Scan.IGNORED_DIRS)); [|reflexivity].
  revert files. induction entries as [|e es IH]; intros files;
    [reflexivity|].
  cbn [fold_left]. now rewrite <- IH.
Qed.

Lemma filesOfEntry_dirs : forall e dirPath above l,
  In l (filesOfEntry dirPath above e) -> exists more, dirs l = above ++ more.
Proof.
  induction e as [name data|name listable entries IH|name target|name]
    using entry_tree_ind; intros dirPath above l Hin.
  - destruct Hin as [<-|[]]. exists []. cbn. now rewrite app_nil_r.
  - destruct listable; [|destruct Hin].
    rewrite filesOfEntry_dir in Hin. unfold filesOfListing in Hin.
    apply in_flat_map in Hin. destruct Hin as [e [He Hin]].
    rewrite Forall_forall in IH.
    destruct (IH e He _ _ _ Hin) as [more Hmore].
    exists (name :: more). now rewrite Hmore, <- app_assoc.
  - destruct Hin.
  - destruct Hin.
Qed.

Lemma filter_none : forall (A : Type) (p : A -> bool) xs,
  (forall x, In x xs -> p x = false) -> filter p xs = [].
Proof.
  intros A p xs Hall. induction xs as [|x xs IH]; [reflexivity|].
  cbn [filter]. rewrite (Hall x (or_introl eq_refl)).
  apply IH. intros y Hy. apply Hall. now right.
Qed.

Lemma beneath_ignored : forall e dirPath above,
  forallb (fun name => negb (mem name Scan.IGNORED_DIRS)) above = false ->
  filter matched (filesOfEntry dirPath above e) = [].
Proof.
  intros e dirPath above Hignored. apply filter_none. intros l Hin.
  destruct (filesOfEntry_dirs _ _ _ _ Hin) as [more Hdirs].
  unfold matched, notIgnored. rewrite Hdirs, forallb_app, Hignored.
  apply andb_false_r.
Qed.

Lemma walkEntry_records : forall e dirPath above files,
  forallb (fun name => negb (mem name Scan.IGNORED_DIRS)) above = true ->
  Scan.walkEntry dirPath files e =
  files ++ keep recordOf (filter matched (filesOfEntry dirPath above e)).
Proof.
  induction e as [name data|name listable entries IH|name target|name]
    using entry_tree_ind; intros dirPath above files Habove.
  - cbn [Scan.walkEntry filesOfEntry entryName filter].
    unfold matched, allowed, notIgnored. cbn [fileName dirs].
    rewrite Habove, andb_true_r.
    destruct (mem (toLowerCase (extname name)) Scan.SUPPORTED_EXTENSIONS);
      [|now rewrite app_nil_r].
    cbn [keep flat_map]. unfold recordOf. cbn [fileData].
    destruct data; [reflexivity|now rewrite app_nil_r].
  - destruct listable;
      [|cbn; destruct (negb _); now rewrite app_nil_r].
    rewrite walkEntry_dir, filesOfEntry_dir.
    destruct (negb (mem name Scan.IGNORED_DIRS)) eqn:Hname.
    + assert (Habove' :
        forallb (fun name => negb (mem name Scan.IGNORED_DIRS))
          (above ++ [name]) = true).
      { rewrite forallb_app, Habove. cbn [forallb andb]. now rewrite Hname. }
      unfold filesOfListing. revert files.
      induction IH as [|e es He Hes IHes]; intros files.
      * cbn. now rewrite app_nil_r.
      * cbn [fold_left flat_map].
        rewrite (He _ _ _ Habove'), IHes, filter_app, keep_app.
        now rewrite app_assoc.
    + assert (Habove' :
        forallb (fun name => negb (mem name Scan.IGNORED_DIRS))
          (above ++ [name]) = false).
      { rewrite forallb_app. cbn [forallb]. rewrite Hname. apply andb_false_r. }
      unfold filesOfListing.
      assert (Hnone : filter matched
                        (flat_map
                           (filesOfEntry (join2 dirPath name)
                              (above ++ [name])) entries) = []).
      { clear IH. induction entries as [|e es IHes]; [reflexivity|].
        cbn [flat_map]. rewrite filter_app, IHes, app_nil_r.
        now apply beneath_ignored. }
      rewrite Hnone. cbn. now rewrite app_nil_r.
  - cbn. now rewrite app_nil_r.
  - cbn. now rewrite app_nil_r.
Qed.

(** [scanRepository] returns the records of the matched files that can be
    read, in the order of the walk. *)
Lemma scanRepository_records : forall fs rootPath,
  Scan.scanRepository fs rootPath =
  keep recordOf (filter matched (filesBelow fs rootPath)).
Proof.
  intros fs rootPath. unfold Scan.scanRepository, filesBelow. cbv zeta.
  destruct (readdir fs (resolve (cwd fs) rootPath)) as [entries|];
    [|reflexivity].
  unfold Scan.walkDirectory, filesOfListing.
  generalize (resolve (cwd fs) rootPath) as dirPath. intros dirPath.
  change (keep recordOf
            (filter matched (flat_map (filesOfEntry dirPath []) entries)))
    with ([] ++ keep recordOf
            (filter matched (flat_map (filesOfEntry dirPath []) entries))).
  generalize (@nil Scan.ScannedFile) as files.
  induction entries as [|e es IH]; intros files.
  - cbn. now rewrite app_nil_r.
  - cbn [fold_left flat_map].
    rewrite (@walkEntry_records e dirPath [] files eq_refl), IH.
    now rewrite filter_app, keep_app, app_assoc.
Qed.

Lemma keep_Forall2 : forall (A B : Type) (f : A -> option B) xs,
  (forall x, In x xs -> f x <> None) ->
  Forall2 (fun y x => f x = Some y) (keep f xs) xs.
Proof.
  intros A B f xs Hall. induction xs as [|x xs IH]; cbn; [constructor|].
  destruct (f x) eqn:Hx.
  - constructor; [assumption|]. apply IH. intros y Hy. apply Hall.
    now right.
  - exfalso. apply (Hall x); [now left|assumption].
Qed.

Lemma keep_In : forall (A B : Type) (f : A -> option B) xs x y,
  In x xs -> f x = Some y -> In y (keep f xs).
Proof.
  intros A B f xs x y Hin Hx. unfold keep. apply in_flat_map.
  exists x. split; [assumption|]. rewrite Hx. now left.
Qed.

Lemma keep_In_inv : forall (A B : Type) (f : A -> option B) xs y,
  In y (keep f xs) -> exists x, In x xs /\ f x = Some y.
Proof.
  intros A B f xs y Hin. unfold keep in Hin. apply in_flat_map in Hin.
  destruct Hin as [x [Hx Hy]]. exists x. split; [assumption|].
  destruct (f x); [|destruct Hy]. destruct Hy as [->|[]]. reflexivity.
Qed.

Lemma recordOf_recordsFile : forall l r,
  recordOf l = Some r -> recordsFile r l.
Proof.
  intros l r. unfold recordOf, recordsFile.
  destruct (fileData l); [|discriminate]. intros [= <-]. cbn. auto.
Qed.

Lemma supported_lower_case : forall ext,
  In ext Scan.SUPPORTED_EXTENSIONS -> toLowerCase ext = ext.
Proof.
  intros ext Hin. cbn in Hin.
  repeat (destruct Hin as [<-|Hin]; [reflexivity|]). destruct Hin.
Qed.

(** C8, as the code has it.  The files that count are the regular files
    that the walk comes to: those reached from the root of the scan
    through directories that can be listed ([filesBelow]).  For every tree
    in which all matched files among them are readable, [scanRepository]
    returns exactly one record per such file whose extension, once
    lower-cased, is in the allow-list and that does not lie beneath a
    directory of the scanned tree whose exact name is in the ignore-list,
    in the order of the walk; all other files, and all files beneath an
    ignored directory at any depth, produce no record.  Neither does a
    file beneath a directory that cannot be listed, nor one that is
    reached through a symbolic link, though either may be read by its
    path. *)
Theorem scan_records_matched_files : forall fs rootPath,
  (forall l, In l (filesBelow fs rootPath) -> matched l = true ->
             fileData l <> None) ->
  Forall2 recordsFile (Scan.scanRepository fs rootPath)
    (filter matched (filesBelow fs rootPath)) /\
  List.length (Scan.scanRepository fs rootPath) =
    countIf matched (filesBelow fs rootPath) /\
  (forall l, matched l = allowed l && notIgnored l) /\
  Scan.SUPPORTED_EXTENSIONS =
    [".ts"; ".js"; ".wgsl"; ".html"; ".css"; ".json"; ".glsl"] /\
  Scan.IGNORED_DIRS =
    ["node_modules"; ".git"; "dist"; "build"; ".next"; "coverage";
     "__pycache__"].
Proof.
  intros fs rootPath Hreadable.
  assert (Hall : forall l,
            In l (filter matched (filesBelow fs rootPath)) ->
            recordOf l <> None).
  { intros l Hl. apply filter_In in Hl. destruct Hl as [Hin Hm].
    specialize (Hreadable l Hin Hm). unfold recordOf.
    destruct (fileData l); [discriminate|contradiction]. }
  pose proof (keep_Forall2 recordOf _ Hall) as Hrecords.
  rewrite scanRepository_records. split; [|split; [|repeat split]].
  - eapply Forall2_impl; [|exact Hrecords].
    intros r l. apply recordOf_recordsFile.
  - unfold countIf. now apply keep_all_length.
Qed.

Lemma scan_records_matched_files_witness :
  map Scan.path (Scan.scanRepository Sample.mixedProject "/app") =
    ["/app/index.Js"; "/app/src/data.JSON"; "/app/src/view.html"] /\
  map location (filesBelow Sample.mixedProject "/app") =
    ["/app/index.Js"; "/app/notes.md"; "/app/node_modules/pkg/lib.js";
     "/app/src/data.JSON"; "/app/src/dist/out.js"; "/app/src/view.html"] /\
  readdir Sample.mixedProject "/app/peek" = None /\
  readFileSync Sample.mixedProject "/app/peek/c.ts" = Some "let c = 0" /\
  readFileSync Sample.mixedProject "/app/link.ts" = Some "start()" /\
  List.length (Scan.scanRepository Sample.mixedProject "/app") =
    countIf matched (filesBelow Sample.mixedProject "/app").
Proof.
  split; [vm_compute; reflexivity|]. split; [vm_compute; reflexivity|].
  split; [vm_compute; reflexivity|]. split; [vm_compute; reflexivity|].
  split; [vm_compute; reflexivity|].
  apply (@scan_records_matched_files Sample.mixedProject "/app").
  intros l Hin _. vm_compute in Hin.
  repeat (destruct Hin as [<-|Hin]; [discriminate|]). destruct Hin.
Defined.

(** C8 fails as stated: the extension [.TS] of [Main.TS] is not in the
    allow-list, yet the scan returns a record for the file. *)
Lemma upper_case_extension_is_scanned :
  extname "Main.TS" = ".TS" /\
  mem ".TS" Scan.SUPPORTED_EXTENSIONS = false /\
  filter allowedAsWritten (filesBelow Sample.shoutingProject "/app") = [] /\
  Scan.scanRepository Sample.shoutingProject "/app" =
    [{| Scan.file := "Main.TS"; Scan.path := "/app/Main.TS";
        Scan.content := "let main = 0"; Scan.extension := ".ts" |}].
Proof.
  repeat split; vm_compute; reflexivity.
Qed.

(** C10: the walk compares extensions without regard to letter case.  A
    file of the scanned tree whose extension equals an allow-listed one up
    to letter case, that lies beneath no ignored directory and can be read,
    is in the result of [scanRepository], and the extension of its record
    is the lower-cased extension of its name. *)
Theorem extension_case_is_ignored : forall fs rootPath l content,
  In l (filesBelow fs rootPath) ->
  (exists ext, In ext Scan.SUPPORTED_EXTENSIONS /\
               toLowerCase (extname (fileName l)) = toLowerCase ext) ->
  notIgnored l = true ->
  fileData l = Some content ->
  In {| Scan.file := fileName l; Scan.path := location l;
        Scan.content := content;
        Scan.extension := toLowerCase (extname (fileName l)) |}
    (Scan.scanRepository fs rootPath).
Proof.
  intros fs rootPath l content Hin [ext [Hext Hcase]] Hdirs Hdata.
  rewrite scanRepository_records. apply keep_In with (x := l).
  - apply filter_In. split; [assumption|].
    unfold matched, allowed. rewrite Hdirs, andb_true_r, Hcase.
    rewrite (supported_lower_case Hext). now apply mem_In.
  - unfold recordOf. now rewrite Hdata.
Qed.

Lemma extension_case_is_ignored_witness :
  In {| Scan.file := "data.JSON"; Scan.path := "/app/src/data.JSON";
        Scan.content := "{}"; Scan.extension := ".json" |}
    (Scan.scanRepository Sample.mixedProject "/app").
Proof.
  apply (@extension_case_is_ignored Sample.mixedProject "/app"
           {| dirs := ["src"]; location := "/app/src/data.JSON";
              fileName := "data.JSON"; fileData := Some "{}" |} "{}").
  - vm_compute. tauto.
  - exists ".json". split; [vm_compute; tauto|vm_compute; reflexivity].
  - vm_compute. reflexivity.
  - reflexivity.
Defined.

(** *** The regular expressions of the source

    The matcher is sound for the relation [Matches]; it follows that the
    patterns of the source never match the empty string, so the loops over
    [exec] end and [match_all] has fuel to spare, and that the capture
    groups which the source reads are always set. *)

Lemma run_sound : forall r st k res,
  Regex.run r st k = Some res ->
  exists st1, Regex.Matches r st st1 /\ k st1 = Some res.
Proof.
  induction r as [|p| |r1 IH1 r2 IH2|r1 IH1 r2 IH2|greedy r1 IH1|i r1 IH1];
    intros st k res Hrun; cbn [Regex.run] in Hrun.
  - exists st. split; [constructor|assumption].
  - destruct (Regex.rest st) as [|c s'] eqn:Hrest; [discriminate|].
    destruct (p c) eqn:Hp; [|discriminate].
    exists (Regex.MState (S (Regex.pos st)) s' (Regex.caps st)).
    split; [apply Regex.MatchesChar with c; assumption|assumption].
  - destruct (Regex.pos st =? 0) eqn:Hpos; [|discriminate].
    apply Nat.eqb_eq in Hpos. exists st. split; [now constructor|assumption].
  - apply IH1 in Hrun. destruct Hrun as [st1 [H1 Hrun]].
    apply IH2 in Hrun. destruct Hrun as [st2 [H2 Hk]].
    exists st2. split; [now apply Regex.MatchesSeq with st1|assumption].
  - unfold Regex.or_else in Hrun.
    destruct (Regex.run r1 st k) eqn:Hleft.
    + apply IH1 in Hleft. destruct Hleft as [st1 [H1 Hk]].
      exists st1. split; [now apply Regex.MatchesAltL|congruence].
    + apply IH2 in Hrun. destruct Hrun as [st1 [H2 Hk]].
      exists st1. split; [now apply Regex.MatchesAltR|assumption].
  - revert Hrun. generalize (String.length (Regex.rest st)) as fuel.
    intros fuel. revert st. induction fuel as [|fuel IHfuel]; intros st Hrun.
    + exists st. split; [constructor|assumption].
    + assert (Honce :
        Regex.run r1 st
          (fun st1 =>
             if Regex.pos st <? Regex.pos st1
             then Regex.iterate greedy (Regex.run r1) k fuel st1
             else None) = Some res ->
        exists st2, Regex.Matches (Regex.Star greedy r1) st st2 /\
                    k st2 = Some res).
      { intros Hstep. apply IH1 in Hstep.
        destruct Hstep as [st1 [H1 Hk]].
        destruct (Regex.pos st <? Regex.pos st1) eqn:Hlt; [|discriminate].
        apply Nat.ltb_lt in Hlt. apply IHfuel in Hk.
        destruct Hk as [st2 [H2 Hk]]. exists st2.
        split; [now apply Regex.MatchesStarStep with st1|assumption]. }
      cbn [Regex.iterate] in Hrun. cbv zeta in Hrun.
      unfold Regex.or_else in Hrun. destruct greedy.
      * destruct (Regex.run r1 st _) eqn:Hfirst.
        -- apply Honce. congruence.
        -- exists st. split; [constructor|assumption].
      * destruct (k st) eqn:Hstop.
        -- exists st. split; [constructor|congruence].
        -- now apply Honce.
  - apply IH1 in Hrun. destruct Hrun as [st1 [H1 Hk]].
    eexists. split; [apply Regex.MatchesGroup; eassumption|assumption].
Qed.

(** A match only moves forward, by as many characters as it consumes. *)
Lemma Matches_consumes : forall r st st1,
  Regex.Matches r st st1 ->
  Regex.pos st + Regex.minLength r <= Regex.pos st1 /\
  String.length (Regex.rest st) =
    (Regex.pos st1 - Regex.pos st) + String.length (Regex.rest st1).
Proof.
  intros r st st1 H. induction H; cbn [Regex.minLength Regex.pos Regex.rest];
    try lia.
  - rewrite H. cbn [String.length]. lia.
Qed.

Lemma substring_nonempty : forall n s,
  0 < n -> 0 < String.length s -> substring 0 n s <> "".
Proof.
  intros [|n] [|c s]; cbn; intros; try lia. discriminate.
Qed.

(** The captures of a match extend those of the state it started in. *)
Lemma Matches_captures : forall r st st1,
  Regex.Matches r st st1 ->
  exists new,
    Regex.caps st1 = new ++ Regex.caps st /\
    (forall i, Regex.defines i r = true -> exists s, In (i, s) new) /\
    (Regex.capturesText r = true -> forall i s, In (i, s) new -> s <> "").
Proof.
  intros r st st1 H.
  induction H; cbn [Regex.caps Regex.defines Regex.capturesText].
  - exists []. repeat split; [discriminate|intros _ i s []].
  - exists []. repeat split; [discriminate|intros _ i s []].
  - exists []. repeat split; [discriminate|intros _ i s []].
  - destruct IHMatches1 as [new1 [Hc1 [Hd1 Ht1]]].
    destruct IHMatches2 as [new2 [Hc2 [Hd2 Ht2]]].
    exists (new2 ++ new1). split; [|split].
    + now rewrite Hc2, Hc1, app_assoc.
    + intros i Hi. apply orb_true_iff in Hi. destruct Hi as [Hi|Hi].
      * destruct (Hd1 i Hi) as [s Hs]. exists s. apply in_or_app. now right.
      * destruct (Hd2 i Hi) as [s Hs]. exists s. apply in_or_app. now left.
    + intros Ht i s Hin. apply andb_true_iff in Ht. destruct Ht as [Ha Hb].
      apply in_app_or in Hin. destruct Hin; eauto.
  - destruct IHMatches as [new [Hc [Hd Ht]]]. exists new. split; [|split].
    + assumption.
    + intros i Hi. apply andb_true_iff in Hi. now apply Hd.
    + intros Hboth. apply andb_true_iff in Hboth. now apply Ht.
  - destruct IHMatches as [new [Hc [Hd Ht]]]. exists new. split; [|split].
    + assumption.
    + intros i Hi. apply andb_true_iff in Hi. now apply Hd.
    + intros Hboth. apply andb_true_iff in Hboth. now apply Ht.
  - exists []. repeat split; [discriminate|intros _ i s []].
  - destruct IHMatches1 as [new1 [Hc1 [_ Ht1]]].
    destruct IHMatches2 as [new2 [Hc2 [_ Ht2]]].
    exists (new2 ++ new1). split; [|split].
    + now rewrite Hc2, Hc1, app_assoc.
    + discriminate.
    + intros Ht i s Hin. apply in_app_or in Hin. destruct Hin; eauto.
  - destruct IHMatches as [new [Hc [Hd Ht]]].
    exists ((i, substring 0 (Regex.pos st1 - Regex.pos st) (Regex.rest st))
              :: new).
    split; [|split].
    + cbn. now rewrite Hc.
    + intros j Hj. apply orb_true_iff in Hj. destruct Hj as [Hj|Hj].
      * apply Nat.eqb_eq in Hj. subst j. eexists. now left.
      * destruct (Hd j Hj) as [s Hs]. exists s. now right.
    + intros Hboth j s Hin. apply andb_true_iff in Hboth.
      destruct Hboth as [Hmin Hrest]. apply Nat.ltb_lt in Hmin.
      destruct Hin as [[= <- <-]|Hin]; [|now apply (Ht Hrest j)].
      pose proof (Matches_consumes H) as [Hpos Hlen].
      apply substring_nonempty; lia.
Qed.

(** A match that [search] finds is a match of the pattern from an empty set
    of captures, at or after the index where the search began. *)
Lemma search_sound : forall r s i m,
  Regex.search r i s = Some m ->
  exists s',
    i <= Regex.m_start m /\
    String.length s' + (Regex.m_start m - i) = String.length s /\
    Regex.Matches r (Regex.MState (Regex.m_start m) s' []) (Regex.m_end m).
Proof.
  intros r s. induction s as [|c s IH]; intros i m Hsearch;
    cbn [Regex.search] in Hsearch.
  - destruct (Regex.run r _ Some) as [st|] eqn:Hrun; [|discriminate].
    injection Hsearch as <-. apply run_sound in Hrun.
    destruct Hrun as [st1 [Hm [= ->]]]. exists "". cbn. 
    split; [lia|split; [lia|assumption]].
  - destruct (Regex.run r _ Some) as [st|] eqn:Hrun.
    + injection Hsearch as <-. apply run_sound in Hrun.
      destruct Hrun as [st1 [Hm [= ->]]]. exists (String c s). cbn.
      split; [lia|split; [lia|assumption]].
    + apply IH in Hsearch. destruct Hsearch as [s' [Hle [Hlen Hm]]].
      exists s'. cbn. split; [lia|split; [lia|assumption]].
Qed.

Lemma capture_found : forall i m s,
  In (i, s) (Regex.caps (Regex.m_end m)) ->
  exists s', Regex.capture i m = Some s' /\
             In (i, s') (Regex.caps (Regex.m_end m)).
Proof.
  intros i m s Hin. unfold Regex.capture.
  destruct (find _ _) as [[j s']|] eqn:Hfind.
  - apply find_some in Hfind. destruct Hfind as [Hin' Heq].
    apply Nat.eqb_eq in Heq. cbn in Heq. subst j. eauto.
  - exfalso. apply (find_none _ _ Hfind) in Hin. cbn in Hin.
    now rewrite Nat.eqb_refl in Hin.
Qed.

(** A capture group that every match sets is never [undefined], and holds
    text when every group of the pattern consumes some. *)
Lemma search_capture : forall r s i m g,
  Regex.search r i s = Some m ->
  Regex.defines g r = true ->
  exists text,
    Regex.capture g m = Some text /\
    (Regex.capturesText r = true -> text <> "").
Proof.
  intros r s i m g Hsearch Hdef. apply search_sound in Hsearch.
  destruct Hsearch as [s' [_ [_ Hm]]].
  apply Matches_captures in Hm. cbn [Regex.caps] in Hm.
  destruct Hm as [new [Hcaps [Hd Ht]]]. rewrite app_nil_r in Hcaps.
  destruct (Hd g Hdef) as [t Hin]. rewrite <- Hcaps in Hin.
  destruct (@capture_found _ _ _ Hin) as [text [Hcap Hin']].
  exists text. split; [assumption|]. intros Htext.
  rewrite Hcaps in Hin'. exact (Ht Htext g text Hin').
Qed.

Lemma import_module_defined : forall line m,
  Regex.match_first Dependency.importPattern line = Some m ->
  Dependency.orCapture (Regex.capture 1 m) (Regex.capture 2 m) <> None.
Proof.
  intros line m Hmatch. unfold Regex.match_first in Hmatch.
  apply search_sound in Hmatch. destruct Hmatch as [s' [_ [_ Hm]]].
  assert (Hside : forall r g,
    Regex.Matches r (Regex.MState (Regex.m_start m) s' [])
      (Regex.m_end m) ->
    Regex.defines g r = true -> Regex.capturesText r = true ->
    exists text, Regex.capture g m = Some text /\ text <> "").
  { intros r g Hr Hdef Htext. apply Matches_captures in Hr.
    cbn [Regex.caps] in Hr. destruct Hr as [new [Hcaps [Hd Ht]]].
    rewrite app_nil_r in Hcaps. destruct (Hd g Hdef) as [t Hin].
    rewrite <- Hcaps in Hin.
    destruct (@capture_found _ _ _ Hin) as [text [Hcap Hin']].
    exists text. split; [assumption|]. rewrite Hcaps in Hin'.
    exact (Ht Htext g text Hin'). }
  unfold Dependency.importPattern in Hm.
  inversion Hm as [| | | |r1 r2 st st1 Hleft|r1 r2 st st1 Hright| | |];
    subst.
  - destruct (Hside _ 1 Hleft eq_refl eq_refl) as [text [-> Hne]].
    cbn [Dependency.orCapture].
    destruct (String.eqb_spec text ""); [contradiction|discriminate].
  - destruct (Hside _ 2 Hright eq_refl eq_refl) as [text [Hcap Hne]].
    unfold Dependency.orCapture. rewrite Hcap.
    destruct (Regex.capture 1 m) as [t|]; [|discriminate].
    destruct (String.eqb t ""); discriminate.
Qed.

Lemma require_module_defined : forall line m,
  Regex.match_first Dependency.requirePattern line = Some m ->
  Regex.capture 1 m <> None.
Proof.
  intros line m Hmatch. unfold Regex.match_first in Hmatch.
  destruct (@search_capture _ _ _ _ 1 Hmatch eq_refl) as [text [-> _]].
  discriminate.
Qed.

Lemma matches_from_In : forall fuel r i s m,
  In m (Regex.matches_from fuel r i s) ->
  exists j t, Regex.search r j t = Some m.
Proof.
  induction fuel as [|fuel IH]; intros r i s m Hin; [destruct Hin|].
  cbn [Regex.matches_from] in Hin.
  destruct (Regex.search r i s) as [m'|] eqn:Hsearch; [|destruct Hin].
  destruct Hin as [<-|Hin]; [eauto|]. now apply IH in Hin.
Qed.

Lemma path_group_defined : forall pattern errorLog m,
  In pattern Reader.patterns ->
  In m (Regex.match_all pattern errorLog) ->
  Regex.capture 1 m <> None.
Proof.
  intros pattern errorLog m Hpattern Hm. unfold Regex.match_all in Hm.
  apply matches_from_In in Hm. destruct Hm as [j [t Hsearch]].
  assert (Hdef : Regex.defines 1 pattern = true).
  { cbn in Hpattern.
    repeat (destruct Hpattern as [<-|Hpattern]; [reflexivity|]).
    destruct Hpattern. }
  destruct (@search_capture _ _ _ _ 1 Hsearch Hdef) as [text [-> _]].
  discriminate.
Qed.

(** Fuel: a pattern that consumes at least one character per match is
    matched at most once per character, so more fuel than the length of
    the input changes nothing. *)
Lemma matches_from_fuel : forall r,
  0 < Regex.minLength r ->
  forall fuel extra i s,
    String.length s < fuel ->
    Regex.matches_from (fuel + extra) r i s = Regex.matches_from fuel r i s.
Proof.
  intros r Hmin. induction fuel as [|fuel IH]; intros extra i s Hlen;
    [lia|].
  cbn [Nat.add Regex.matches_from].
  destruct (Regex.search r i s) as [m|] eqn:Hsearch; [|reflexivity].
  f_equal. apply IH.
  apply search_sound in Hsearch. destruct Hsearch as [s' [Hle [Hs' Hm]]].
  apply Matches_consumes in Hm. cbn [Regex.pos Regex.rest] in Hm. lia.
Qed.

Lemma source_patterns_consume :
  Forall (fun r => 0 < Regex.minLength r)
    (BugAnalyzer.filePattern :: Dependency.importPattern
       :: Dependency.requirePattern :: Reader.patterns).
Proof.
  repeat constructor.
Qed.

Lemma match_all_fuel : forall r errorLog extra,
  In r (BugAnalyzer.filePattern :: Reader.patterns) ->
  Regex.matches_from (S (String.length errorLog) + extra) r 0 errorLog =
  Regex.match_all r errorLog.
Proof.
  intros r errorLog extra Hr. unfold Regex.match_all.
  apply matches_from_fuel; [|lia].
  pose proof source_patterns_consume as Hall.
  rewrite Forall_forall in Hall. apply Hall.
  destruct Hr as [<-|Hr]; [now left|]. right. right. now right.
Qed.

(** *** The walk by path

    [walkEntry] takes what [readdir] and [readFile] return from the tree
    itself.  Wherever the file system answers by path what the tree holds,
    the walk that the source writes, by path and with enough fuel for the
    depth of the tree, computes the same records. *)

Lemma coherent_dir : forall fs dirPath name entries,
  coherent fs dirPath (Dir name true entries) <->
  readdir fs (join2 dirPath name) = Some entries /\
  Forall (coherent fs (join2 dirPath name)) entries.
Proof.
  intros. cbn [coherent].
  assert (Hall : forall es,
    (fix all (es : list entry) : Prop :=
       match es with
       | [] => True
       | e' :: es' => coherent fs (join2 dirPath name) e' /\ all es'
       end) es <-> Forall (coherent fs (join2 dirPath name)) es).
  { induction es as [|e es IH]; split; intros H.
    - constructor.
    - exact I.
    - destruct H as [He Hes]. constructor; [assumption|now apply IH].
    - inversion H; subst. split; [assumption|now apply IH]. }
  now rewrite Hall.
Qed.

Lemma depth_dir : forall name entries e,
  In e entries -> depth e < depth (Dir name true entries).
Proof.
  intros name entries e Hin. cbn [depth].
  induction entries as [|e' es IH]; [destruct Hin|].
  destruct Hin as [->|Hin]; [lia|]. specialize (IH Hin). lia.
Qed.

Lemma stepByPath_walkEntry : forall e fs dirPath files fuel,
  coherent fs dirPath e -> depth e <= fuel ->
  Scan.stepByPath (Scan.walkByPath fuel fs) fs dirPath files e =
  Scan.walkEntry dirPath files e.
Proof.
  induction e as [name data|name listable entries IH|name target|name]
    using entry_tree_ind; intros fs dirPath files fuel Hcoherent Hdepth.
  - cbn [coherent] in Hcoherent.
    cbn [Scan.stepByPath Scan.walkEntry entryName]. now rewrite Hcoherent.
  - destruct listable; cycle 1.
    { cbn [coherent] in Hcoherent.
      cbn [Scan.stepByPath Scan.walkEntry entryName].
      destruct (negb _); [|reflexivity].
      destruct fuel as [|fuel]; [reflexivity|].
      cbn [Scan.walkByPath]. now rewrite Hcoherent. }
    apply coherent_dir in Hcoherent. destruct Hcoherent as [Hdir Hall].
    rewrite walkEntry_dir. cbn [Scan.stepByPath entryName].
    destruct (negb _); [|reflexivity].
    destruct fuel as [|fuel]; [cbn [depth] in Hdepth; lia|].
    cbn [Scan.walkByPath]. rewrite Hdir.
    assert (Hdeep : forall e, In e entries -> depth e <= fuel).
    { intros e He. pose proof (depth_dir name _ _ He). lia. }
    clear Hdir Hdepth. revert files.
    induction IH as [|e es He Hes IHes]; intros files; [reflexivity|].
    inversion Hall; subst. cbn [fold_left].
    rewrite He by (try assumption; apply Hdeep; now left).
    apply IHes; [assumption|]. intros e' He'. apply Hdeep. now right.
  - reflexivity.
  - reflexivity.
Qed.

(** The walk by path computes what [scanRepository] returns. *)
Lemma walkByPath_scanRepository : forall fs rootPath entries fuel,
  readdir fs (resolve (cwd fs) rootPath) = Some entries ->
  Forall (coherent fs (resolve (cwd fs) rootPath)) entries ->
  (forall e, In e entries -> depth e < fuel) ->
  Scan.walkByPath fuel fs (resolve (cwd fs) rootPath) [] =
  Scan.scanRepository fs rootPath.
Proof.
  intros fs rootPath entries fuel Hroot Hall Hdeep.
  unfold Scan.scanRepository. cbv zeta. rewrite Hroot.
  destruct fuel as [|fuel].
  - destruct entries as [|e es]; [reflexivity|].
    specialize (Hdeep e (or_introl eq_refl)). lia.
  - cbn [Scan.walkByPath Scan.walkDirectory]. rewrite Hroot. clear Hroot.
    generalize (@nil Scan.ScannedFile) as files.
    induction Hall as [|e es He Hes IHes]; intros files; [reflexivity|].
    cbn [fold_left]. rewrite stepByPath_walkEntry.
    + apply IHes. intros e' He'. apply Hdeep. now right.
    + assumption.
    + specialize (Hdeep e (or_introl eq_refl)). lia.
Qed.

Lemma walkByPath_sample :
  Scan.walkByPath 3 Sample.mixedProject "/app" [] =
  Scan.scanRepository Sample.mixedProject "/app".
Proof.
  apply (@walkByPath_scanRepository Sample.mixedProject "/app"
           Sample.mixedEntries 3).
  - vm_compute. reflexivity.
  - repeat constructor; vm_compute; reflexivity.
  - intros e He. cbn in He.
    repeat (destruct He as [<-|He]; [cbn; lia|]). destruct He.
Qed.

(** ** Further properties of the scanner *)

Lemma walkDirectory_records : forall dirPath entries files,
  Scan.walkDirectory dirPath (Some entries) files =
  files ++ keep recordOf (filter matched (filesOfListing dirPath [] entries)).
Proof.
  intros dirPath entries. unfold Scan.walkDirectory, filesOfListing.
  induction entries as [|e es IH]; intros files.
  - cbn. now rewrite app_nil_r.
  - cbn [fold_left flat_map].
    rewrite (@walkEntry_records e dirPath [] files eq_refl), IH.
    now rewrite filter_app, keep_app, app_assoc.
Qed.

Lemma walkEntry_passedOver : forall e dirPath files,
  passedOver e = true -> Scan.walkEntry dirPath files e = files.
Proof.
  intros [name data|name listable entries|name target|name] dirPath files
    Hover.
  - cbn [Scan.walkEntry passedOver] in *.
    destruct (mem _ Scan.SUPPORTED_EXTENSIONS); [|reflexivity].
    destruct data; [discriminate|reflexivity].
  - destruct listable.
    + rewrite walkEntry_dir. cbn [passedOver negb] in Hover.
      rewrite orb_false_r in Hover. now rewrite Hover.
    + cbn [Scan.walkEntry]. now destruct (negb _).
  - reflexivity.
  - reflexivity.
Qed.

(** X1: a failure is local to its entry.  An entry that cannot be read or
    listed, like one that is ignored, unsupported or of another kind, leaves
    the result of [walkDirectory] exactly as if the entry were not there:
    the records found before it are kept and the walk goes on after it. *)
Theorem walk_skips_failures : forall dirPath before e after files,
  passedOver e = true ->
  Scan.walkDirectory dirPath (Some (before ++ e :: after)) files =
  Scan.walkDirectory dirPath (Some (before ++ after)) files.
Proof.
  intros dirPath before e after files Hover. unfold Scan.walkDirectory.
  rewrite !fold_left_app. cbn [fold_left].
  now rewrite (walkEntry_passedOver _ _ _ Hover).
Qed.

Lemma walk_skips_failures_witness :
  Scan.walkDirectory "/app"
    (Some ([File "a.ts" (Some "a")]
           ++ Dir "locked" false [File "c.ts" (Some "c")]
           :: [File "b.js" (Some "b")])) [] =
  Scan.walkDirectory "/app"
    (Some ([File "a.ts" (Some "a")] ++ [File "b.js" (Some "b")])) [].
Proof.
  apply (@walk_skips_failures "/app" [File "a.ts" (Some "a")]
           (Dir "locked" false [File "c.ts" (Some "c")])
           [File "b.js" (Some "b")] []).
  reflexivity.
Defined.

Lemma isAbsolute_append : forall a b,
  isAbsolute a = true -> isAbsolute (a ++ b) = true.
Proof.
  intros [|c a] b; [discriminate|]. unfold isAbsolute, startsWith.
  cbn [append prefix]. destruct (Ascii.ascii_dec "/" c); [|discriminate].
  intros _. now destruct (a ++ b)%string.
Qed.

Lemma normalize_absolute : forall p,
  isAbsolute p = true -> isAbsolute (normalize p) = true.
Proof.
  intros p Habs. unfold normalize.
  destruct (String.eqb_spec p "") as [->|_]; [discriminate|].
  rewrite Habs. cbn [negb].
  destruct (String.eqb _ ""); [reflexivity|].
  destruct (endsWithSlash p); now apply isAbsolute_append.
Qed.

Lemma join2_absolute : forall a b,
  isAbsolute a = true -> isAbsolute (join2 a b) = true.
Proof.
  intros a b Habs. unfold join2.
  destruct (String.eqb_spec a "") as [->|_]; [discriminate|].
  destruct (String.eqb b "").
  - now apply normalize_absolute.
  - apply normalize_absolute. now apply isAbsolute_append.
Qed.

Lemma resolve_absolute : forall cwd p, isAbsolute (resolve cwd p) = true.
Proof.
  intros. unfold resolve. now apply isAbsolute_append.
Qed.

Lemma filesOfEntry_absolute : forall e dirPath above l,
  isAbsolute dirPath = true ->
  In l (filesOfEntry dirPath above e) -> isAbsolute (location l) = true.
Proof.
  induction e as [name data|name listable entries IH|name target|name]
    using entry_tree_ind; intros dirPath above l Habs Hin.
  - destruct Hin as [<-|[]]. cbn [location]. now apply join2_absolute.
  - destruct listable; [|destruct Hin].
    rewrite filesOfEntry_dir in Hin. unfold filesOfListing in Hin.
    apply in_flat_map in Hin. destruct Hin as [e [He Hin]].
    rewrite Forall_forall in IH.
    apply (IH e He (join2 dirPath name) (above ++ [name]) l);
      [now apply join2_absolute|assumption].
  - destruct Hin.
  - destruct Hin.
Qed.

(** X2: whatever the root and the tree, every record that [scanRepository]
    returns has a name whose lower-cased extension is its [extension]
    field, that extension is one of the allow-list, and its path is
    absolute, also when the root was given as a relative path. *)
Theorem scan_record_invariants : forall fs rootPath,
  Forall
    (fun r =>
       Scan.extension r = toLowerCase (extname (Scan.file r)) /\
       In (Scan.extension r) Scan.SUPPORTED_EXTENSIONS /\
       isAbsolute (Scan.path r) = true)
    (Scan.scanRepository fs rootPath).
Proof.
  intros fs rootPath. rewrite scanRepository_records.
  apply Forall_forall. intros r Hr. apply keep_In_inv in Hr.
  destruct Hr as [l [Hl Hrec]]. apply filter_In in Hl.
  destruct Hl as [Hin Hmatched].
  apply recordOf_recordsFile in Hrec.
  destruct Hrec as [Hfile [Hpath [_ Hext]]].
  rewrite Hext, Hfile, Hpath. split; [reflexivity|]. split.
  - apply mem_In. unfold matched, allowed in Hmatched.
    now apply andb_true_iff in Hmatched.
  - unfold filesBelow in Hin.
    destruct (readdir fs _) as [entries|]; [|destruct Hin].
    unfold filesOfListing in Hin. apply in_flat_map in Hin.
    destruct Hin as [e [_ Hin]].
    apply (@filesOfEntry_absolute e (resolve (cwd fs) rootPath) [] l);
      [apply resolve_absolute|assumption].
Qed.

(** X3: [walkDirectory] only appends to the array it is given: the records
    that are already there stay in place, and what is added does not
    depend on them. *)
Theorem walk_appends : forall dirPath listing files,
  Scan.walkDirectory dirPath listing files =
  files ++ Scan.walkDirectory dirPath listing [].
Proof.
  intros dirPath [entries|] files.
  - now rewrite !walkDirectory_records.
  - cbn. now rewrite app_nil_r.
Qed.

Lemma countOneMore_countFor : forall ext ext' summary,
  countFor ext' (Scan.countOneMore ext summary) =
  countFor ext' summary + (if String.eqb ext ext' then 1 else 0).
Proof.
  intros ext ext' summary. induction summary as [|[k n] summary IH].
  - cbn. destruct (String.eqb ext ext'); reflexivity.
  - cbn [Scan.countOneMore]. destruct (String.eqb_spec k ext) as [->|Hne].
    + cbn [countFor]. destruct (String.eqb ext ext'); lia.
    + cbn [countFor]. destruct (String.eqb_spec k ext') as [->|Hne'].
      * destruct (String.eqb_spec ext ext'); [congruence|lia].
      * exact IH.
Qed.

Lemma countOneMore_total : forall ext summary,
  list_sum (map snd (Scan.countOneMore ext summary)) =
  S (list_sum (map snd summary)).
Proof.
  intros ext summary. induction summary as [|[k n] summary IH].
  - reflexivity.
  - unfold list_sum in *. cbn [Scan.countOneMore].
    destruct (String.eqb k ext); cbn [map snd fold_right] in *; lia.
Qed.

Lemma countOneMore_positive : forall ext summary,
  Forall (fun entry => 0 < snd entry) summary ->
  Forall (fun entry => 0 < snd entry) (Scan.countOneMore ext summary).
Proof.
  intros ext summary Hall. induction Hall as [|[k n] summary Hn Hall IH].
  - repeat constructor.
  - cbn [Scan.countOneMore]. destruct (String.eqb k ext).
    + constructor; [cbn in *; lia|assumption].
    + constructor; assumption.
Qed.

(** X4: the summary by extension that [scanRepository] prints is exact:
    the count it holds for an extension is the number of scanned files
    with that extension, no entry has a count of 0, and the counts add up
    to the number of files. *)
Theorem extension_summary_is_exact : forall files,
  (forall ext,
     countFor ext (Scan.byExtension files) =
     countIf (fun f => String.eqb (Scan.extension f) ext) files) /\
  Forall (fun entry => 0 < snd entry) (Scan.byExtension files) /\
  list_sum (map snd (Scan.byExtension files)) = List.length files.
Proof.
  intros files. unfold Scan.byExtension.
  assert (Hgen : forall summary,
    (forall ext,
       countFor ext
         (fold_left (fun acc f => Scan.countOneMore (Scan.extension f) acc)
            files summary) =
       countFor ext summary +
       countIf (fun f => String.eqb (Scan.extension f) ext) files) /\
    (Forall (fun entry => 0 < snd entry) summary ->
     Forall (fun entry => 0 < snd entry)
       (fold_left (fun acc f => Scan.countOneMore (Scan.extension f) acc)
          files summary)) /\
    list_sum
      (map snd
         (fold_left (fun acc f => Scan.countOneMore (Scan.extension f) acc)
            files summary)) =
    list_sum (map snd summary) + List.length files).
  { induction files as [|f files IH]; intros summary.
    - unfold countIf. cbn. repeat split; auto; lia.
    - cbn [fold_left].
      destruct (IH (Scan.countOneMore (Scan.extension f) summary))
        as [Hcount [Hpos Hsum]].
      split; [|split].
      + intros ext. rewrite Hcount, countOneMore_countFor.
        unfold countIf. cbn [filter].
        destruct (String.eqb (Scan.extension f) ext); cbn; lia.
      + intros Hall. now apply Hpos, countOneMore_positive.
      + rewrite Hsum, countOneMore_total. cbn. lia. }
  destruct (Hgen []) as [Hcount [Hpos Hsum]].
  split; [|split].
  - intros ext. now rewrite Hcount.
  - apply Hpos. constructor.
  - now rewrite Hsum.
Qed.

(** ** Further properties of the dependency analyzer *)

Lemma captured_text : forall r g line m,
  Regex.match_first r line = Some m ->
  Regex.defines g r = true -> Regex.capturesText r = true ->
  exists text, Regex.capture g m = Some text /\ text <> "".
Proof.
  intros r g line m Hmatch Hdef Htext. unfold Regex.match_first in Hmatch.
  destruct (@search_capture _ _ _ _ g Hmatch Hdef) as [text [Hcap Hne]].
  exists text. split; [assumption|now apply Hne].
Qed.

Lemma import_module_text : forall line m,
  Regex.match_first Dependency.importPattern line = Some m ->
  Dependency.text
    (Dependency.orCapture (Regex.capture 1 m) (Regex.capture 2 m)) <> "".
Proof.
  intros line m Hmatch.
  pose proof (import_module_defined _ Hmatch) as Hdefined.
  unfold Dependency.orCapture in *.
  destruct (Regex.capture 1 m) as [t|] eqn:H1.
  - destruct (String.eqb_spec t "") as [->|Hne]; [|exact Hne].
    destruct (Regex.capture 2 m) as [t2|] eqn:H2; [|contradiction].
    unfold Regex.match_first in Hmatch. apply search_sound in Hmatch.
    destruct Hmatch as [s' [_ [_ Hm]]]. apply Matches_captures in Hm.
    cbn [Regex.caps] in Hm. destruct Hm as [new [Hcaps [_ Ht]]].
    rewrite app_nil_r in Hcaps. unfold Regex.capture in H1.
    destruct (find _ _) as [[j t]|] eqn:Hfind; [|discriminate].
    apply find_some in Hfind. destruct Hfind as [Hin Hj].
    cbn in Hj. apply Nat.eqb_eq in Hj. subst j. cbn in H1.
    injection H1 as ->. rewrite Hcaps in Hin.
    exfalso. now apply (Ht eq_refl 1 "" Hin).
  - destruct (Regex.capture 2 m) as [t2|] eqn:H2; [|contradiction].
    unfold Regex.match_first in Hmatch. apply search_sound in Hmatch.
    destruct Hmatch as [s' [_ [_ Hm]]]. apply Matches_captures in Hm.
    cbn [Regex.caps] in Hm. destruct Hm as [new [Hcaps [_ Ht]]].
    rewrite app_nil_r in Hcaps. unfold Regex.capture in H2.
    destruct (find _ _) as [[j t]|] eqn:Hfind; [|discriminate].
    apply find_some in Hfind. destruct Hfind as [Hin Hj].
    cbn in Hj. apply Nat.eqb_eq in Hj. subst j. cbn in H2.
    injection H2 as ->. rewrite Hcaps in Hin. cbn [Dependency.text].
    now apply (Ht eq_refl 2 t2 Hin).
Qed.

Lemma lineImports_module : forall line imp,
  In imp (lineImports line) ->
  lineImports line = [imp] /\
  exists modulePath,
    modulePath <> "" /\
    imp = Dependency.createImportInfo (trim line) modulePath.
Proof.
  intros line imp. unfold lineImports, Dependency.parseLine. cbv zeta.
  destruct (_ || _); [intros []|].
  destruct (Regex.match_first Dependency.importPattern _) as [m|] eqn:Himp.
  - intros [<-|[]]. split; [reflexivity|]. eexists. split; [|reflexivity].
    now apply import_module_text with (line := trim line).
  - destruct (Regex.match_first Dependency.requirePattern _) as [m|]
      eqn:Hreq; [|intros []].
    intros [<-|[]]. split; [reflexivity|]. eexists. split; [|reflexivity].
    destruct (@captured_text _ 1 _ _ Hreq eq_refl eq_refl) as [t [-> Hne]].
    exact Hne.
Qed.

Lemma flat_map_at_most_one : forall (A B : Type) (g : A -> list B) xs,
  (forall x, List.length (g x) <= 1) ->
  List.length (flat_map g xs) <= List.length xs.
Proof.
  intros A B g xs Hone. induction xs as [|x xs IH]; [cbn; lia|].
  cbn [flat_map]. rewrite length_app. specialize (Hone x). cbn. lia.
Qed.

(** X5: [parseImports] makes at most one record per line of the content,
    however many imports the line holds.  Every record carries the trimmed
    line as its raw text and a module path that is not empty, is relative
    exactly when the module path begins with [./] or [../], and is a
    package import exactly when it is not relative. *)
Theorem import_records : forall content,
  List.length (Dependency.parseImports content) <=
    List.length (split LF content) /\
  Forall
    (fun imp =>
       Dependency.module imp <> "" /\
       (exists line,
          In line (split LF content) /\ Dependency.raw imp = trim line) /\
       Dependency.isRelative imp =
         startsWith (Dependency.module imp) "./"
         || startsWith (Dependency.module imp) "../" /\
       Dependency.isPackage imp = negb (Dependency.isRelative imp))
    (Dependency.parseImports content).
Proof.
  intros content. rewrite parseImports_lines. split.
  - apply flat_map_at_most_one. intros line.
    destruct (lineImports_cases line) as [->|[m [_ ->]]]; cbn; lia.
  - apply Forall_forall. intros imp Himp. apply in_flat_map in Himp.
    destruct Himp as [line [Hline Himp]].
    apply lineImports_module in Himp.
    destruct Himp as [_ [m [Hm ->]]].
    cbn [Dependency.createImportInfo Dependency.module Dependency.raw
           Dependency.isRelative Dependency.isPackage].
    split; [exact Hm|]. split; [now exists line|]. split; reflexivity.
Qed.

(** X6: [resolveImport] looks at the base name of the module path only, so
    two imports with the same base name resolve alike whatever their
    directories; and the [index] fallback is global: as soon as the batch
    holds an [index] file with one of the extensions, every import
    resolves to some file, the unmatched ones to that [index] file of the
    first such extension.  It returns [null] exactly when none of the
    candidate names is in the batch. *)
Theorem resolveImport_fallbacks : forall existingFiles,
  (forall modulePath other,
     basename modulePath = basename other ->
     Dependency.resolveImport modulePath existingFiles =
     Dependency.resolveImport other existingFiles) /\
  (forall modulePath ext,
     In ext Dependency.extensions ->
     In ("index" ++ ext)%string existingFiles ->
     exists resolved,
       Dependency.resolveImport modulePath existingFiles = Some resolved /\
       In resolved existingFiles) /\
  (forall modulePath,
     Dependency.resolveImport modulePath existingFiles = None <->
     forall c, In c (candidates modulePath) -> ~ In c existingFiles).
Proof.
  intros existingFiles. split; [|split].
  - intros modulePath other Hbase. unfold Dependency.resolveImport.
    now rewrite Hbase.
  - intros modulePath ext Hext Hindex.
    destruct (Dependency.resolveImport modulePath existingFiles)
      as [resolved|] eqn:Hres.
    + exists resolved. split; [reflexivity|].
      now apply resolveImport_member in Hres.
    + exfalso. rewrite resolveImport_first_candidate in Hres.
      assert (Hcand : In ("index" ++ ext)%string (candidates modulePath)).
      { unfold candidates. right. apply in_or_app. right.
        apply in_map_iff. now exists ext. }
      pose proof (find_none _ _ Hres _ Hcand) as Hfalse. cbn beta in Hfalse.
      apply mem_In in Hindex. congruence.
  - intros modulePath. rewrite resolveImport_first_candidate. split.
    + intros Hnone c Hc Hin. apply (find_none _ _ Hnone) in Hc.
      apply mem_In in Hin. congruence.
    + intros Hall.
      destruct (find _ (candidates modulePath)) as [c|] eqn:Hfind;
        [|reflexivity].
      apply find_some in Hfind. destruct Hfind as [Hc Hmem].
      apply mem_In in Hmem. exfalso. now apply (Hall c).
Qed.

Lemma nonNull_keep : forall (A : Type) (g : A -> option string)
  (p : A -> bool) xs,
  Dependency.nonNull (map g (filter p xs)) =
  keep (fun x => if p x then g x else None) xs.
Proof.
  intros A g p xs. induction xs as [|x xs IH]; [reflexivity|].
  cbn [filter keep flat_map]. destruct (p x).
  - cbn [map Dependency.nonNull]. destruct (g x); cbn; now rewrite IH.
  - exact IH.
Qed.

Lemma analyzeFileDependencies_dependsOn : forall f allFiles,
  Dependency.dependsOn (Dependency.analyzeFileDependencies f allFiles) =
  dependenciesOf (unique (map Scan.file allFiles)) (Scan.content f).
Proof.
  intros. unfold Dependency.analyzeFileDependencies, dependenciesOf.
  cbn [Dependency.dependsOn]. apply nonNull_keep.
Qed.

Lemma buildDependencyMap_entry : forall before f after,
  (forall g, In g after -> Scan.file g <> Scan.file f) ->
  Dependency.getProperty (Scan.file f)
    (Dependency.buildDependencyMap (before ++ f :: after)) =
  Some (dependenciesOf (unique (map Scan.file (before ++ f :: after)))
          (Scan.content f)).
Proof.
  intros before f after Hlast. rewrite buildDependencyMap_mapFiles.
  generalize (unique (map Scan.file (before ++ f :: after))) as fileNames.
  intros fileNames. unfold mapFiles. rewrite fold_left_app.
  cbn [fold_left].
  change (Dependency.getProperty (Scan.file f)
            (mapFiles fileNames after
               (Dependency.setProperty (Scan.file f)
                  (dependenciesOf fileNames (Scan.content f))
                  (mapFiles fileNames before []))) =
          Some (dependenciesOf fileNames (Scan.content f))).
  rewrite mapFiles_last by exact Hlast.
  now rewrite getProperty_set, String.eqb_refl.
Qed.

(** X7: the two analyses agree.  For a file of the batch that is the last
    one of its name, the list that [buildDependencyMap] records under that
    name is the [dependsOn] list that [analyzeFileDependencies] computes
    for the file against the same batch. *)
Theorem analyses_agree : forall before f after,
  (forall g, In g after -> Scan.file g <> Scan.file f) ->
  let files := before ++ f :: after in
  Dependency.getProperty (Scan.file f) (Dependency.buildDependencyMap files) =
    Some (Dependency.dependsOn (Dependency.analyzeFileDependencies f files)) /\
  Dependency.file (Dependency.analyzeFileDependencies f files) = Scan.file f /\
  Dependency.imports (Dependency.analyzeFileDependencies f files) =
    Dependency.parseImports (Scan.content f).
Proof.
  intros before f after Hlast files. subst files.
  rewrite analyzeFileDependencies_dependsOn.
  split; [now apply buildDependencyMap_entry|]. split; reflexivity.
Qed.

Lemma analyses_agree_witness :
  let files := Scan.scanRepository Sample.helperProject "/work" in
  Dependency.getProperty "helper.ts" (Dependency.buildDependencyMap files) =
  Some ["shared.ts"].
Proof.
  cbv zeta.
  assert (Hfiles :
    Scan.scanRepository Sample.helperProject "/work" =
    [{| Scan.file := "shared.ts"; Scan.path := "/work/shared.ts";
        Scan.content := "export const x = 1"; Scan.extension := ".ts" |}]
    ++ {| Scan.file := "helper.ts"; Scan.path := "/work/utils/helper.ts";
          Scan.content := "import { x } from './shared'";
          Scan.extension := ".ts" |} :: [])
    by (vm_compute; reflexivity).
  rewrite Hfiles.
  destruct (@analyses_agree
              [{| Scan.file := "shared.ts"; Scan.path := "/work/shared.ts";
                  Scan.content := "export const x = 1";
                  Scan.extension := ".ts" |}]
              {| Scan.file := "helper.ts";
                 Scan.path := "/work/utils/helper.ts";
                 Scan.content := "import { x } from './shared'";
                 Scan.extension := ".ts" |} []) as [Hentry _].
  - intros g [].
  - cbn [Scan.file] in Hentry. rewrite Hentry. vm_compute. reflexivity.
Defined.

Lemma mem_seen_swap : forall x k keys,
  mem x (keys ++ [k]) = mem x (k :: keys).
Proof.
  intros. unfold mem. rewrite existsb_app. cbn [existsb].
  rewrite orb_false_r. apply orb_comm.
Qed.

Lemma unique_from_seen : forall xs seen seen',
  (forall x, mem x seen = mem x seen') ->
  unique_from seen xs = unique_from seen' xs.
Proof.
  induction xs as [|x xs IH]; intros seen seen' Hsame; [reflexivity|].
  cbn [unique_from]. rewrite <- (Hsame x).
  destruct (mem x seen); [now apply IH|].
  f_equal. apply IH. intros y. unfold mem in *. cbn [existsb].
  now rewrite (Hsame y).
Qed.

Lemma mapFiles_keys : forall fileNames files dm,
  map fst (mapFiles fileNames files dm) =
  map fst dm ++ unique_from (map fst dm) (map Scan.file files).
Proof.
  intros fileNames files. induction files as [|f files IH]; intros dm.
  - cbn. now rewrite app_nil_r.
  - change (mapFiles fileNames (f :: files) dm)
      with (mapFiles fileNames files
              (Dependency.setProperty (Scan.file f)
                 (dependenciesOf fileNames (Scan.content f)) dm)).
    rewrite IH, setProperty_keys. cbn [map unique_from].
    destruct (mem (Scan.file f) (map fst dm)); [reflexivity|].
    rewrite <- app_assoc. cbn [app]. do 2 f_equal.
    apply unique_from_seen. intros x. apply mem_seen_swap.
Qed.

Lemma split_chars : forall sep s seg c,
  In seg (split sep s) -> In c (chars seg) -> In c (chars s).
Proof.
  induction s as [|x s IH]; intros seg c Hseg Hc.
  - destruct Hseg as [<-|[]]. destruct Hc.
  - cbn [split] in Hseg. destruct (Ascii.eqb x sep).
    + destruct Hseg as [<-|Hseg]; [destruct Hc|].
      right. now apply (IH seg).
    + destruct (split sep s) as [|w ws] eqn:Hsplit.
      * destruct Hseg as [<-|[]]. destruct Hc as [<-|[]]. now left.
      * destruct Hseg as [<-|Hseg].
        -- destruct Hc as [<-|Hc]; [now left|].
           right. apply (IH w); [now left|assumption].
        -- right. apply (IH seg); [now right|assumption].
Qed.

Lemma dropTrailingSlashes_In : forall rsegs seg rest,
  dropTrailingSlashes rsegs = seg :: rest -> In seg rsegs.
Proof.
  induction rsegs as [|x rsegs IH]; intros seg rest Hdrop; [discriminate|].
  cbn [dropTrailingSlashes] in Hdrop. destruct (String.eqb x "").
  - right. now apply (IH seg rest).
  - injection Hdrop as -> _. now left.
Qed.

Lemma lastDot_chars : forall s found,
  lastDot s = Some found -> In DOT (chars s).
Proof.
  induction s as [|c s IH]; intros found Hlast; [discriminate|].
  cbn [lastDot] in Hlast. destruct (lastDot s) as [[before ext]|].
  - right. now apply (IH (before, ext)).
  - destruct (Ascii.eqb_spec c DOT) as [->|_]; [now left|discriminate].
Qed.

Lemma extname_dot : forall p, extname p <> "" -> In DOT (chars p).
Proof.
  intros p Hext. unfold extname in Hext. cbv zeta in Hext.
  destruct (String.eqb (basename p) ".."); [contradiction|].
  destruct (lastDot (basename p)) as [found|] eqn:Hlast; [|contradiction].
  apply lastDot_chars in Hlast. unfold basename in *.
  destruct (dropTrailingSlashes (rev (split SLASH p))) as [|seg rest]
    eqn:Hdrop; [destruct Hlast|].
  apply dropTrailingSlashes_In in Hdrop. apply in_rev in Hdrop.
  exact (split_chars _ _ _ _ Hdrop Hlast).
Qed.

(** A name with an extension of the allow-list is an ordinary key of the
    dependency map. *)
Lemma scannable_ordinaryKey : forall f,
  scannable f -> ordinaryKey (Scan.file f) = true.
Proof.
  intros f Hf. unfold scannable in Hf.
  assert (Hext : extname (Scan.file f) <> "").
  { intros Hempty. rewrite Hempty in Hf. cbn in Hf.
    repeat (destruct Hf as [Hf|Hf]; [discriminate|]). destruct Hf. }
  unfold ordinaryKey. apply andb_true_iff. split.
  - apply extname_dot in Hext.
    destruct (forallb is_digit (chars (Scan.file f))) eqn:Hdigits;
      [|reflexivity].
    rewrite forallb_forall in Hdigits. specialize (Hdigits DOT Hext).
    discriminate.
  - destruct (String.eqb_spec (Scan.file f) "__proto__") as [Hname|_];
      [|reflexivity].
    rewrite Hname in Hext. exfalso. apply Hext. reflexivity.
Qed.

(** X8: for a batch of files whose names carry an extension of the
    allow-list, as the names of all scanned files do, no name is an array
    index or [__proto__], so the object keeps its keys in the order of
    first assignment: the keys of the dependency map are the distinct file
    names of the batch, in the order in which each first occurs; files
    that share a name share one entry, and every file of the batch has an
    entry under its name. *)
Theorem dependency_map_keys : forall files,
  Forall scannable files ->
  Forall (fun f => ordinaryKey (Scan.file f) = true) files /\
  map fst (Dependency.buildDependencyMap files) =
    unique (map Scan.file files) /\
  NoDup (map fst (Dependency.buildDependencyMap files)) /\
  List.length (Dependency.buildDependencyMap files) <= List.length files /\
  (forall f, In f files ->
     exists deps,
       Dependency.getProperty (Scan.file f)
         (Dependency.buildDependencyMap files) = Some deps).
Proof.
  intros files Hscannable.
  split.
  { eapply Forall_impl; [|exact Hscannable]. apply scannable_ordinaryKey. }
  assert (Hkeys : map fst (Dependency.buildDependencyMap files) =
                  unique (map Scan.file files)).
  { rewrite buildDependencyMap_mapFiles, mapFiles_keys. reflexivity. }
  split; [exact Hkeys|]. split; [apply buildDependencyMap_NoDup|]. split.
  - rewrite <- (length_map fst), Hkeys, <- (length_map Scan.file files).
    generalize (map Scan.file files) as names. intros names. unfold unique.
    generalize (@nil string) as seen.
    induction names as [|x xs IH]; intros seen; [cbn; lia|].
    cbn [unique_from]. destruct (mem x seen).
    + specialize (IH seen). cbn. lia.
    + specialize (IH (x :: seen)). cbn. lia.
  - intros f Hf.
    assert (Hin : In (Scan.file f)
                    (map fst (Dependency.buildDependencyMap files))).
    { rewrite Hkeys. apply unique_In. now apply in_map. }
    apply in_map_iff in Hin. destruct Hin as [[k deps] [Hk Hentry]].
    cbn in Hk. subst k. exists deps.
    apply getProperty_In; [apply buildDependencyMap_NoDup|assumption].
Qed.

Lemma dependency_map_keys_witness :
  map fst
    (Dependency.buildDependencyMap
       (Scan.scanRepository Sample.helperProject "/work")) =
  ["shared.ts"; "helper.ts"].
Proof.
  destruct (@dependency_map_keys
              (Scan.scanRepository Sample.helperProject "/work"))
    as [_ [Hkeys _]].
  - repeat (constructor; [vm_compute; tauto|]). constructor.
  - rewrite Hkeys. vm_compute. reflexivity.
Defined.

Lemma dependenciesOf_members : forall fileNames content target,
  In target (dependenciesOf fileNames content) -> In target fileNames.
Proof.
  intros fileNames content target Hin. unfold dependenciesOf in Hin.
  apply keep_In_inv in Hin. destruct Hin as [imp [_ Hres]].
  destruct (Dependency.isRelative imp); [|discriminate].
  now apply resolveImport_member in Hres.
Qed.

Lemma filter_keys_NoDup : forall (p : string * list string -> bool) dm,
  NoDup (map fst dm) -> NoDup (map fst (filter p dm)).
Proof.
  intros p dm. induction dm as [|[k v] dm IH]; intros Hnd; [constructor|].
  inversion Hnd as [|? ? Hnot Hnd']; subst. cbn [filter].
  destruct (p (k, v)); [|now apply IH].
  cbn [map fst]. constructor; [|now apply IH].
  intros Hin. apply Hnot. apply in_map_iff in Hin.
  destruct Hin as [[k' v'] [Hk Hin]]. apply filter_In in Hin.
  apply in_map_iff. exists (k', v'). tauto.
Qed.

(** X9: the dependents that [findDependents] reports for a map built from
    a batch are file names of that batch, each reported once; and a name
    that no file of the batch bears has no dependents, since the map never
    records a target outside the batch. *)
Theorem dependents_within_batch : forall files targetFile,
  let dependencyMap := Dependency.buildDependencyMap files in
  NoDup (Dependency.findDependents targetFile dependencyMap) /\
  (forall name, In name (Dependency.findDependents targetFile dependencyMap) ->
                In name (map Scan.file files)) /\
  (~ In targetFile (map Scan.file files) ->
   Dependency.findDependents targetFile dependencyMap = []).
Proof.
  intros files targetFile dependencyMap. subst dependencyMap.
  rewrite findDependents_filter. split; [|split].
  - apply filter_keys_NoDup, buildDependencyMap_NoDup.
  - intros name Hin. apply in_map_iff in Hin.
    destruct Hin as [[k deps] [Hk Hin]]. cbn in Hk. subst k.
    apply filter_In in Hin. destruct Hin as [Hin _].
    rewrite buildDependencyMap_mapFiles in Hin. apply mapFiles_In in Hin.
    destruct Hin as [[]|[f [Hf [<- _]]]]. now apply in_map.
  - intros Hout. rewrite filter_none; [reflexivity|].
    intros [k deps] Hin. cbn [snd].
    destruct (mem targetFile deps) eqn:Hmem; [|reflexivity].
    exfalso. apply Hout. apply mem_In in Hmem.
    rewrite buildDependencyMap_mapFiles in Hin. apply mapFiles_In in Hin.
    destruct Hin as [[]|[f [_ [_ ->]]]].
    apply dependenciesOf_members in Hmem.
    exact (proj1 (unique_In _ _) Hmem).
Qed.

(** ** Further properties of the reader *)

Lemma argAfter_In : forall args index value,
  Reader.argAfter args index = Some value -> In value args /\ value <> "".
Proof.
  intros args index value. unfold Reader.argAfter.
  destruct (nth_error args (S index)) as [v|] eqn:Hnth; [|discriminate].
  destruct (String.eqb_spec v "") as [->|Hne]; [discriminate|].
  intros [= <-]. split; [now apply nth_error_In in Hnth|assumption].
Qed.

Lemma untilFlag_In : forall args arg,
  In arg (Reader.untilFlag args) ->
  In arg args /\ startsWith arg "--" = false.
Proof.
  induction args as [|a args IH]; intros arg Hin; [destruct Hin|].
  cbn [Reader.untilFlag] in Hin.
  destruct (startsWith a "--") eqn:Hflag; [destruct Hin|].
  destruct Hin as [<-|Hin]; [split; [now left|assumption]|].
  destruct (IH _ Hin). split; [now right|assumption].
Qed.

Lemma skipn_In : forall (A : Type) n (xs : list A) x,
  In x (skipn n xs) -> In x xs.
Proof.
  intros A n xs x Hin. rewrite <- (firstn_skipn n xs).
  apply in_or_app. now right.
Qed.

(** X10: what [readProblemFromArgs] returns, when it returns a problem:
    the description is a non-empty argument and is also the error log; the
    file paths, when present, are a non-empty list of arguments none of
    which starts with [--]; and the base path is the working directory or
    a non-empty argument. *)
Theorem args_problem_shape : forall args cwd problem,
  Reader.readProblemFromArgs args cwd = Some problem ->
  Reader.description problem <> "" /\
  In (Reader.description problem) args /\
  Reader.errorLog problem = Some (Reader.description problem) /\
  Reader.filePaths problem <> Some [] /\
  (forall filePaths, Reader.filePaths problem = Some filePaths ->
     Forall (fun p => In p args /\ startsWith p "--" = false) filePaths) /\
  (Reader.basePath problem = cwd \/
   In (Reader.basePath problem) args /\ Reader.basePath problem <> "").
Proof.
  intros args cwd problem. unfold Reader.readProblemFromArgs. cbv zeta.
  destruct (match indexOf "--error" args with
            | Some i => Some i
            | None => indexOf "--problem" args
            end) as [descIndex|]; [|discriminate].
  destruct (Reader.argAfter args descIndex) as [description|] eqn:Hdesc;
    [|discriminate].
  intros [= <-].
  cbn [Reader.description Reader.errorLog Reader.filePaths Reader.basePath].
  apply argAfter_In in Hdesc. destruct Hdesc as [Hin Hne].
  split; [exact Hne|]. split; [exact Hin|]. split; [reflexivity|].
  split; [|split].
  - destruct (0 <? List.length _) eqn:Hlen; [|discriminate].
    intros [= Hnil]. rewrite Hnil in Hlen. discriminate.
  - intros filePaths.
    destruct (0 <? List.length _); [|discriminate]. intros [= <-].
    apply Forall_forall. intros p Hp.
    destruct (indexOf "--files" args) as [filesIndex|]; [|destruct Hp].
    apply untilFlag_In in Hp. destruct Hp as [Hp Hflag].
    split; [exact (@skipn_In _ (S filesIndex) args p Hp)|assumption].
  - destruct (indexOf "--path" args) as [pathIndex|]; [|now left].
    destruct (Reader.argAfter args pathIndex) as [p|] eqn:Hpath;
      [|now left].
    right. now apply argAfter_In in Hpath.
Qed.

Lemma args_problem_shape_witness :
  Reader.readProblemFromArgs
    ["--error"; "boom at /proj/a.ts:1:1"; "--files"; "a.ts"; "b.ts";
     "--path"; "/proj"] "/home" =
  Some {| Reader.description := "boom at /proj/a.ts:1:1";
          Reader.errorLog := Some "boom at /proj/a.ts:1:1";
          Reader.filePaths := Some ["a.ts"; "b.ts"];
          Reader.basePath := "/proj" |} /\
  "boom at /proj/a.ts:1:1" <> "".
Proof.
  assert (Hrun :
    Reader.readProblemFromArgs
      ["--error"; "boom at /proj/a.ts:1:1"; "--files"; "a.ts"; "b.ts";
       "--path"; "/proj"] "/home" =
    Some {| Reader.description := "boom at /proj/a.ts:1:1";
            Reader.errorLog := Some "boom at /proj/a.ts:1:1";
            Reader.filePaths := Some ["a.ts"; "b.ts"];
            Reader.basePath := "/proj" |}) by (vm_compute; reflexivity).
  split; [exact Hrun|].
  exact (proj1 (args_problem_shape _ _ Hrun)).
Defined.

Lemma indexOf_first : forall x before after,
  ~ In x before ->
  indexOf x (before ++ x :: after) = Some (List.length before).
Proof.
  intros x before after. induction before as [|b before IH]; intros Hnot.
  - cbn. now rewrite String.eqb_refl.
  - cbn [app indexOf List.length].
    destruct (String.eqb_spec b x) as [->|Hne].
    + exfalso. apply Hnot. now left.
    + rewrite IH; [reflexivity|]. intros Hin. apply Hnot. now right.
Qed.

Lemma indexOf_absent : forall x xs, ~ In x xs -> indexOf x xs = None.
Proof.
  intros x xs. induction xs as [|y xs IH]; intros Hnot; [reflexivity|].
  cbn [indexOf]. destruct (String.eqb_spec y x) as [->|Hne].
  - exfalso. apply Hnot. now left.
  - rewrite IH; [reflexivity|]. intros Hin. apply Hnot. now right.
Qed.

Lemma argAfter_first : forall before flag after,
  Reader.argAfter (before ++ flag :: after) (List.length before) =
  match after with
  | value :: _ => if String.eqb value "" then None else Some value
  | [] => None
  end.
Proof.
  intros before flag after. unfold Reader.argAfter.
  replace (S (List.length before)) with (List.length (before ++ [flag]))
    by (rewrite length_app; cbn; lia).
  replace (before ++ flag :: after) with ((before ++ [flag]) ++ after)
    by (now rewrite <- app_assoc).
  rewrite nth_error_app2 by lia. rewrite Nat.sub_diag.
  now destruct after.
Qed.

(** X11: [--error] has precedence over [--problem].  When [--error] is
    among the arguments, the description is the argument that follows its
    first occurrence, and [readProblemFromArgs] returns [null] when that
    argument is missing or empty, also when [--problem] is given with a
    value; when neither flag is there it returns [null]. *)
Theorem error_flag_has_precedence : forall before after cwd,
  ~ In "--error" before ->
  let args := before ++ "--error" :: after in
  (Reader.readProblemFromArgs args cwd = None <-> hd "" after = "") /\
  (forall problem,
     Reader.readProblemFromArgs args cwd = Some problem ->
     Reader.description problem = hd "" after) /\
  (~ In "--problem" before ->
   Reader.readProblemFromArgs before cwd = None).
Proof.
  intros before after cwd Hfirst args. subst args.
  unfold Reader.readProblemFromArgs. cbv zeta.
  rewrite (indexOf_first _ _ after Hfirst), argAfter_first.
  split; [|split].
  - destruct after as [|value after]; [now split|]. cbn [hd].
    destruct (String.eqb_spec value "") as [->|Hne].
    + now split.
    + split; [discriminate|congruence].
  - intros problem. destruct after as [|value after]; [discriminate|].
    destruct (String.eqb value ""); [discriminate|].
    now intros [= <-].
  - intros Hproblem.
    now rewrite (indexOf_absent _ _ Hfirst), (indexOf_absent _ _ Hproblem).
Qed.

Lemma error_flag_has_precedence_witness :
  Reader.readProblemFromArgs ["--problem"; "it crashes"; "--error"] "/home" =
  None.
Proof.
  apply (@error_flag_has_precedence ["--problem"; "it crashes"] [] "/home").
  - intros [H|[H|[]]]; discriminate.
  - reflexivity.
Defined.

(** X12: in the interactive reader a files answer that is not blank always
    gives a non-empty list of explicit paths, one per comma-separated
    piece, so [findRelatedFiles] stops at the explicit-path stage whatever
    the pieces are; a blank answer gives no explicit paths.  The error log
    is never the empty string, and a blank path answer means the working
    directory. *)
Theorem interactive_answers : forall fs description errorLogAnswer
  filesAnswer pathAnswer cwd,
  let problem :=
    Reader.readProblemInteractive description errorLogAnswer filesAnswer
      pathAnswer cwd in
  (trim filesAnswer = "" -> Reader.filePaths problem = None) /\
  (trim filesAnswer <> "" ->
     exists filePaths,
       Reader.filePaths problem = Some filePaths /\
       List.length filePaths = List.length (split "," filesAnswer) /\
       0 < List.length filePaths /\
       Reader.findRelatedFiles fs problem =
         Reader.specifiedFiles fs (Reader.basePath problem) filePaths) /\
  Reader.errorLog problem <> Some "" /\
  (trim errorLogAnswer = "" -> Reader.errorLog problem = None) /\
  (trim pathAnswer = "" -> Reader.basePath problem = cwd).
Proof.
  intros fs description errorLogAnswer filesAnswer pathAnswer cwd problem.
  subst problem. unfold Reader.readProblemInteractive.
  cbn [Reader.filePaths Reader.errorLog Reader.basePath Reader.nonEmpty].
  split; [|split; [|split; [|split]]].
  - intros ->. reflexivity.
  - intros Hfiles.
    destruct (String.eqb_spec (trim filesAnswer) ""); [contradiction|].
    exists (map trim (split "," filesAnswer)).
    split; [reflexivity|]. rewrite length_map. split; [reflexivity|].
    pose proof (split_nonempty "," filesAnswer) as Hne.
    destruct (split "," filesAnswer) as [|piece pieces] eqn:Hsplit;
      [contradiction|].
    split; [cbn; lia|].
    unfold Reader.findRelatedFiles.
    cbn [Reader.filePaths Reader.basePath].
    destruct (String.eqb_spec (trim filesAnswer) ""); [contradiction|].
    reflexivity.
  - destruct (String.eqb_spec (trim errorLogAnswer) "") as [Heq|Hne];
      [discriminate|congruence].
  - intros ->. reflexivity.
  - intros ->. reflexivity.
Qed.

(** *** The paths extracted from an error log *)

Lemma append_assoc : forall a b c : string,
  ((a ++ b) ++ c = a ++ (b ++ c))%string.
Proof.
  induction a as [|x a IH]; intros b c; cbn; [reflexivity|now rewrite IH].
Qed.

Lemma append_length : forall a b : string,
  String.length (a ++ b) = String.length a + String.length b.
Proof.
  induction a as [|x a IH]; intros b; cbn; [reflexivity|now rewrite IH].
Qed.

Lemma substring_prefix : forall w x : string,
  substring 0 (String.length w) (w ++ x) = w.
Proof.
  induction w as [|c w IH]; intros x; cbn.
  - now destruct x.
  - now rewrite IH.
Qed.

Lemma Matches_lang : forall r st st1,
  Regex.Matches r st st1 ->
  exists w,
    Regex.Lang r w /\
    Regex.rest st = (w ++ Regex.rest st1)%string /\
    Regex.pos st1 = Regex.pos st + String.length w.
Proof.
  intros r st st1 H. induction H; cbn [Regex.pos Regex.rest].
  - exists "". split; [constructor|]. split; [reflexivity|cbn; lia].
  - exists (String c ""). split; [now constructor|].
    split; [assumption|cbn; lia].
  - exists "". split; [constructor|]. split; [reflexivity|cbn; lia].
  - destruct IHMatches1 as [w1 [L1 [R1 P1]]].
    destruct IHMatches2 as [w2 [L2 [R2 P2]]].
    exists (w1 ++ w2)%string. split; [now constructor|]. split.
    + now rewrite R1, R2, append_assoc.
    + rewrite append_length. lia.
  - destruct IHMatches as [w [L [R P]]]. exists w.
    split; [now apply Regex.LangAltL|auto].
  - destruct IHMatches as [w [L [R P]]]. exists w.
    split; [now apply Regex.LangAltR|auto].
  - exists "". split; [constructor|]. split; [reflexivity|cbn; lia].
  - destruct IHMatches1 as [w1 [L1 [R1 P1]]].
    destruct IHMatches2 as [w2 [L2 [R2 P2]]].
    exists (w1 ++ w2)%string. split; [now constructor|]. split.
    + now rewrite R1, R2, append_assoc.
    + rewrite append_length. lia.
  - destruct IHMatches as [w [L [R P]]]. exists w.
    split; [now constructor|auto].
Qed.

(** Where a capture comes from: the text of a capture group is a string of
    the pattern inside the group, and a part of the input. *)
Lemma Matches_capture_origin : forall r st st1,
  Regex.Matches r st st1 ->
  exists new,
    Regex.caps st1 = new ++ Regex.caps st /\
    forall i s, In (i, s) new ->
      (exists body, In body (Regex.groupBodies i r) /\ Regex.Lang body s) /\
      exists a b, Regex.rest st = (a ++ s ++ b)%string.
Proof.
  intros r st st1 H.
  induction H; cbn [Regex.caps Regex.groupBodies Regex.rest].
  - exists []. split; [reflexivity|intros i s []].
  - exists []. split; [reflexivity|intros i s []].
  - exists []. split; [reflexivity|intros i s []].
  - destruct IHMatches1 as [new1 [Hc1 Ho1]].
    destruct IHMatches2 as [new2 [Hc2 Ho2]].
    exists (new2 ++ new1). split; [now rewrite Hc2, Hc1, app_assoc|].
    intros i s Hin. apply in_app_or in Hin. destruct Hin as [Hin|Hin].
    + destruct (Ho2 i s Hin) as [[body [Hb Hl]] [a [b Hr]]]. split.
      * exists body. split; [apply in_or_app; now right|assumption].
      * destruct (Matches_lang H) as [w1 [_ [R1 _]]].
        exists (w1 ++ a)%string, b. now rewrite R1, Hr, append_assoc.
    + destruct (Ho1 i s Hin) as [[body [Hb Hl]] Hpart]. split.
      * exists body. split; [apply in_or_app; now left|assumption].
      * exact Hpart.
  - destruct IHMatches as [new [Hc Ho]]. exists new. split; [assumption|].
    intros i s Hin. destruct (Ho i s Hin) as [[body [Hb Hl]] Hpart].
    split; [|exact Hpart].
    exists body. split; [apply in_or_app; now left|assumption].
  - destruct IHMatches as [new [Hc Ho]]. exists new. split; [assumption|].
    intros i s Hin. destruct (Ho i s Hin) as [[body [Hb Hl]] Hpart].
    split; [|exact Hpart].
    exists body. split; [apply in_or_app; now right|assumption].
  - exists []. split; [reflexivity|intros i s []].
  - destruct IHMatches1 as [new1 [Hc1 Ho1]].
    destruct IHMatches2 as [new2 [Hc2 Ho2]].
    cbn [Regex.groupBodies] in Ho2.
    exists (new2 ++ new1). split; [now rewrite Hc2, Hc1, app_assoc|].
    intros i s Hin. apply in_app_or in Hin. destruct Hin as [Hin|Hin].
    + destruct (Ho2 i s Hin) as [Hbody [a [b Hr]]]. split; [exact Hbody|].
      destruct (Matches_lang H) as [w1 [_ [R1 _]]].
      exists (w1 ++ a)%string, b. now rewrite R1, Hr, append_assoc.
    + exact (Ho1 i s Hin).
  - destruct IHMatches as [new [Hc Ho]].
    destruct (Matches_lang H) as [w [L [R P]]].
    exists ((i, substring 0 (Regex.pos st1 - Regex.pos st) (Regex.rest st))
              :: new).
    split; [cbn; now rewrite Hc|].
    intros j s [[= <- <-]|Hin].
    + replace (Regex.pos st1 - Regex.pos st) with (String.length w) by lia.
      rewrite R, substring_prefix. split.
      * exists r. split; [|assumption]. rewrite Nat.eqb_refl. now left.
      * exists "", (Regex.rest st1). reflexivity.
    + destruct (Ho j s Hin) as [[body [Hb Hl]] Hpart]. split; [|exact Hpart].
      exists body. split; [apply in_or_app; now right|assumption].
Qed.

Lemma search_suffix : forall r s i m,
  Regex.search r i s = Some m ->
  exists skipped s',
    s = (skipped ++ s')%string /\
    Regex.Matches r (Regex.MState (Regex.m_start m) s' []) (Regex.m_end m).
Proof.
  intros r s. induction s as [|c s IH]; intros i m Hsearch;
    cbn [Regex.search] in Hsearch.
  - destruct (Regex.run r _ Some) as [st|] eqn:Hrun; [|discriminate].
    injection Hsearch as <-. apply run_sound in Hrun.
    destruct Hrun as [st1 [Hm [= ->]]]. exists "", "". now split.
  - destruct (Regex.run r _ Some) as [st|] eqn:Hrun.
    + injection Hsearch as <-. apply run_sound in Hrun.
      destruct Hrun as [st1 [Hm [= ->]]]. exists "", (String c s).
      now split.
    + apply IH in Hsearch. destruct Hsearch as [skipped [s' [-> Hm]]].
      exists (String c skipped), s'. now split.
Qed.

Lemma matches_from_origin : forall fuel r i s m,
  In m (Regex.matches_from fuel r i s) ->
  exists before s',
    s = (before ++ s')%string /\
    Regex.Matches r (Regex.MState (Regex.m_start m) s' []) (Regex.m_end m).
Proof.
  induction fuel as [|fuel IH]; intros r i s m Hin; [destruct Hin|].
  cbn [Regex.matches_from] in Hin.
  destruct (Regex.search r i s) as [m'|] eqn:Hsearch; [|destruct Hin].
  apply search_suffix in Hsearch.
  destruct Hsearch as [skipped [s0 [Hs Hm']]].
  destruct Hin as [<-|Hin]; [now exists skipped, s0|].
  apply IH in Hin. destruct Hin as [before [s' [Hrest Hm]]].
  destruct (Matches_lang Hm') as [w [_ [Hw _]]]. cbn [Regex.rest] in Hw.
  exists (skipped ++ w ++ before)%string, s'. split; [|assumption].
  now rewrite Hs, Hw, Hrest, !append_assoc.
Qed.

Lemma prefix_append : forall w x : string, prefix w (w ++ x) = true.
Proof.
  induction w as [|c w IH]; intros x; cbn.
  - now destruct x.
  - destruct (Ascii.ascii_dec c c); [apply IH|contradiction].
Qed.

Lemma includes_part : forall a s b : string,
  includes (a ++ s ++ b) s = true.
Proof.
  induction a as [|c a IH]; intros s b.
  - cbn [append]. destruct (s ++ b)%string eqn:Happ.
    + cbn [includes]. rewrite <- Happ, prefix_append. reflexivity.
    + cbn [includes]. rewrite <- Happ, prefix_append. reflexivity.
  - cbn [append includes]. rewrite IH. now destruct (prefix s _).
Qed.

Lemma Lang_Lit : forall c w, Regex.Lang (Regex.Lit c) w -> w = String c "".
Proof.
  intros c w H. inversion H as [|p c' Hp| | | | | | |]; subst.
  apply Ascii.eqb_eq in Hp. now subst.
Qed.

Lemma Lang_Str : forall s w, Regex.Lang (Regex.Str s) w -> w = s.
Proof.
  induction s as [|c s IH]; intros w H; cbn [Regex.Str] in H.
  - now inversion H.
  - inversion H as [| | |r1 r2 w1 w2 H1 H2| | | | |]; subst.
    apply Lang_Lit in H1. apply IH in H2. now subst.
Qed.

Lemma Lang_sourceSuffix : forall i w,
  Regex.Lang (Reader.sourceSuffix i) w ->
  In w ["ts"; "js"; "tsx"; "jsx"].
Proof.
  intros i w H. unfold Reader.sourceSuffix in H. cbn [Regex.Alts] in H.
  inversion H as [| | | | | | | |j r w' Hbody]; subst.
  inversion Hbody as [| | | |? ? ? H1|? ? ? H1| | |]; subst;
    [apply (Lang_Str "ts") in H1; subst; cbn; tauto|].
  inversion H1 as [| | | |? ? ? H2|? ? ? H2| | |]; subst;
    [apply (Lang_Str "js") in H2; subst; cbn; tauto|].
  inversion H2 as [| | | |? ? ? H3|? ? ? H3| | |]; subst.
  - apply (Lang_Str "tsx") in H3. subst. cbn. tauto.
  - apply (Lang_Str "jsx") in H3. subst. cbn. tauto.
Qed.

Lemma endsInSource_base : forall i,
  endsInSource (Regex.Seq (Regex.Lit ".") (Reader.sourceSuffix i)).
Proof.
  intros i w H. inversion H as [| | |r1 r2 w1 w2 H1 H2| | | | |]; subst.
  apply Lang_Lit in H1. apply Lang_sourceSuffix in H2. subst.
  exists "", ("." ++ w2)%string. split; [|reflexivity].
  cbn in H2. unfold sourceSuffixes.
  repeat (destruct H2 as [<-|H2]; [cbn; tauto|]). destruct H2.
Qed.

Lemma endsInSource_seq : forall a b,
  endsInSource b -> endsInSource (Regex.Seq a b).
Proof.
  intros a b Hb w H. inversion H as [| | |r1 r2 w1 w2 H1 H2| | | | |]; subst.
  destruct (Hb w2 H2) as [front [suffix [Hin ->]]].
  exists (w1 ++ front)%string, suffix. split; [assumption|].
  now rewrite append_assoc.
Qed.

Lemma path_groups_end_in_source :
  Forall
    (fun pattern =>
       forall body, In body (Regex.groupBodies 1 pattern) ->
                    endsInSource body)
    Reader.patterns.
Proof.
  unfold Reader.patterns.
  repeat constructor; intros body Hin; cbn in Hin;
    destruct Hin as [<-|[]];
    repeat (first [apply endsInSource_base | apply endsInSource_seq]).
Qed.

Lemma unique_from_NoDup : forall xs seen, NoDup (unique_from seen xs).
Proof.
  induction xs as [|x xs IH]; intros seen; cbn [unique_from].
  - constructor.
  - destruct (mem x seen); [apply IH|].
    constructor; [|apply IH]. intros Hin.
    apply unique_from_In in Hin. destruct Hin as [_ Hnot].
    apply Hnot. now left.
Qed.

Lemma extracted_origin : forall errorLog p,
  In p (Reader.extractFilesFromError errorLog) ->
  exists pattern m,
    In pattern Reader.patterns /\
    In m (Regex.match_all pattern errorLog) /\ p = Reader.group1 m.
Proof.
  intros errorLog p Hin. unfold Reader.extractFilesFromError in Hin.
  cbv zeta in Hin. apply (proj1 (unique_In _ _)) in Hin.
  rewrite (fold_left_flat_map
             (fun pattern =>
                map Reader.group1 (Regex.match_all pattern errorLog)))
    in Hin by reflexivity.
  cbn [app] in Hin. apply in_flat_map in Hin.
  destruct Hin as [pattern [Hpattern Hin]]. apply in_map_iff in Hin.
  destruct Hin as [m [<- Hm]]. now exists pattern, m.
Qed.

(** X13: [extractFilesFromError] returns each path once, and every path it
    returns is a piece of the error log that ends in [.ts], [.js], [.tsx]
    or [.jsx]; an empty log yields no path. *)
Theorem extracted_paths : forall errorLog,
  NoDup (Reader.extractFilesFromError errorLog) /\
  Forall
    (fun p =>
       endsWithOneOf sourceSuffixes p /\ includes errorLog p = true)
    (Reader.extractFilesFromError errorLog) /\
  Reader.extractFilesFromError "" = [].
Proof.
  intros errorLog. split; [apply unique_from_NoDup|].
  split; [|vm_compute; reflexivity].
  apply Forall_forall. intros p Hp. apply extracted_origin in Hp.
  destruct Hp as [pattern [m [Hpattern [Hm ->]]]].
  pose proof (path_group_defined _ _ Hpattern Hm) as Hdefined.
  unfold Regex.match_all in Hm. apply matches_from_origin in Hm.
  destruct Hm as [before [s' [Hlog Hmatch]]].
  apply Matches_capture_origin in Hmatch. cbn [Regex.caps Regex.rest] in Hmatch.
  destruct Hmatch as [new [Hcaps Horigin]]. rewrite app_nil_r in Hcaps.
  unfold Reader.group1. unfold Regex.capture in *.
  destruct (find _ (Regex.caps (Regex.m_end m))) as [[j s]|] eqn:Hfind;
    [|contradiction].
  apply find_some in Hfind. destruct Hfind as [Hin Hj].
  cbn in Hj. apply Nat.eqb_eq in Hj. subst j. cbn [snd].
  rewrite Hcaps in Hin.
  destruct (Horigin 1 s Hin) as [[body [Hbody Hlang]] [a [b Hpart]]].
  split.
  - pose proof path_groups_end_in_source as Hall.
    rewrite Forall_forall in Hall. exact (Hall pattern Hpattern body Hbody s Hlang).
  - rewrite Hlog, Hpart, <- append_assoc. apply includes_part.
Qed.

(** *** Key words and scores *)

Lemma lower_char_idempotent : forall c, lower_char (lower_char c) = lower_char c.
Proof.
  intros [b0 b1 b2 b3 b4 b5 b6 b7].
  destruct b0, b1, b2, b3, b4, b5, b6, b7; reflexivity.
Qed.

Lemma toLowerCase_idempotent : forall s,
  toLowerCase (toLowerCase s) = toLowerCase s.
Proof.
  induction s as [|c s IH]; cbn; [reflexivity|].
  now rewrite lower_char_idempotent, IH.
Qed.

Lemma toLowerCase_chars : forall s c,
  In c (chars (toLowerCase s)) -> lower_char c = c.
Proof.
  induction s as [|x s IH]; intros c Hin; [destruct Hin|].
  destruct Hin as [<-|Hin]; [apply lower_char_idempotent|now apply IH].
Qed.

Lemma toLowerCase_fixed : forall w,
  (forall c, In c (chars w) -> lower_char c = c) -> toLowerCase w = w.
Proof.
  induction w as [|c w IH]; intros Hall; [reflexivity|].
  cbn [toLowerCase]. rewrite (Hall c (or_introl eq_refl)), IH;
    [reflexivity|].
  intros c' Hc'. apply Hall. now right.
Qed.

Lemma split_spaces_chars : forall s w c,
  In w (split_spaces s) -> In c (chars w) ->
  In c (chars s) /\ is_space c = false.
Proof.
  induction s as [|x s IH]; intros w c Hw Hc.
  - destruct Hw as [<-|[]]. destruct Hc.
  - cbn [split_spaces] in Hw. destruct (is_space x) eqn:Hx.
    + assert (Hrest : In w (split_spaces s) \/ w = "").
      { destruct s as [|y s'].
        - destruct Hw as [<-|Hw]; [now right|now left].
        - destruct (is_space y); [now left|].
          destruct Hw as [<-|Hw]; [now right|now left]. }
      destruct Hrest as [Hrest| ->]; [|destruct Hc].
      destruct (IH w c Hrest Hc). split; [now right|assumption].
    + destruct (split_spaces s) as [|w0 ws] eqn:Hsplit.
      * destruct Hw as [<-|[]].
        destruct Hc as [<-|[]]. split; [now left|assumption].
      * destruct Hw as [<-|Hw].
        -- destruct Hc as [<-|Hc]; [split; [now left|assumption]|].
           destruct (IH w0 c (or_introl eq_refl) Hc).
           split; [now right|assumption].
        -- destruct (IH w c (or_intror Hw) Hc).
           split; [now right|assumption].
Qed.

(** X14: the key words that [findRelatedFiles] takes from a description
    are longer than 3 characters, hold no white space and are in lower
    case; the letter case of the description does not change them. *)
Theorem keywords_are_normalised : forall description,
  Forall
    (fun w =>
       3 < String.length w /\ toLowerCase w = w /\
       Forall (fun c => is_space c = false) (chars w))
    (Reader.keywordsOf description) /\
  Reader.keywordsOf (toLowerCase description) =
    Reader.keywordsOf description.
Proof.
  intros description. split.
  - apply Forall_forall. intros w Hw. unfold Reader.keywordsOf in Hw.
    apply filter_In in Hw. destruct Hw as [Hw Hlen].
    apply Nat.ltb_lt in Hlen. split; [exact Hlen|]. split.
    + apply toLowerCase_fixed. intros c Hc.
      destruct (split_spaces_chars _ _ _ Hw Hc) as [Hin _].
      now apply toLowerCase_chars in Hin.
    + apply Forall_forall. intros c Hc.
      now destruct (split_spaces_chars _ _ _ Hw Hc).
  - unfold Reader.keywordsOf. now rewrite toLowerCase_idempotent.
Qed.

Lemma countIf_at_most : forall (A : Type) (p : A -> bool) xs,
  countIf p xs <= List.length xs.
Proof.
  intros. unfold countIf. apply filter_length_le.
Qed.

Lemma countIf_zero : forall (A : Type) (p : A -> bool) xs,
  countIf p xs = 0 <-> (forall x, In x xs -> p x = false).
Proof.
  intros A p xs. unfold countIf. induction xs as [|x xs IH]; cbn.
  - split; [intros _ y []|reflexivity].
  - destruct (p x) eqn:Hx; cbn.
    + split; [discriminate|]. intros Hall.
      specialize (Hall x (or_introl eq_refl)). congruence.
    + rewrite IH. split.
      * intros Hall y [<-|Hy]; auto.
      * intros Hall y Hy. apply Hall. now right.
Qed.

Lemma countIf_positive : forall (A : Type) (p : A -> bool) xs x,
  In x xs -> p x = true -> 1 <= countIf p xs.
Proof.
  intros A p xs x Hin Hp.
  destruct (countIf p xs) eqn:Hcount; [|lia].
  apply countIf_zero with (x := x) in Hcount; [congruence|assumption].
Qed.

(** X15: the bounds of a score.  A file scores at most 3 per key word; it
    scores 0 exactly when no key word occurs in its lower-cased content or
    in its lower-cased name, and at least 2 as soon as a key word occurs
    in its name, so only files that mention a key word can be ranked. *)
Theorem score_bounds : forall keywords f,
  let score := Reader.score (Reader.scoreFile keywords f) in
  let inContent := includes (toLowerCase (Scan.content f)) in
  let inName := includes (toLowerCase (Scan.file f)) in
  score <= 3 * List.length keywords /\
  (score = 0 <->
     forall k, In k keywords -> inContent k = false /\ inName k = false) /\
  ((exists k, In k keywords /\ inName k = true) -> 2 <= score) /\
  ((exists k, In k keywords /\ inContent k = true) -> 1 <= score).
Proof.
  intros keywords f score inContent inName. subst score.
  rewrite score_counts. fold inContent. fold inName.
  pose proof (countIf_at_most inContent keywords) as Hc.
  pose proof (countIf_at_most inName keywords) as Hn.
  split; [lia|]. split; [|split].
  - split.
    + intros Hzero k Hk. split.
      * apply (proj1 (countIf_zero inContent keywords)); [lia|assumption].
      * apply (proj1 (countIf_zero inName keywords)); [lia|assumption].
    + intros Hall.
      assert (H1 : countIf inContent keywords = 0)
        by (apply countIf_zero; intros k Hk; now apply Hall).
      assert (H2 : countIf inName keywords = 0)
        by (apply countIf_zero; intros k Hk; now apply Hall).
      lia.
  - intros [k [Hk Hin]]. pose proof (countIf_positive _ _ _ Hk Hin). lia.
  - intros [k [Hk Hin]]. pose proof (countIf_positive _ _ _ Hk Hin). lia.
Qed.

(** *** When no file is found *)

Lemma relevantFiles_of_nothing : forall keywords,
  Reader.relevantFiles keywords [] = [].
Proof.
  reflexivity.
Qed.

(** X16: when no path is specified, [findRelatedFiles] returns no file
    exactly when the stack trace gives none and the scan of the base path
    is empty: as long as the scan finds a file, some file is returned. *)
Theorem no_file_found : forall fs description errorLog basePath,
  Reader.findRelatedFiles fs
    {| Reader.description := description; Reader.errorLog := errorLog;
       Reader.filePaths := None; Reader.basePath := basePath |} = [] <->
  traced fs basePath errorLog = [] /\ Scan.scanRepository fs basePath = [].
Proof.
  intros fs description errorLog basePath.
  rewrite findRelatedFiles_cascade by now left.
  destruct (traced fs basePath errorLog) as [|f files].
  - destruct (Scan.scanRepository fs basePath) as [|s scanned] eqn:Hscan.
    + rewrite relevantFiles_of_nothing. cbn. tauto.
    + destruct (Reader.relevantFiles _ _) as [|r rs].
      * cbn. split; [discriminate|]. intros [_ H]. discriminate.
      * split; [discriminate|]. intros [_ H]. discriminate.
  - split; [discriminate|]. intros [H _]. discriminate.
Qed.

(** X17: a description without a word longer than 3 characters has no key
    word, so no file can score: when nothing is specified and the stack
    trace gives nothing, the result is the first 3 files of the scan. *)
Theorem short_words_fall_back : forall fs description errorLog basePath,
  Reader.keywordsOf description = [] ->
  traced fs basePath errorLog = [] ->
  Reader.findRelatedFiles fs
    {| Reader.description := description; Reader.errorLog := errorLog;
       Reader.filePaths := None; Reader.basePath := basePath |} =
  map Reader.toFileContent (firstn 3 (Scan.scanRepository fs basePath)).
Proof.
  intros fs description errorLog basePath Hwords Htraced.
  rewrite findRelatedFiles_cascade by now left.
  rewrite Htraced, Hwords.
  assert (Hnone : Reader.relevantFiles [] (Scan.scanRepository fs basePath)
                  = []).
  { apply relevantFiles_nil. intros f _. reflexivity. }
  now rewrite Hnone.
Qed.

Lemma short_words_fall_back_witness :
  Reader.findRelatedFiles Sample.project
    {| Reader.description := "fix the bug"; Reader.errorLog := None;
       Reader.filePaths := None; Reader.basePath := "/proj" |} =
  [Sample.aFile; Sample.bFile].
Proof.
  rewrite (@short_words_fall_back Sample.project "fix the bug" None "/proj").
  - vm_compute. reflexivity.
  - vm_compute. reflexivity.
  - reflexivity.
Defined.

(** ** Further properties of the bug analyzer *)

Lemma keep_loadBugFile_read : forall fs (toAbsolute : string -> string)
  filePaths,
  Forall
    (fun f => readFileSync fs (BugAnalyzer.path f) =
              Some (BugAnalyzer.content f))
    (keep (fun filePath => loadBugFile fs (toAbsolute filePath)) filePaths).
Proof.
  intros. induction filePaths as [|p ps IH]; cbn; [constructor|].
  unfold loadBugFile at 1.
  destruct (existsSync fs (toAbsolute p)); [|exact IH].
  destruct (readFileSync fs (toAbsolute p)) eqn:Hread; [|exact IH].
  constructor; [exact Hread|exact IH].
Qed.



Lemma search_text : forall r s i m,
  Regex.search r i s = Some m ->
  exists skipped,
    s = (skipped ++ Regex.m_text m ++ Regex.rest (Regex.m_end m))%string /\
    Regex.Lang r (Regex.m_text m).
Proof.
  assert (Hfound : forall r i s st,
    Regex.run r (Regex.MState i s []) Some = Some st ->
    s = (substring 0 (Regex.pos st - i) s ++ Regex.rest st)%string /\
    Regex.Lang r (substring 0 (Regex.pos st - i) s)).
  { intros r i s st Hrun. apply run_sound in Hrun.
    destruct Hrun as [st1 [Hm [= ->]]].
    destruct (Matches_lang Hm) as [w [L [R P]]].
    cbn [Regex.rest Regex.pos] in R, P.
    replace (Regex.pos st - i) with (String.length w) by lia.
    rewrite R. rewrite substring_prefix. now split. }
  intros r s. induction s as [|c s IH]; intros i m Hsearch;
    cbn [Regex.search] in Hsearch.
  - destruct (Regex.run r _ Some) as [st|] eqn:Hrun; [|discriminate].
    destruct (Hfound _ _ _ _ Hrun) as [Hs L].
    injection Hsearch as <-. exists "". split; [exact Hs|exact L].
  - destruct (Regex.run r _ Some) as [st|] eqn:Hrun.
    + destruct (Hfound _ _ _ _ Hrun) as [Hs L].
      injection Hsearch as <-. exists "". split; [exact Hs|exact L].
    + apply IH in Hsearch. destruct Hsearch as [skipped [Hs L]].
      exists (String c skipped). split; [|assumption].
      cbn [append]. now rewrite <- Hs.
Qed.

Lemma matches_from_text : forall fuel r i s m,
  In m (Regex.matches_from fuel r i s) ->
  (exists a b, s = (a ++ Regex.m_text m ++ b)%string) /\
  Regex.Lang r (Regex.m_text m).
Proof.
  induction fuel as [|fuel IH]; intros r i s m Hin; [destruct Hin|].
  cbn [Regex.matches_from] in Hin.
  destruct (Regex.search r i s) as [m'|] eqn:Hsearch; [|destruct Hin].
  apply search_text in Hsearch. destruct Hsearch as [skipped [Hs L]].
  destruct Hin as [<-|Hin]; [split; [eauto|assumption]|].
  apply IH in Hin. destruct Hin as [[a [b Hrest]] Hlang].
  split; [|assumption].
  exists (skipped ++ Regex.m_text m' ++ a)%string, b.
  rewrite Hs at 1. rewrite Hrest. now rewrite !append_assoc.
Qed.

Lemma endsInSource_group : forall i r,
  endsInSource r -> endsInSource (Regex.Group i r).
Proof.
  intros i r Hr w H. inversion H; subst. now apply Hr.
Qed.

Lemma endsInSource_alt : forall a b,
  endsInSource a -> endsInSource b -> endsInSource (Regex.Alt a b).
Proof.
  intros a b Ha Hb w H. inversion H; subst; [now apply Ha|now apply Hb].
Qed.

Lemma filePattern_ends_in_source : endsInSource BugAnalyzer.filePattern.
Proof.
  unfold BugAnalyzer.filePattern. cbn [Regex.Seqs].
  apply endsInSource_alt; apply endsInSource_group;
    repeat (first [apply endsInSource_base | apply endsInSource_seq]).
Qed.

(** X19: every file that [selectRelevantFiles] returns is named by a piece
    of the error log that ends in [.ts], [.js], [.tsx] or [.jsx]: its path
    is that piece, joined to the base path unless it is absolute, and its
    content is what is read from that path. *)
Theorem selected_files_come_from_the_log : forall fs errorLog basePath,
  Forall
    (fun f =>
       readFileSync fs (BugAnalyzer.path f) = Some (BugAnalyzer.content f) /\
       exists candidate,
         includes errorLog candidate = true /\
         endsWithOneOf sourceSuffixes candidate /\
         BugAnalyzer.path f =
           absolutePathOf
             (match basePath with Some p => p | None => cwd fs end)
             candidate)
    (BugAnalyzer.selectRelevantFiles fs errorLog basePath).
Proof.
  intros fs errorLog basePath. rewrite selectRelevantFiles_keep.
  apply Forall_forall. intros f Hf. split.
  - pose proof (keep_loadBugFile_read fs
      (absolutePathOf (match basePath with Some p => p | None => cwd fs end))
      (firstn 5
         (unique (map Regex.m_text
                    (Regex.match_all BugAnalyzer.filePattern errorLog)))))
      as Hread.
    rewrite Forall_forall in Hread. now apply Hread.
  - apply keep_In_inv in Hf. destruct Hf as [candidate [Hin Hload]].
    exists candidate.
    assert (Hpath : BugAnalyzer.path f =
                    absolutePathOf
                      (match basePath with Some p => p | None => cwd fs end)
                      candidate).
    { unfold loadBugFile in Hload. destruct (existsSync fs _); [|discriminate].
      destruct (readFileSync fs _); [|discriminate].
      now injection Hload as <-. }
    assert (Hall : In candidate
                     (unique (map Regex.m_text
                                (Regex.match_all BugAnalyzer.filePattern
                                   errorLog)))).
    { rewrite <- (firstn_skipn 5). apply in_or_app. now left. }
    clear Hin. rename Hall into Hin.
    apply (proj1 (unique_In _ _)) in Hin.
    apply in_map_iff in Hin. destruct Hin as [m [<- Hm]].
    unfold Regex.match_all in Hm. apply matches_from_text in Hm.
    destruct Hm as [[a [b Hlog]] Hlang].
    split; [|split; [|exact Hpath]].
    + rewrite Hlog. apply includes_part.
    + now apply filePattern_ends_in_source.
Qed.

(** *** Indentation *)

Lemma trimStart_fixed : forall s,
  match s with String c _ => is_space c = false | EmptyString => True end ->
  trimStart s = s.
Proof.
  intros [|c s] H; [reflexivity|]. cbn. now rewrite H.
Qed.

Lemma trimStart_head : forall s,
  match trimStart s with
  | String c _ => is_space c = false
  | EmptyString => True
  end.
Proof.
  induction s as [|c s IH]; cbn; [exact I|].
  destruct (is_space c) eqn:Hc; [exact IH|exact Hc].
Qed.

Lemma trimEnd_head : forall s,
  match s with String c _ => is_space c = false | EmptyString => True end ->
  match trimEnd s with
  | String c _ => is_space c = false
  | EmptyString => True
  end.
Proof.
  intros [|c s] H; cbn; [exact I|].
  destruct (trimEnd s); [now rewrite H|exact H].
Qed.

Lemma trimEnd_idempotent : forall s, trimEnd (trimEnd s) = trimEnd s.
Proof.
  induction s as [|c s IH]; [reflexivity|]. cbn [trimEnd].
  destruct (trimEnd s) as [|d t] eqn:Ht.
  - destruct (is_space c) eqn:Hc; [reflexivity|]. cbn. now rewrite Hc.
  - cbn [trimEnd]. cbn [trimEnd] in IH. rewrite IH. reflexivity.
Qed.

Lemma trim_idempotent : forall s, trim (trim s) = trim s.
Proof.
  intros s. unfold trim.
  rewrite (trimStart_fixed (trimEnd (trimStart s))).
  - apply trimEnd_idempotent.
  - apply trimEnd_head, trimStart_head.
Qed.

(** X20: [parseImports] reads each line trimmed: white space before and
    after a line changes nothing of what the line yields, and the raw text
    of every record is trimmed. *)
Theorem indentation_is_ignored : forall content,
  (forall line, lineImports (trim line) = lineImports line) /\
  Dependency.parseImports content =
    flat_map lineImports (map trim (split LF content)) /\
  Forall (fun imp => trim (Dependency.raw imp) = Dependency.raw imp)
    (Dependency.parseImports content).
Proof.
  intros content.
  assert (Hline : forall line, lineImports (trim line) = lineImports line).
  { intros line. unfold lineImports, Dependency.parseLine. cbv zeta.
    now rewrite trim_idempotent. }
  split; [exact Hline|]. split.
  - rewrite parseImports_lines.
    induction (split LF content) as [|line ls IH]; [reflexivity|].
    cbn [map flat_map]. now rewrite Hline, IH.
  - apply Forall_forall. intros imp Himp. apply parseImports_created in Himp.
    destruct Himp as [line [m [_ [_ ->]]]].
    cbn [Dependency.createImportInfo Dependency.raw]. apply trim_idempotent.
Qed.
